(** * NEXUS validator: a shallow embedding of the extension's validation core

    The embedded program is the object-model version of the validator
    (the file with [validateComments], [Nexus], [Taxon], [Sequence] and
    [NexusParser]).  JavaScript strings are sequences of UTF-16 code
    units; a code unit is modelled as an [N].  The editor host (the
    [vscode] module) is modelled by the small part of its contract the
    validator uses: positions, ranges, a text document made of lines, a
    diagnostic collection and the visible editors.  An exception thrown
    by the host aborts the pass; such a call returns an [option].  Writes
    to the output channel are write-only and are left out.  Numbers are
    doubles: a declared count is the double nearest to the integer its
    digits spell, and is printed as the engine prints a double. *)

From Stdlib Require Import List String Ascii NArith ZArith Arith Bool Lia.
From Stdlib Require Import DecimalString Sorted.
Import ListNotations.

Set Implicit Arguments.

(* ================================================================== *)
(** ** JavaScript strings *)
(* ================================================================== *)

(** A UTF-16 code unit. *)
Definition char := N.
Bind Scope N_scope with char.

(** A JavaScript string, as the sequence of its code units. *)
Definition jsstring := list char.

(** A string literal of the source, read as code units. *)
Definition lit (s : string) : jsstring :=
  map N_of_ascii (list_ascii_of_string s).

Definition QUOTE : char := 39%N.   (* ' *)
Definition LBRACKET : char := 91%N. (* [ *)
Definition RBRACKET : char := 93%N. (* ] *)
Definition SEMICOLON : char := 59%N. (* ; *)
Definition EQUALS : char := 61%N.   (* = *)

Definition in_range (lo hi c : char) : bool := (lo <=? c)%N && (c <=? hi)%N.
Arguments in_range (lo hi c)%_N.

(** The characters matched by [\s] and stripped by [String.prototype.trim]:
    the WhiteSpace and LineTerminator code points of ECMAScript. *)
Definition is_whitespace (c : char) : bool :=
  in_range 9 13 c || (c =? 32)%N || (c =? 160)%N || (c =? 5760)%N
  || in_range 8192 8202 c || (c =? 8232)%N || (c =? 8233)%N
  || (c =? 8239)%N || (c =? 8287)%N || (c =? 12288)%N || (c =? 65279)%N.

(** LineTerminator: the characters [.] does not match. *)
Definition is_line_terminator (c : char) : bool :=
  (c =? 10)%N || (c =? 13)%N || (c =? 8232)%N || (c =? 8233)%N.

Definition is_digit (c : char) : bool := in_range 48 57 c.

(** The characters of [\w], which decide [\b]. *)
Definition is_word_char (c : char) : bool :=
  in_range 97 122 c || in_range 65 90 c || is_digit c || (c =? 95)%N.

(** [str.replace(/\s/g, '')] *)
Definition remove_whitespace (s : jsstring) : jsstring :=
  filter (fun c => negb (is_whitespace c)) s.

Fixpoint trim_start (s : jsstring) : jsstring :=
  match s with
  | c :: rest => if is_whitespace c then trim_start rest else s
  | [] => []
  end.

(** [str.trim()] *)
Definition trim (s : jsstring) : jsstring :=
  rev (trim_start (rev (trim_start s))).

Fixpoint jsstring_eqb (a b : jsstring) : bool :=
  match a, b with
  | [], [] => true
  | x :: a', y :: b' => (x =? y)%N && jsstring_eqb a' b'
  | _, _ => false
  end.

(** [str.startsWith(p)] *)
Fixpoint startsWith (p s : jsstring) : bool :=
  match p, s with
  | [], _ => true
  | x :: p', y :: s' => (x =? y)%N && startsWith p' s'
  | _ :: _, [] => false
  end.

(** [str.indexOf(p)], searching from [from]; [None] stands for -1. *)
Fixpoint indexOf_from (p s : jsstring) (from : nat) : option nat :=
  if startsWith p s then Some from
  else match s with
       | [] => None
       | _ :: s' => indexOf_from p s' (S from)
       end.

Definition indexOf (s p : jsstring) : option nat := indexOf_from p s 0.

(** [str.substring(a, b)] for [a <= b]. *)
Definition substring (s : jsstring) (a b : nat) : jsstring :=
  firstn (b - a) (skipn a s).

(* ================================================================== *)
(** ** JavaScript numbers *)
(* ================================================================== *)

(** The numbers of the source are doubles.  The ones it handles are
    non-negative integers and +Infinity: a number is modelled by its
    value, an [N], and [Infinity], a value no finite double has, stands
    for +Infinity.  A count (the size of the map, the length of an
    array) is below 2^53 in a run of the source, where every integer is
    a double: it is kept as it is. *)
Section Numbers.
Local Open Scope N_scope.

Definition Infinity : N := 2 ^ 1024.

(** The double nearest to an integer: a significand of 53 bits, a tie
    going to the even one; +Infinity when the result is out of range. *)
Definition toDouble (n : N) : N :=
  let bits := N.size n in
  if bits <=? 53 then n
  else
    let shift := bits - 53 in
    let significand := N.shiftr n shift in
    let remainder := n - N.shiftl significand shift in
    let half := N.shiftl 1 (shift - 1) in
    let significand :=
      if (half <? remainder) || ((remainder =? half) && N.odd significand)
      then significand + 1 else significand in
    let value := N.shiftl significand shift in
    if Infinity <=? value then Infinity else value.

(** The integer a run of decimal digits spells. *)
Definition mathInt (digits : jsstring) : N :=
  fold_left (fun acc c => 10 * acc + (c - 48)) digits 0.

(** [parseInt] on a run of decimal digits: the double nearest to the
    integer they spell (the engine of the host rounds correctly). *)
Definition parseInt (digits : jsstring) : N :=
  toDouble (mathInt digits).

Definition decimal (n : N) : string :=
  NilEmpty.string_of_uint (N.to_uint n).

Definition digitCount (n : N) : N := N.of_nat (String.length (decimal n)).

(** The decimal of at most [k] significant digits nearest to the double
    [v], if it reads back as [v]; of two equally near, the one whose
    last digit is even. *)
Definition readsBack (v k : N) : option N :=
  let unit := 10 ^ (digitCount v - k) in
  let below := (v / unit) * unit in
  let above := below + unit in
  match toDouble below =? v, toDouble above =? v with
  | true, true =>
      if v - below <? above - v then Some below
      else if above - v <? v - below then Some above
      else if N.even (v / unit) then Some below else Some above
  | true, false => Some below
  | false, true => Some above
  | false, false => None
  end.

(** The decimal with the fewest significant digits that reads back as
    [v]; 17 digits always do. *)
Fixpoint shortest (v k : N) (tries : nat) : N :=
  match tries with
  | O => v
  | S tries' =>
      match readsBack v k with
      | Some x => x
      | None => shortest v (k + 1) tries'
      end
  end.

Fixpoint dropZeros (reversed : list ascii) : list ascii :=
  match reversed with
  | "0"%char :: more => dropZeros more
  | _ => reversed
  end.

(** The form d.ddde+n of a decimal of more than 21 digits. *)
Definition exponential (x : N) : string :=
  let digits := rev (dropZeros (rev (list_ascii_of_string (decimal x)))) in
  let exponent := decimal (digitCount x - 1) in
  match digits with
  | [] => EmptyString
  | [d] => String d ("e+" ++ exponent)
  | d :: more =>
      String d ("." ++ string_of_list_ascii more ++ "e+" ++ exponent)
  end%string.

(** A number interpolated into a template literal: the shortest decimal
    that reads back as the double, written out in full below 10^21 and
    in exponential form from there on. *)
Definition showNum (n : N) : string :=
  let v := toDouble n in
  if v =? Infinity then "Infinity"%string
  else
    let x := shortest v 1 17 in
    if x <? 10 ^ 21 then decimal x else exponential x.

End Numbers.

(* ================================================================== *)
(** ** The error monad: a thrown exception aborts the pass *)
(* ================================================================== *)

Definition bind {A B : Type} (m : option A) (k : A -> option B) : option B :=
  match m with
  | Some a => k a
  | None => None
  end.

Notation "x <- m ;; k" := (bind m (fun x => k))
  (at level 61, m at next level, right associativity).
Notation "' p <- m ;; k" := (bind m (fun x => let 'p := x in k))
  (at level 61, p pattern, m at next level, right associativity).

(* ================================================================== *)
(** ** The host: positions, ranges, documents *)
(* ================================================================== *)

Module Position.
Record t := make { line : nat; character : nat }.

Definition eqb (a b : t) : bool :=
  (line a =? line b) && (character a =? character b).

Definition isBefore (a b : t) : bool :=
  (line a <? line b) || ((line a =? line b) && (character a <? character b)).

(** [pos.translate(lineDelta, characterDelta)].  The host's position
    constructor rejects a negative line or character by throwing. *)
Definition translate (p : t) (lineDelta characterDelta : Z) : option t :=
  let l := (Z.of_nat (line p) + lineDelta)%Z in
  let c := (Z.of_nat (character p) + characterDelta)%Z in
  if (l <? 0)%Z || (c <? 0)%Z then None
  else Some (make (Z.to_nat l) (Z.to_nat c)).
End Position.

Module Range.
Record t := mk { start : Position.t; end_ : Position.t }.

(** [new vscode.Range(a, b)]: the constructor orders its two ends. *)
Definition make (a b : Position.t) : t :=
  if Position.isBefore b a then mk b a else mk a b.
End Range.

Inductive DiagnosticSeverity := Error | Warning | Information | Hint.

Record Diagnostic := mkDiagnostic {
  range : Range.t;
  message : string;
  severity : DiagnosticSeverity
}.

Inductive EndOfLine := LF | CRLF.

Definition eol_length (e : EndOfLine) : nat :=
  match e with LF => 1 | CRLF => 2 end.

Definition eol_string (e : EndOfLine) : jsstring :=
  match e with LF => [10%N] | CRLF => [13%N; 10%N] end.

(** A text document of the host: an identity, a language, and at least
    one line; [getText] joins the lines with the document's end of line. *)
Record TextDocument := mkDocument {
  uri : string;
  languageId : string;
  eol : EndOfLine;
  firstLine : jsstring;
  moreLines : list jsstring
}.

Module TextLine.
Record t := make { text : jsstring; range : Range.t }.
End TextLine.

Module Document.
Definition lines (d : TextDocument) : list jsstring :=
  firstLine d :: moreLines d.

Definition lineCount (d : TextDocument) : nat := List.length (lines d).

Fixpoint join (e : EndOfLine) (l0 : jsstring) (ls : list jsstring) : jsstring :=
  match ls with
  | [] => l0
  | l1 :: ls' => l0 ++ eol_string e ++ join e l1 ls'
  end.

Definition getText (d : TextDocument) : jsstring :=
  join (eol d) (firstLine d) (moreLines d).

(** The line holding [offset], and the column clamped to that line's
    length (an offset inside an end of line maps to the line's end). *)
Fixpoint locate (e : EndOfLine) (l0 : jsstring) (ls : list jsstring)
                (lineNo offset : nat) : Position.t :=
  match ls with
  | [] => Position.make lineNo (Nat.min offset (List.length l0))
  | l1 :: ls' =>
      if offset <? List.length l0 + eol_length e
      then Position.make lineNo (Nat.min offset (List.length l0))
      else locate e l1 ls' (S lineNo) (offset - (List.length l0 + eol_length e))
  end.

Definition positionAt (d : TextDocument) (offset : nat) : Position.t :=
  locate (eol d) (firstLine d) (moreLines d) 0 offset.

(** [document.lineAt(i)]; throws when [i] is not a line of the document. *)
Definition lineAt (d : TextDocument) (i : nat) : option TextLine.t :=
  match nth_error (lines d) i with
  | Some l =>
      Some (TextLine.make l
              (Range.make (Position.make i 0) (Position.make i (List.length l))))
  | None => None
  end.
End Document.

(** A visible editor: the document it shows and the ranges it currently
    renders with the unclosed-comment decoration. *)
Record TextEditor := mkEditor {
  editorDocument : string;
  decorations : list Range.t
}.

(** The host state the validator acts on: the diagnostic collection
    (document identity to published diagnostics) and the visible editors. *)
Record Host := mkHost {
  collection : list (string * list Diagnostic);
  visibleTextEditors : list TextEditor
}.

Module Collection.
Definition t := list (string * list Diagnostic).

Definition clear (c : t) : t := [].

Fixpoint set (c : t) (u : string) (ds : list Diagnostic) : t :=
  match c with
  | [] => [(u, ds)]
  | (u', ds') :: c' =>
      if String.eqb u' u then (u, ds) :: c' else (u', ds') :: set c' u ds
  end.

Fixpoint get (c : t) (u : string) : option (list Diagnostic) :=
  match c with
  | [] => None
  | (u', ds) :: c' => if String.eqb u' u then Some ds else get c' u
  end.
End Collection.

(* ================================================================== *)
(** ** Regular expressions: a backtracking matcher *)
(* ================================================================== *)

Module RegExp.

Inductive regex :=
| Empty
| Char (p : char -> bool)              (* one character of a class *)
| Seq (a b : regex)
| Alt (a b : regex)
| Star (greedy : bool) (r : regex)     (* greedy or lazy repetition *)
| Group (n : nat) (r : regex)          (* capturing group number n *)
| AssertStart                          (* ^ *)
| AssertEnd                            (* $ *)
| WordBoundary.                        (* \b *)

(** One or more, greedy. *)
Definition Plus (r : regex) : regex := Seq r (Star true r).

(** A matcher state: the index reached, the character before it, the
    text still ahead, and the captures recorded so far. *)
Record MState := mkState {
  pos : nat;
  prev : option char;
  rest : jsstring;
  caps : list (nat * (nat * nat))
}.

Definition is_word (c : option char) : bool :=
  match c with Some x => is_word_char x | None => false end.

Definition set_cap (n from : nat) (s : MState) : MState :=
  mkState (pos s) (prev s) (rest s) ((n, (from, pos s)) :: caps s).

Fixpoint cap_lookup (n : nat) (cs : list (nat * (nat * nat))) : option (nat * nat) :=
  match cs with
  | [] => None
  | (m, v) :: cs' => if m =? n then Some v else cap_lookup n cs'
  end.

(** One iteration after another of [step], each consuming at least one
    character (an empty iteration is rejected); the results are in
    backtracking order. *)
Fixpoint iterate (step : MState -> list MState) (greedy : bool)
                 (fuel : nat) (s : MState) : list MState :=
  match fuel with
  | 0 => [s]
  | S fuel' =>
      let more :=
        flat_map (fun s' => if pos s <? pos s' then iterate step greedy fuel' s'
                            else [])
                 (step s) in
      if greedy then more ++ [s] else s :: more
  end.

(** Every way [r] matches at [s], in the order a backtracking matcher
    tries them; the head of the list is the match it reports. *)
Fixpoint matches (r : regex) (s : MState) : list MState :=
  match r with
  | Empty => [s]
  | Char p =>
      match rest s with
      | c :: t => if p c then [mkState (S (pos s)) (Some c) t (caps s)] else []
      | [] => []
      end
  | Seq a b => flat_map (matches b) (matches a s)
  | Alt a b => matches a s ++ matches b s
  | Star greedy r0 => iterate (matches r0) greedy (S (List.length (rest s))) s
  | Group n r0 => map (set_cap n (pos s)) (matches r0 s)
  | AssertStart => if pos s =? 0 then [s] else []
  | AssertEnd => match rest s with [] => [s] | _ :: _ => [] end
  | WordBoundary =>
      if xorb (is_word (prev s)) (is_word (hd_error (rest s))) then [s] else []
  end.

(** The result of [regex.exec(text)]. *)
Record Match := mkMatch {
  input : jsstring;
  index : nat;
  lastIndex : nat;
  groups : list (nat * (nat * nat))
}.

Fixpoint exec_from (r : regex) (text : jsstring) (before : option char)
                   (ahead : jsstring) (i : nat) : option Match :=
  match matches r (mkState i before ahead []) with
  | s :: _ => Some (mkMatch text i (pos s) (caps s))
  | [] =>
      match ahead with
      | [] => None
      | c :: t => exec_from r text (Some c) t (S i)
      end
  end.

(** [r.exec(text)] for a regular expression without the g or y flag. *)
Definition exec (r : regex) (text : jsstring) : option Match :=
  exec_from r text None text 0.

(** [match[0]] *)
Definition whole (m : Match) : jsstring :=
  substring (input m) (index m) (lastIndex m).

(** [match[n]] for n >= 1; [None] is [undefined]. *)
Definition group (m : Match) (n : nat) : option jsstring :=
  match cap_lookup n (groups m) with
  | Some (a, b) => Some (substring (input m) a b)
  | None => None
  end.

(** A literal character; under the i flag a letter matches both cases.
    The patterns of the source have ASCII letters only, which no
    character outside ASCII matches under the i flag. *)
Definition canonicalize (c : char) : char :=
  if in_range 97 122 c then (c - 32)%N else c.

Definition Lit (ignoreCase : bool) (c : char) : regex :=
  Char (fun x => if ignoreCase then (canonicalize x =? canonicalize c)%N
                 else (x =? c)%N).

Definition Word (ignoreCase : bool) (w : string) : regex :=
  fold_right (fun c r => Seq (Lit ignoreCase c) r) Empty (lit w).

Definition Space : regex := Char is_whitespace.                 (* \s *)
Definition NonSpace : regex := Char (fun c => negb (is_whitespace c)). (* \S *)
Definition Digit : regex := Char is_digit.                      (* \d *)
Definition Any : regex := Char (fun _ => true).                 (* [\s\S] *)
Definition Dot : regex := Char (fun c => negb (is_line_terminator c)). (* . *)
Definition NotQuote : regex := Char (fun c => negb (c =? QUOTE)%N).  (* [^'] *)

End RegExp.

Import RegExp.

(** The source's NTAX pattern, with the i flag:
    \b NTAX \s* = \s* ( \d+ ) *)
Definition ntaxRegex : regex :=
  Seq WordBoundary (Seq (Word true "NTAX") (Seq (Star true Space)
    (Seq (Lit true EQUALS) (Seq (Star true Space) (Group 1 (Plus Digit)))))).

(** The source's NCHAR pattern, with the i flag:
    \b NCHAR \s* = \s* ( \d+ ) *)
Definition ncharRegex : regex :=
  Seq WordBoundary (Seq (Word true "NCHAR") (Seq (Star true Space)
    (Seq (Lit true EQUALS) (Seq (Star true Space) (Group 1 (Plus Digit)))))).

(** The source's MATRIX pattern, with the i flag:
    \b MATRIX \b \s* ( [\s\S]*? ) \s* ; *)
Definition matrixRegex : regex :=
  Seq WordBoundary (Seq (Word true "MATRIX") (Seq WordBoundary
    (Seq (Star true Space) (Seq (Group 1 (Star false Any))
      (Seq (Star true Space) (Lit true SEMICOLON)))))).

(** The source's row pattern:
    ^ \s* ( ' ( [^']+ ) ' | ( \S+ ) ) \s+ ( .* ) $
    Group 2 is the quoted name, group 3 the simple name, group 4 the
    sequence text. *)
Definition rowRegex : regex :=
  Seq AssertStart (Seq (Star true Space)
    (Seq (Group 1 (Alt (Seq (Lit false QUOTE)
                          (Seq (Group 2 (Plus NotQuote)) (Lit false QUOTE)))
                       (Group 3 (Plus NonSpace))))
      (Seq (Plus Space) (Seq (Group 4 (Star true Dot)) AssertEnd)))).

(* ================================================================== *)
(** ** validateComments: bracket balance, respecting quotes *)
(* ================================================================== *)

Definition push {A : Type} (arr : list A) (x : A) : list A := arr ++ [x].

(** The squiggle under the single character at [offset]. *)
Definition bracketDiagnostic (document : TextDocument) (offset : nat)
                             (msg : string) : option Diagnostic :=
  let pos := Document.positionAt document offset in
  pos1 <- Position.translate pos 0 1 ;;
  Some (mkDiagnostic (Range.make pos pos1) msg Error).

(** The scanning loop over [text] from index [i]: the stack of the
    offsets of the open brackets, the quote flag, and the diagnostics
    pushed so far. *)
Fixpoint scanComments (document : TextDocument) (text : jsstring) (i : nat)
                      (stack : list nat) (inQuote : bool)
                      (diagnostics : list Diagnostic)
  : option (list nat * bool * list Diagnostic) :=
  match text with
  | [] => Some (stack, inQuote, diagnostics)
  | c :: text' =>
      if (c =? QUOTE)%N then
        match text' with
        | c1 :: text'' =>
            if inQuote && (c1 =? QUOTE)%N
            then scanComments document text'' (S (S i)) stack inQuote diagnostics
            else scanComments document text' (S i) stack (negb inQuote) diagnostics
        | [] => scanComments document text' (S i) stack (negb inQuote) diagnostics
        end
      else if inQuote then
        scanComments document text' (S i) stack inQuote diagnostics
      else if (c =? LBRACKET)%N then
        scanComments document text' (S i) (push stack i) inQuote diagnostics
      else if (c =? RBRACKET)%N then
        match stack with
        | [] =>
            d <- bracketDiagnostic document i "Unexpected closing bracket ']'" ;;
            scanComments document text' (S i) stack inQuote (push diagnostics d)
        | _ :: _ =>
            scanComments document text' (S i) (removelast stack) inQuote diagnostics
        end
      else scanComments document text' (S i) stack inQuote diagnostics
  end.

(** The diagnostics for the brackets left open, one for each. *)
Fixpoint unclosedDiagnostics (document : TextDocument) (stack : list nat)
                             (diagnostics : list Diagnostic)
  : option (list Diagnostic) :=
  match stack with
  | [] => Some diagnostics
  | index :: stack' =>
      d <- bracketDiagnostic document index "Unclosed comment block '['" ;;
      unclosedDiagnostics document stack' (push diagnostics d)
  end.

(** [editor.setDecorations] on every visible editor showing the document. *)
Definition setDecorations (u : string) (ranges : list Range.t)
                          (editors : list TextEditor) : list TextEditor :=
  map (fun e => if String.eqb (editorDocument e) u
                then mkEditor (editorDocument e) ranges else e) editors.

(** The diagnostics and the decoration ranges [validateComments] computes. *)
Definition commentDiagnostics (document : TextDocument)
                              (diagnostics : list Diagnostic)
  : option (list Diagnostic * list Range.t) :=
  let text := Document.getText document in
  '(stack, inQuote, diagnostics) <- scanComments document text 0 [] false diagnostics ;;
  diagnostics <-
    (if inQuote : bool then
       let lastPos := Document.positionAt document (List.length text) in
       before <- Position.translate lastPos 0 (-1) ;;
       Some (push diagnostics
               (mkDiagnostic (Range.make before lastPos)
                  "Unclosed single quote. This may hide other errors." Error))
     else Some diagnostics) ;;
  let endPos := Document.positionAt document (List.length text) in
  match stack with
  | [] => Some (diagnostics, [])
  | outermostUnclosedIndex :: _ =>
      let startPos := Document.positionAt document outermostUnclosedIndex in
      diagnostics <- unclosedDiagnostics document stack diagnostics ;;
      Some (diagnostics, [Range.make startPos endPos])
  end.

Definition validateComments (document : TextDocument)
                            (diagnostics : list Diagnostic)
                            (editors : list TextEditor)
  : option (list Diagnostic * list TextEditor) :=
  '(diagnostics, decorationRanges) <- commentDiagnostics document diagnostics ;;
  Some (diagnostics, setDecorations (uri document) decorationRanges editors).

(* ================================================================== *)
(** ** The domain model *)
(* ================================================================== *)

Module Sequence.
Record t := mk { bases : list char }.

(** The loop of [_clean]: the comment depth, the quote flag and the
    text kept so far. *)
Fixpoint cleanLoop (str : jsstring) (stack : nat) (inQuote : bool)
                   (clean : jsstring) : jsstring :=
  match str with
  | [] => clean
  | c :: str' =>
      if (c =? QUOTE)%N then
        match str' with
        | c1 :: str'' =>
            if inQuote && (c1 =? QUOTE)%N
            then cleanLoop str'' stack inQuote
                   (if stack =? 0 then push clean QUOTE else clean)
            else cleanLoop str' stack (negb inQuote)
                   (if stack =? 0 then push clean QUOTE else clean)
        | [] => cleanLoop str' stack (negb inQuote)
                  (if stack =? 0 then push clean QUOTE else clean)
        end
      else if negb inQuote && (c =? LBRACKET)%N then
        cleanLoop str' (S stack) inQuote clean
      else if negb inQuote && (c =? RBRACKET)%N then
        cleanLoop str' (if 0 <? stack then stack - 1 else stack) inQuote clean
      else
        cleanLoop str' stack inQuote (if stack =? 0 then push clean c else clean)
  end.

Definition _clean (str : jsstring) : jsstring :=
  remove_whitespace (cleanLoop str 0 false []).

(** [new Sequence(rawString)]; an absent argument defaults to the
    empty string. *)
Definition make (rawString : option jsstring) : t :=
  mk (_clean (match rawString with Some str => str | None => [] end)).

Definition pushSequence (this otherSequence : t) : t :=
  mk (bases this ++ bases otherSequence).

Definition length (this : t) : nat := List.length (bases this).
End Sequence.

Module Taxon.
Record t := make {
  name : jsstring;
  sequence : Sequence.t;
  lineRange : Range.t
}.

Definition concat (this : t) (otherSequence : Sequence.t) : t :=
  make (name this) (Sequence.pushSequence (sequence this) otherSequence)
       (lineRange this).

Definition length (this : t) : nat := Sequence.length (sequence this).
End Taxon.

(** A JavaScript [Map] with string keys: the entries in insertion order. *)
Module JSMap.
Definition t (V : Type) := list (jsstring * V).

Fixpoint get {V : Type} (m : t V) (k : jsstring) : option V :=
  match m with
  | [] => None
  | (k', v) :: m' => if jsstring_eqb k' k then Some v else get m' k
  end.

Definition has {V : Type} (m : t V) (k : jsstring) : bool :=
  match get m k with Some _ => true | None => false end.

(** [m.set(k, v)]: a present key keeps its place, a new one goes last. *)
Fixpoint set {V : Type} (m : t V) (k : jsstring) (v : V) : t V :=
  match m with
  | [] => [(k, v)]
  | (k', v') :: m' =>
      if jsstring_eqb k' k then (k, v) :: m' else (k', v') :: set m' k v
  end.

Definition values {V : Type} (m : t V) : list V := map snd m.

Definition size {V : Type} (m : t V) : nat := List.length m.
End JSMap.

Module Nexus.
Record t := mk { taxa : JSMap.t Taxon.t }.

Definition empty : t := mk [].

(** [addTaxon]: the taxon stored under the name is extended in place
    (the map keeps the same, mutated, object), or the new one is added. *)
Definition addTaxon (this : t) (taxon : Taxon.t) : t :=
  match JSMap.get (taxa this) (Taxon.name taxon) with
  | Some existing =>
      mk (JSMap.set (taxa this) (Taxon.name taxon)
            (Taxon.concat existing (Taxon.sequence taxon)))
  | None => mk (JSMap.set (taxa this) (Taxon.name taxon) taxon)
  end.

Definition getTaxon (this : t) (name : jsstring) : option Taxon.t :=
  JSMap.get (taxa this) name.

Definition ntax (this : t) : nat := JSMap.size (taxa this).

Definition maxSequenceLength (this : t) : nat :=
  fold_left (fun max taxon => if max <? Taxon.length taxon
                              then Taxon.length taxon else max)
            (JSMap.values (taxa this)) 0.
End Nexus.

(* ================================================================== *)
(** ** The parser *)
(* ================================================================== *)

Module NexusParser.

(** [a || b] on two captures: an undefined or empty [a] gives [b]. *)
Definition orElse (a b : option jsstring) : option jsstring :=
  match a with
  | Some (_ :: _) => a
  | _ => b
  end.

(** The taxon a line of the block stands for, if it is a data row. *)
Definition rowOf (line : TextLine.t) : option Taxon.t :=
  let textLine := trim (TextLine.text line) in
  if match textLine with [] => true | _ :: _ => false end
     || startsWith [LBRACKET] textLine
     || jsstring_eqb textLine [SEMICOLON]
  then None
  else
    match exec rowRegex (TextLine.text line) with
    | Some m =>
        (* a row match binds group 2 or group 3: the name is defined *)
        match orElse (group m 2) (group m 3) with
        | Some name =>
            let rawSeq := group m 4 in
            let sequence := Sequence.make rawSeq in
            Some (Taxon.make name sequence (TextLine.range line))
        | None => None
        end
    | None => None
    end.

(** One turn of the loop over the lines of the block. *)
Definition parseLine (line : TextLine.t) (nexus : Nexus.t) : Nexus.t :=
  match rowOf line with
  | Some taxon => Nexus.addTaxon nexus taxon
  | None => nexus
  end.

(** The loop from line [i], with [count] turns left. *)
Fixpoint parseLines (document : TextDocument) (i count : nat)
                    (nexus : Nexus.t) : option Nexus.t :=
  match count with
  | 0 => Some nexus
  | S count' =>
      line <- Document.lineAt document i ;;
      parseLines document (S i) count' (parseLine line nexus)
  end.

(** [whole.indexOf(part)] as a number: -1 when absent. *)
Definition indexOfZ (s p : jsstring) : Z :=
  match indexOf s p with
  | Some k => Z.of_nat k
  | None => (-1)%Z
  end.

(** The first and the last line of the MATRIX block of a match. *)
Definition blockLines (document : TextDocument) (matrixMatch : Match)
  : nat * nat :=
  let body := match group matrixMatch 1 with Some b => b | None => [] end in
  let matrixStartOffset :=
    (Z.of_nat (index matrixMatch) + indexOfZ (whole matrixMatch) body)%Z in
  (* positionAt clamps a negative offset to 0 *)
  let startLine :=
    Position.line (Document.positionAt document (Z.to_nat matrixStartOffset)) in
  let endLine :=
    Position.line
      (Document.positionAt document
         (Z.to_nat (matrixStartOffset + Z.of_nat (List.length body)))) in
  (startLine, endLine).

Definition parse (document : TextDocument) : option Nexus.t :=
  let nexus := Nexus.empty in
  let text := Document.getText document in
  match exec matrixRegex text with
  | None => Some nexus
  | Some matrixMatch =>
      let '(startLine, endLine) := blockLines document matrixMatch in
      (* for (i = startLine; i <= endLine; i++) *)
      parseLines document startLine (S endLine - startLine) nexus
  end.
End NexusParser.

(* ================================================================== *)
(** ** validateNexus: the validation pass *)
(* ================================================================== *)

Definition getRangeFromMatch (document : TextDocument) (m : Match) : Range.t :=
  let start := Document.positionAt document (index m) in
  let end_ := Document.positionAt document (index m + List.length (whole m)) in
  Range.make start end_.

Definition ntaxMessage (definedNtax : N) (ntax : nat) : string :=
  ("Mismatch: NTAX=" ++ showNum definedNtax ++ " but MATRIX has "
     ++ showNum (N.of_nat ntax) ++ " taxa.")%string.

Definition ncharMessage (definedNchar : N) (maxSequenceLength : nat) : string :=
  ("Mismatch: NCHAR=" ++ showNum definedNchar ++ " but the longest sequence is "
     ++ showNum (N.of_nat maxSequenceLength) ++ ".")%string.

Definition rowMessage (length : nat) (definedNchar : N) : string :=
  ("Sequence length (" ++ showNum (N.of_nat length) ++ ") does not match NCHAR ("
     ++ showNum definedNchar ++ ").")%string.

(** [parseInt(match[1])] of a header match, [None] for [null]. *)
Definition defined (m : option Match) : option N :=
  match m with
  | Some m => Some (parseInt (match group m 1 with Some g => g | None => [] end))
  | None => None
  end.

(** Step 3: the NTAX check. *)
Definition checkNtax (document : TextDocument) (ntaxMatch : option Match)
                     (nexusData : Nexus.t) (diagnostics : list Diagnostic)
  : list Diagnostic :=
  match ntaxMatch, defined ntaxMatch with
  | Some m, Some definedNtax =>
      if negb (N.of_nat (Nexus.ntax nexusData) =? definedNtax)%N then
        push diagnostics
          (mkDiagnostic (getRangeFromMatch document m)
             (ntaxMessage definedNtax (Nexus.ntax nexusData)) Error)
      else diagnostics
  | _, _ => diagnostics
  end.

(** Step 4: the NCHAR check against the longest sequence. *)
Definition checkNchar (document : TextDocument) (ncharMatch : option Match)
                      (nexusData : Nexus.t) (diagnostics : list Diagnostic)
  : list Diagnostic :=
  match ncharMatch, defined ncharMatch with
  | Some m, Some definedNchar =>
      if negb (N.of_nat (Nexus.maxSequenceLength nexusData) =? definedNchar)%N then
        push diagnostics
          (mkDiagnostic (getRangeFromMatch document m)
             (ncharMessage definedNchar (Nexus.maxSequenceLength nexusData)) Error)
      else diagnostics
  | _, _ => diagnostics
  end.

(** Step 5: the per-taxon row check, in the order of the map. *)
Definition checkRows (definedNchar : option N) (nexusData : Nexus.t)
                     (diagnostics : list Diagnostic) : list Diagnostic :=
  match definedNchar with
  | Some definedNchar =>
      fold_left
        (fun diagnostics taxon =>
           if negb (N.of_nat (Taxon.length taxon) =? definedNchar)%N then
             push diagnostics
               (mkDiagnostic (Taxon.lineRange taxon)
                  (rowMessage (Taxon.length taxon) definedNchar) Warning)
           else diagnostics)
        (JSMap.values (Nexus.taxa nexusData)) diagnostics
  | None => diagnostics
  end.

(** How a pass ended. *)
Inductive Completion := Returned | Threw.

Definition validateNexus (document : TextDocument) (host : Host)
  : Host * Completion :=
  if negb (String.eqb (languageId document) "nexus") then (host, Returned)
  else
    let host := mkHost (Collection.clear (collection host)) (visibleTextEditors host) in
    let text := Document.getText document in
    let diagnostics := [] in
    match validateComments document diagnostics (visibleTextEditors host) with
    | None => (host, Threw)
    | Some (diagnostics, editors) =>
        let host := mkHost (collection host) editors in
        let ntaxMatch := exec ntaxRegex text in
        let ncharMatch := exec ncharRegex text in
        let definedNchar := defined ncharMatch in
        match NexusParser.parse document with
        | None => (host, Threw)
        | Some nexusData =>
            let diagnostics := checkNtax document ntaxMatch nexusData diagnostics in
            let diagnostics := checkNchar document ncharMatch nexusData diagnostics in
            let diagnostics := checkRows definedNchar nexusData diagnostics in
            (mkHost (Collection.set (collection host) (uri document) diagnostics)
                    (visibleTextEditors host),
             Returned)
        end
    end.

(** The diagnostics the collection holds for the document after a pass. *)
Definition diagnosticsOf (document : TextDocument) (host : Host)
  : option (list Diagnostic) :=
  Collection.get (collection (fst (validateNexus document host))) (uri document).

(* ================================================================== *)
(** ** activate: the first pass and the two listeners *)
(* ================================================================== *)

(** What [activate] pushes on [context.subscriptions]. *)
Inductive Subscription :=
| OutputChannel
| ActiveTextEditorListener
| TextDocumentListener.

(** The listener of [onDidChangeActiveTextEditor]: [editor] is the
    document of the new active editor, [None] for [undefined]. *)
Definition onDidChangeActiveTextEditor (editor : option TextDocument)
                                       (host : Host) : Host * Completion :=
  match editor with
  | Some document => validateNexus document host
  | None => (host, Returned)
  end.

(** The listener of [onDidChangeTextDocument]: [event] is the document
    of the change event. *)
Definition onDidChangeTextDocument (event : TextDocument) (host : Host)
  : Host * Completion :=
  validateNexus event host.

(** [activate]: the collection is created empty; the document of the
    active editor, when there is one, is validated before the listeners
    are registered, so an exception of that pass leaves [activate] with
    the output channel as its only subscription. *)
Definition activate (activeTextEditor : option TextDocument)
                    (visible : list TextEditor)
  : Host * list Subscription * Completion :=
  let diagnosticCollection : Collection.t := [] in
  let host := mkHost diagnosticCollection visible in
  let subscriptions := push [] OutputChannel in
  let '(host, completion) :=
    match activeTextEditor with
    | Some document => validateNexus document host
    | None => (host, Returned)
    end in
  match completion with
  | Threw => (host, subscriptions, Threw)
  | Returned =>
      let subscriptions := push subscriptions ActiveTextEditorListener in
      let subscriptions := push subscriptions TextDocumentListener in
      (host, subscriptions, Returned)
  end.

(** The events the two listeners are registered for. *)
Inductive Event :=
| DidChangeActiveTextEditor (editor : option TextDocument)
| DidChangeTextDocument (document : TextDocument).

(** The host fires an event at its listener; an exception of a listener
    stops that listener only, and the state is the one it left. *)
Definition fire (host : Host) (event : Event) : Host :=
  fst (match event with
       | DidChangeActiveTextEditor editor =>
           onDidChangeActiveTextEditor editor host
       | DidChangeTextDocument document =>
           onDidChangeTextDocument document host
       end).

Definition deliver (events : list Event) (host : Host) : Host :=
  fold_left fire events host.

(* ================================================================== *)
(** ** The earlier validators: src/extension.js and src/unnamed/part_001 *)
(* ================================================================== *)

Definition NEWLINE : char := 10%N.

(** [str.replace(r, replacement)] for a regular expression [r] with the
    g flag and a replacement without [$]: the matches are searched one
    after the other, each from the end of the one before (from the next
    index after an empty match), and what lies between them is kept.
    [i] is the index reached, [skip] the number of characters still
    inside the match in progress. *)
Fixpoint replaceLoop (r : regex) (replacement : jsstring)
                     (before : option char) (ahead : jsstring)
                     (i skip : nat) : jsstring :=
  match skip, ahead with
  | S skip', c :: ahead' =>
      replaceLoop r replacement (Some c) ahead' (S i) skip'
  | S _, [] => []
  | 0, [] =>
      match matches r (mkState i before [] []) with
      | _ :: _ => replacement
      | [] => []
      end
  | 0, c :: ahead' =>
      match matches r (mkState i before ahead []) with
      | s :: _ =>
          replacement
          ++ (if pos s =? i
              then c :: replaceLoop r replacement (Some c) ahead' (S i) 0
              else replaceLoop r replacement (Some c) ahead' (S i)
                     (pos s - i - 1))
      | [] => c :: replaceLoop r replacement (Some c) ahead' (S i) 0
      end
  end.

Definition replaceAll (r : regex) (replacement text : jsstring) : jsstring :=
  replaceLoop r replacement None text 0 0.

(** The pattern of both earlier validators for a comment, with the g
    flag:  \[ .*? \]  *)
Definition commentRegex : regex :=
  Seq (Lit false LBRACKET) (Seq (Star false Dot) (Lit false RBRACKET)).

(** [str.split(sep)] for a separator of one character: at least one
    part, the empty string for the empty string. *)
Fixpoint split (sep : char) (s : jsstring) : list jsstring :=
  match s with
  | [] => [[]]
  | c :: s' =>
      if (c =? sep)%N then [] :: split sep s'
      else match split sep s' with
           | part :: parts => (c :: part) :: parts
           | [] => [[c]]
           end
  end.

(** src/extension.js: NTAX against a count of the lines of the MATRIX
    block. *)
Module ExtensionJs.

(** The MATRIX pattern of this version, with the i flag:
    \b MATRIX \b ( [\s\S]*? ) ;  *)
Definition matrixRegex : regex :=
  Seq WordBoundary (Seq (Word true "MATRIX") (Seq WordBoundary
    (Seq (Group 1 (Star false Any)) (Lit true SEMICOLON)))).

Definition ntaxMessage (definedNtax : N) (actualTaxaCount : nat) : string :=
  ("Mismatch: NTAX is set to " ++ showNum definedNtax
     ++ ", but MATRIX contains " ++ showNum (N.of_nat actualTaxaCount)
     ++ " taxa.")%string.

(** The loop over the lines of the block: a line counts when something
    is left of it once comments and outer whitespace are removed. *)
Definition countTaxa (lines : list jsstring) : nat :=
  fold_left
    (fun actualTaxaCount line =>
       let cleanLine := trim (replaceAll commentRegex [] line) in
       if 0 <? List.length cleanLine then S actualTaxaCount
       else actualTaxaCount)
    lines 0.

Definition validateNexus (document : TextDocument) (host : Host)
  : Host * Completion :=
  if negb (String.eqb (languageId document) "nexus") then (host, Returned)
  else
    let host := mkHost (Collection.clear (collection host)) (visibleTextEditors host) in
    let text := Document.getText document in
    let diagnostics : list Diagnostic := [] in
    match exec ntaxRegex text with
    | None => (host, Returned)
    | Some ntaxMatch =>
        let definedNtax :=
          parseInt (match group ntaxMatch 1 with Some g => g | None => [] end) in
        match exec matrixRegex text with
        | None => (host, Returned)
        | Some matrixMatch =>
            match group matrixMatch 1 with
            | None => (host, Threw)   (* undefined.split *)
            | Some matrixContent =>
                let lines := split NEWLINE matrixContent in
                let actualTaxaCount := countTaxa lines in
                let diagnostics :=
                  if negb (N.of_nat actualTaxaCount =? definedNtax)%N then
                    let startPos := Document.positionAt document (index ntaxMatch) in
                    let endPos :=
                      Document.positionAt document
                        (index ntaxMatch + List.length (whole ntaxMatch)) in
                    push diagnostics
                      (mkDiagnostic (Range.make startPos endPos)
                         (ntaxMessage definedNtax actualTaxaCount) Error)
                  else diagnostics in
                (mkHost (Collection.set (collection host) (uri document) diagnostics)
                        (visibleTextEditors host),
                 Returned)
            end
        end
    end.

End ExtensionJs.

(** src/unnamed/part_001: NTAX, NCHAR and the rows, counted line by
    line, without a model of the matrix. *)
Module Part001.

Definition ntaxMessage (definedNtax : N) (actualTaxaCount : nat) : string :=
  ("Mismatch: NTAX is set to " ++ showNum definedNtax
     ++ ", but MATRIX contains " ++ showNum (N.of_nat actualTaxaCount)
     ++ " taxa.")%string.

Definition ncharMessage (definedNchar : N) (maxSequenceLength : nat) : string :=
  ("Mismatch: NCHAR is set to " ++ showNum definedNchar
     ++ ", but the longest sequence found is "
     ++ showNum (N.of_nat maxSequenceLength) ++ ".")%string.

(** The variables of the loop over the lines of the block. *)
Record Scan := mkScan {
  actualTaxaCount : nat;
  maxSequenceLength : nat;
  diagnostics : list Diagnostic
}.

(** The sequence of a row, without its comments and its whitespace. *)
Definition cleanSequence (rawSequence : jsstring) : jsstring :=
  remove_whitespace (replaceAll commentRegex [] rawSequence).

(** One turn of the loop. *)
Definition scanLine (definedNchar : option N) (line : TextLine.t)
                    (scan : Scan) : option Scan :=
  let lineText := TextLine.text line in
  let trimmed := trim lineText in
  if (List.length trimmed =? 0)
     || startsWith [LBRACKET] trimmed
     || jsstring_eqb trimmed [SEMICOLON]
  then Some scan
  else
    match exec rowRegex lineText with
    | Some m =>
        let actualTaxaCount := S (actualTaxaCount scan) in
        (* match[4].replace: throws on undefined *)
        rawSequence <- group m 4 ;;
        let seqLength := List.length (cleanSequence rawSequence) in
        let maxSequenceLength :=
          if maxSequenceLength scan <? seqLength then seqLength
          else maxSequenceLength scan in
        let diagnostics :=
          match definedNchar with
          | Some definedNchar =>
              if negb (N.of_nat seqLength =? definedNchar)%N then
                push (diagnostics scan)
                  (mkDiagnostic (TextLine.range line)
                     (rowMessage seqLength definedNchar) Warning)
              else diagnostics scan
          | None => diagnostics scan
          end in
        Some (mkScan actualTaxaCount maxSequenceLength diagnostics)
    | None => Some scan
    end.

(** The first and the last line of the content of the MATRIX block. *)
Definition contentLines (document : TextDocument) (matrixMatch : Match)
  : nat * nat :=
  let content := match group matrixMatch 1 with Some b => b | None => [] end in
  let matrixContentStart :=
    (Z.of_nat (index matrixMatch)
     + NexusParser.indexOfZ (whole matrixMatch) content)%Z in
  let matrixContentEnd :=
    (matrixContentStart + Z.of_nat (List.length content))%Z in
  (* positionAt clamps a negative offset to 0 *)
  let startLine :=
    Position.line (Document.positionAt document (Z.to_nat matrixContentStart)) in
  let endLine :=
    Position.line (Document.positionAt document (Z.to_nat matrixContentEnd)) in
  (startLine, endLine).

(** The loop from line [i], with [count] turns left. *)
Fixpoint scanLines (document : TextDocument) (definedNchar : option N)
                   (i count : nat) (scan : Scan) : option Scan :=
  match count with
  | 0 => Some scan
  | S count' =>
      line <- Document.lineAt document i ;;
      scan <- scanLine definedNchar line scan ;;
      scanLines document definedNchar (S i) count' scan
  end.

Definition validateNexus (document : TextDocument) (host : Host)
  : Host * Completion :=
  if negb (String.eqb (languageId document) "nexus") then (host, Returned)
  else
    let host := mkHost (Collection.clear (collection host)) (visibleTextEditors host) in
    let text := Document.getText document in
    let ntaxMatch := exec ntaxRegex text in
    let definedNtax := defined ntaxMatch in
    let ncharMatch := exec ncharRegex text in
    let definedNchar := defined ncharMatch in
    match exec matrixRegex text with
    | None => (host, Returned)
    | Some matrixMatch =>
        let '(startLine, endLine) := contentLines document matrixMatch in
        match scanLines document definedNchar startLine (S endLine - startLine)
                (mkScan 0 0 []) with
        | None => (host, Threw)
        | Some scan =>
            let diagnostics := diagnostics scan in
            let diagnostics :=
              match ntaxMatch, definedNtax with
              | Some m, Some definedNtax =>
                  if negb (N.of_nat (actualTaxaCount scan) =? definedNtax)%N then
                    push diagnostics
                      (mkDiagnostic
                         (Range.make
                            (Document.positionAt document (index m))
                            (Document.positionAt document
                               (index m + List.length (whole m))))
                         (ntaxMessage definedNtax (actualTaxaCount scan)) Error)
                  else diagnostics
              | _, _ => diagnostics
              end in
            let diagnostics :=
              match ncharMatch, definedNchar with
              | Some m, Some definedNchar =>
                  if negb (N.of_nat (maxSequenceLength scan) =? definedNchar)%N
                     && (0 <? maxSequenceLength scan) then
                    push diagnostics
                      (mkDiagnostic
                         (Range.make
                            (Document.positionAt document (index m))
                            (Document.positionAt document
                               (index m + List.length (whole m))))
                         (ncharMessage definedNchar (maxSequenceLength scan)) Error)
                  else diagnostics
              | _, _ => diagnostics
              end in
            (mkHost (Collection.set (collection host) (uri document) diagnostics)
                    (visibleTextEditors host),
             Returned)
        end
    end.

End Part001.

(* ================================================================== *)
(** ** The vocabulary of the statements *)
(* ================================================================== *)

Local Open Scope string_scope.
Local Open Scope list_scope.

(** *** Well-formed sequence text *)

(** A character that is neither a quote nor a bracket. *)
Definition is_plain (c : char) : bool :=
  negb (c =? QUOTE)%N && negb (c =? LBRACKET)%N && negb (c =? RBRACKET)%N.

(** The text between the brackets of a comment: characters other than
    quotes and brackets, and nested comments. *)
Inductive Balanced : jsstring -> Prop :=
| Balanced_nil : Balanced []
| Balanced_char c w :
    is_plain c = true -> Balanced w -> Balanced (c :: w)
| Balanced_nest w1 w2 :
    Balanced w1 -> Balanced w2 ->
    Balanced (LBRACKET :: w1 ++ RBRACKET :: w2).

(** A comment span, from its opening to its closing bracket. *)
Inductive CommentSpan : jsstring -> Prop :=
| CommentSpan_intro body :
    Balanced body -> CommentSpan (LBRACKET :: body ++ [RBRACKET]).

(** Inside a quoted label: a character, or the escaped quote. *)
Inductive qitem := QChar (c : char) | QEscaped.

Inductive token :=
| Plain (c : char)               (* a data character *)
| Comment (body : jsstring)      (* [ body ] *)
| Quoted (items : list qitem).   (* ' items ' *)

Definition render_item (i : qitem) : jsstring :=
  match i with QChar c => [c] | QEscaped => [QUOTE; QUOTE] end.

Definition decode_item (i : qitem) : char :=
  match i with QChar c => c | QEscaped => QUOTE end.

(** The text of a token, as written in the file. *)
Definition render (t : token) : jsstring :=
  match t with
  | Plain c => [c]
  | Comment body => LBRACKET :: body ++ [RBRACKET]
  | Quoted items => QUOTE :: flat_map render_item items ++ [QUOTE]
  end.

(** What the stripping pass keeps of a token, before whitespace goes:
    nothing of a comment; of a label its two quotes and its content,
    with one quote for each escaped quote. *)
Definition kept (t : token) : jsstring :=
  match t with
  | Plain c => [c]
  | Comment _ => []
  | Quoted items => QUOTE :: map decode_item items ++ [QUOTE]
  end.

Definition valid_item (i : qitem) : Prop :=
  match i with QChar c => c <> QUOTE | QEscaped => True end.

Definition valid_token (t : token) : Prop :=
  match t with
  | Plain c => is_plain c = true
  | Comment body => Balanced body
  | Quoted items => Forall valid_item items
  end.

(** Valid tokens, no label directly followed by another label (the two
    quotes in between would read as an escaped quote). *)
Fixpoint well_formed (ts : list token) : Prop :=
  match ts with
  | [] => True
  | t :: ts' =>
      valid_token t
      /\ match t, ts' with
         | Quoted _, Quoted _ :: _ => False
         | _, _ => True
         end
      /\ well_formed ts'
  end.

(** *** The kinds of diagnostics *)

Definition unclosedQuoteMessage : string :=
  "Unclosed single quote. This may hide other errors.".

Inductive UnexpectedClosing : Diagnostic -> Prop :=
| UnexpectedClosing_intro r :
    UnexpectedClosing (mkDiagnostic r "Unexpected closing bracket ']'" Error).

Inductive UnclosedQuote : Diagnostic -> Prop :=
| UnclosedQuote_intro r :
    UnclosedQuote (mkDiagnostic r unclosedQuoteMessage Error).

Inductive UnclosedComment : Diagnostic -> Prop :=
| UnclosedComment_intro r :
    UnclosedComment (mkDiagnostic r "Unclosed comment block '['" Error).

(** What the bracket and quote scan reports. *)
Definition Structural (d : Diagnostic) : Prop :=
  UnexpectedClosing d \/ UnclosedQuote d \/ UnclosedComment d.

Inductive NtaxMismatch : Diagnostic -> Prop :=
| NtaxMismatch_intro r declared actual :
    NtaxMismatch (mkDiagnostic r (ntaxMessage declared actual) Error).

Inductive NcharMismatch : Diagnostic -> Prop :=
| NcharMismatch_intro r declared longest :
    NcharMismatch (mkDiagnostic r (ncharMessage declared longest) Error).

Inductive RowWarning : Diagnostic -> Prop :=
| RowWarning_intro r length declared :
    RowWarning (mkDiagnostic r (rowMessage length declared) Warning).

(** Whether [sub] occurs in [s]. *)
Fixpoint mentions (sub s : string) : bool :=
  String.prefix sub s
  || match s with
     | EmptyString => false
     | String _ s' => mentions sub s'
     end.

(** *** The steps of a pass *)

(** What the scan from a state comes to: it ends, and only adds
    unexpected-closing diagnostics, which do not depend on those
    already there. *)
Definition scan_ends (document : TextDocument) (text : jsstring) (i : nat)
                     (stack : list nat) (inQuote : bool) : Prop :=
  exists stack' inQuote' found,
    Forall UnexpectedClosing found
    /\ forall diagnostics,
         scanComments document text i stack inQuote diagnostics
         = Some (stack', inQuote', diagnostics ++ found).

(** The warning step 5 gives for a taxon, if any. *)
Definition rowWarning (definedNchar : N) (taxon : Taxon.t) : list Diagnostic :=
  if negb (N.of_nat (Taxon.length taxon) =? definedNchar)%N
  then [mkDiagnostic (Taxon.lineRange taxon)
          (rowMessage (Taxon.length taxon) definedNchar) Warning]
  else [].

(** The three cross-checks on top of the structural diagnostics. *)
Definition crossChecked (document : TextDocument) (nexusData : Nexus.t)
                        (diagnostics : list Diagnostic) : list Diagnostic :=
  let text := Document.getText document in
  let ntaxMatch := exec ntaxRegex text in
  let ncharMatch := exec ncharRegex text in
  checkRows (defined ncharMatch) nexusData
    (checkNchar document ncharMatch nexusData
       (checkNtax document ntaxMatch nexusData diagnostics)).

(** The mismatch a header declaration gives against a count of 0. *)
Definition ntaxAgainstNone (document : TextDocument) : list Diagnostic :=
  match exec ntaxRegex (Document.getText document) with
  | Some m =>
      match defined (Some m) with
      | Some 0%N | None => []
      | Some definedNtax =>
          [mkDiagnostic (getRangeFromMatch document m)
             (ntaxMessage definedNtax 0) Error]
      end
  | None => []
  end.

Definition ncharAgainstNone (document : TextDocument) : list Diagnostic :=
  match exec ncharRegex (Document.getText document) with
  | Some m =>
      match defined (Some m) with
      | Some 0%N | None => []
      | Some definedNchar =>
          [mkDiagnostic (getRangeFromMatch document m)
             (ncharMessage definedNchar 0) Error]
      end
  | None => []
  end.

(** *** The rows of the MATRIX block *)

(** The data rows among [count] lines from line [i], with their line
    numbers, in the order of the document. *)
Fixpoint blockRows (document : TextDocument) (i count : nat)
  : list (nat * Taxon.t) :=
  match count with
  | 0 => []
  | S count' =>
      match Document.lineAt document i with
      | Some line =>
          match NexusParser.rowOf line with
          | Some taxon => (i, taxon) :: blockRows document (S i) count'
          | None => blockRows document (S i) count'
          end
      | None => []
      end
  end.

(** The data rows of the MATRIX block of the document. *)
Definition matrixRows (document : TextDocument) : list (nat * Taxon.t) :=
  match exec matrixRegex (Document.getText document) with
  | None => []
  | Some matrixMatch =>
      let '(startLine, endLine) := NexusParser.blockLines document matrixMatch in
      blockRows document startLine (S endLine - startLine)
  end.

(** Every taxon of the model is stored under its name and carries the
    line range of the first of the rows with that name; every row's name
    is in the model. *)
Definition anchored (rows : list Taxon.t) (nexus : Nexus.t) : Prop :=
  (forall k t,
      In (k, t) (Nexus.taxa nexus) ->
      Taxon.name t = k
      /\ exists before first after,
           rows = before ++ first :: after
           /\ Taxon.name first = k
           /\ (forall r, In r before -> Taxon.name r <> k)
           /\ Taxon.lineRange t = Taxon.lineRange first)
  /\ (forall r, In r rows ->
                JSMap.get (Nexus.taxa nexus) (Taxon.name r) <> None).

Definition named (k : jsstring) (t : Taxon.t) : bool :=
  jsstring_eqb (Taxon.name t) k.

(** The taxon the model is to hold for a name, from the rows with that
    name in row order: the bases of the rows one after the other, and
    the line range of the first. *)
Definition assembled (k : jsstring) (rows : list Taxon.t) : option Taxon.t :=
  match rows with
  | [] => None
  | first :: _ =>
      Some (Taxon.make k
              (Sequence.mk
                 (List.concat (map (fun t => Sequence.bases (Taxon.sequence t)) rows)))
              (Taxon.lineRange first))
  end.

(** *** The states of the matcher *)

(** A state of a match over a text of [n] characters. *)
Definition consistent (n : nat) (s : MState) : Prop :=
  pos s + List.length (rest s) = n.

Definition forward (n : nat) (step : MState -> list MState) : Prop :=
  forall s s', consistent n s -> In s' (step s) ->
               consistent n s' /\ pos s <= pos s'.

(** The numbers of the groups of a regular expression. *)
Fixpoint groups_of (r : regex) : list nat :=
  match r with
  | Seq a b | Alt a b => groups_of a ++ groups_of b
  | Star _ r0 => groups_of r0
  | Group n r0 => n :: groups_of r0
  | _ => []
  end.

(** What a step adds to the captures: entries for the groups [gs]. *)
Definition records (gs : list nat) (step : MState -> list MState) : Prop :=
  forall s s', In s' (step s) ->
               exists extra,
                 caps s' = extra ++ caps s
                 /\ Forall (fun e => In (fst e) gs) extra.

(** The group, among 2 and 3, that a row match binds: group 3, or
    group 2 over at least one character of the text. *)
Definition names (n : nat) (s : MState) : Prop :=
  cap_lookup 3 (caps s) <> None
  \/ exists a b, cap_lookup 2 (caps s) = Some (a, b) /\ a < b <= n.

(** *** Test documents *)

(** A NEXUS document with LF line ends, from its lines. *)
Definition nexusDocument (ls : list string) : TextDocument :=
  match ls with
  | [] => mkDocument "file:///test.nex" "nexus" LF [] []
  | l :: ls' => mkDocument "file:///test.nex" "nexus" LF (lit l) (map lit ls')
  end.

(** An interleaved matrix: A has the rows of lines 4 and 7, and a
    sequence of length 5 against NCHAR=4. *)
Definition interleavedDocument : TextDocument :=
  nexusDocument ["#NEXUS"; "BEGIN DATA;"; "DIMENSIONS NTAX=2 NCHAR=4;";
                 "MATRIX"; "A AC"; "B AC"; ""; "A GTT"; "B GT"; ";"; "END;"].

Definition twoGroupsDocument : TextDocument :=
  nexusDocument ["#NEXUS"; "BEGIN DATA;"; "MATRIX"; "A ACGT"; "B GG[ x ]GG";
                 ""; "A TT TT"; "B CCCC"; ";"; "END;"].

(** A header with both counts, and no MATRIX block. *)
Definition headerOnlyDocument : TextDocument :=
  nexusDocument ["#NEXUS"; "BEGIN DATA;"; "DIMENSIONS NTAX=3 NCHAR=4;"; "END;"].

Definition headerOnlyDiagnostics : list Diagnostic :=
  [mkDiagnostic (Range.make (Position.make 2 11) (Position.make 2 17))
     "Mismatch: NTAX=3 but MATRIX has 0 taxa." Error;
   mkDiagnostic (Range.make (Position.make 2 18) (Position.make 2 25))
     "Mismatch: NCHAR=4 but the longest sequence is 0." Error].

(** A header whose counts spell more than a double holds, and no MATRIX
    block. *)
Definition largeCountsDocument : TextDocument :=
  nexusDocument
    ["#NEXUS"; "BEGIN DATA;";
     "DIMENSIONS NTAX=9007199254740993 NCHAR=100000000000000000000000;";
     "END;"].

Definition threeDeclaredDocument : TextDocument :=
  nexusDocument ["#NEXUS"; "BEGIN DATA;"; "DIMENSIONS NTAX=3;"; "MATRIX";
                 "A ACGT"; "B ACGT"; ";"; "END;"].

(** A document with a diagnostic of every kind but the unclosed quote. *)
Definition manyFaultsDocument : TextDocument :=
  nexusDocument ["#NEXUS ]"; "BEGIN DATA;"; "DIMENSIONS NTAX=3 NCHAR=4;";
                 "MATRIX"; "A ACGTA"; "B AC"; ";"; "END; ["].

(** The text AC[ c[x] ]'it''s'G T, token by token. *)
Definition labelledTokens : list token :=
  [Plain 65%N; Plain 67%N;
   Comment (lit " c[x] ");
   Quoted [QChar 105%N; QChar 116%N; QEscaped; QChar 115%N];
   Plain 71%N; Plain 32%N; Plain 84%N].

(** *** The vocabulary of the further properties *)

(** The diagnostic of the scan for a closing bracket at [offset] with no
    bracket open. *)
Definition unexpectedAt (document : TextDocument) (offset : nat) : Diagnostic :=
  let pos := Document.positionAt document offset in
  mkDiagnostic
    (Range.make pos (Position.make (Position.line pos)
                                   (S (Position.character pos))))
    "Unexpected closing bracket ']'" Error.

(** The diagnostic for the bracket at [offset], left open. *)
Definition unclosedAt (document : TextDocument) (offset : nat) : Diagnostic :=
  let pos := Document.positionAt document offset in
  mkDiagnostic
    (Range.make pos (Position.make (Position.line pos)
                                   (S (Position.character pos))))
    "Unclosed comment block '['" Error.

(** A text with its faults: stretches of well-formed text, each ended
    by a closing bracket that closes nothing; a stretch of well-formed
    text; stretches of well-formed text, each begun by an opening
    bracket that nothing closes. *)
Definition strayText (strays : list (list token)) : jsstring :=
  flat_map (fun w => flat_map render w ++ [RBRACKET]) strays.

Definition openText (opens : list (list token)) : jsstring :=
  flat_map (fun w => LBRACKET :: flat_map render w) opens.

Definition faultyText (strays : list (list token)) (middle : list token)
                      (opens : list (list token)) : jsstring :=
  strayText strays ++ flat_map render middle ++ openText opens.

(** The offsets of those closing brackets, the first stretch being at
    [from]. *)
Fixpoint strayOffsets (from : nat) (strays : list (list token)) : list nat :=
  match strays with
  | [] => []
  | w :: strays' =>
      let offset := from + List.length (flat_map render w) in
      offset :: strayOffsets (S offset) strays'
  end.

(** The offsets of those opening brackets, the first being at [from]. *)
Fixpoint openOffsets (from : nat) (opens : list (list token)) : list nat :=
  match opens with
  | [] => []
  | w :: opens' =>
      from :: openOffsets (S from + List.length (flat_map render w)) opens'
  end.

(** [s] is [l] with some of its elements left out. *)
Inductive Subsequence {A : Type} : list A -> list A -> Prop :=
| Subsequence_nil : Subsequence [] []
| Subsequence_keep x s l : Subsequence s l -> Subsequence (x :: s) (x :: l)
| Subsequence_drop x s l : Subsequence s l -> Subsequence s (x :: l).

(** The names of a list in first-seen order: each name once, at the
    place of its first occurrence; [seen] are the names met before. *)
Fixpoint firstSeen (seen names : list jsstring) : list jsstring :=
  match names with
  | [] => []
  | k :: names' =>
      if existsb (jsstring_eqb k) seen then firstSeen seen names'
      else k :: firstSeen (k :: seen) names'
  end.

(** The names of the rows of the MATRIX block, in row order. *)
Definition rowNames (document : TextDocument) : list jsstring :=
  map (fun row => Taxon.name (snd row)) (matrixRows document).

(** The number of characters of a list of taxa. *)
Definition totalLength (taxa : list Taxon.t) : nat :=
  list_sum (map Taxon.length taxa).

(** A step of the matcher consumes a prefix of the text ahead. *)
Definition consumes (step : MState -> list MState) : Prop :=
  forall s s', In s' (step s) ->
               exists consumed,
                 rest s = consumed ++ rest s'
                 /\ pos s' = pos s + List.length consumed.


(** The name a row match binds, over at least one character of the
    text: group 2, or group 3 with group 2 unbound. *)
Definition nameBound (n : nat) (s : MState) : Prop :=
  (exists a b, cap_lookup 2 (caps s) = Some (a, b) /\ a < b <= n)
  \/ (cap_lookup 2 (caps s) = None
      /\ exists a b, cap_lookup 3 (caps s) = Some (a, b) /\ a < b <= n).

(** An entry of the model is stored under its taxon's name, of at least
    one character, with a sequence free of whitespace. *)
Definition entryClean (entry : jsstring * Taxon.t) : Prop :=
  fst entry <> []
  /\ Taxon.name (snd entry) = fst entry
  /\ Forall (fun c => is_whitespace c = false)
            (Sequence.bases (Taxon.sequence (snd entry))).

(** *** The events of a session *)

(** The document an event hands to the validation pass, if any. *)
Definition documentOf (event : Event) : option TextDocument :=
  match event with
  | DidChangeActiveTextEditor editor => editor
  | DidChangeTextDocument document => Some document
  end.

(** The last NEXUS document among the documents of the events, [seen]
    when there is none. *)
Fixpoint lastNexus (events : list Event) (seen : option TextDocument)
  : option TextDocument :=
  match events with
  | [] => seen
  | event :: events =>
      lastNexus events
        match documentOf event with
        | Some document =>
            if String.eqb (languageId document) "nexus" then Some document
            else seen
        | None => seen
        end
  end.

(** What one pass over the document publishes, from an empty host. *)
Definition published (document : TextDocument) : Collection.t :=
  collection (fst (validateNexus document (mkHost [] []))).

(** *** Documents and lines the further properties are run on *)

(** What the comment pass reports for [manyFaultsDocument]. *)
Definition manyFaultsStructural : list Diagnostic :=
  [mkDiagnostic (Range.make (Position.make 0 7) (Position.make 0 8))
     "Unexpected closing bracket ']'" Error;
   mkDiagnostic (Range.make (Position.make 7 5) (Position.make 7 6))
     "Unclosed comment block '['" Error].

(** Two closing brackets that close nothing, a comment, and two opening
    brackets that nothing closes. *)
Definition faultyDocument : TextDocument :=
  nexusDocument ["AC]G[x]T]"; "A[C"; "G[T"].

(** The text of [labelledTokens] as a document. *)
Definition labelledDocument : TextDocument :=
  nexusDocument ["AC[ c[x] ]'it''s'G T"].

Definition strayDocument : TextDocument := nexusDocument ["AC]GT"].

Definition unclosedDocument : TextDocument := nexusDocument ["AC[GT"].

(** A document the pass has nothing to say about. *)
Definition cleanDocument : TextDocument :=
  nexusDocument ["#NEXUS"; "BEGIN DATA;"; "DIMENSIONS NTAX=2 NCHAR=4;";
                 "MATRIX"; "A ACGT"; "'B b' AC [two] GT"; ";"; "END;"].

Definition cleanModel : Nexus.t :=
  Nexus.mk
    [(lit "A", Taxon.make (lit "A") (Sequence.mk (lit "ACGT"))
                 (Range.make (Position.make 4 0) (Position.make 4 6)));
     (lit "B b", Taxon.make (lit "B b") (Sequence.mk (lit "ACGT"))
                   (Range.make (Position.make 5 0) (Position.make 5 17)))].

(** What the pass publishes for [interleavedDocument]. *)
Definition interleavedDiagnostics : list Diagnostic :=
  [mkDiagnostic (Range.make (Position.make 2 18) (Position.make 2 25))
     "Mismatch: NCHAR=4 but the longest sequence is 5." Error;
   mkDiagnostic (Range.make (Position.make 4 0) (Position.make 4 4))
     "Sequence length (5) does not match NCHAR (4)." Warning].

Definition interleavedModel : Nexus.t :=
  Nexus.mk
    [(lit "A", Taxon.make (lit "A") (Sequence.mk (lit "ACGTT"))
                 (Range.make (Position.make 4 0) (Position.make 4 4)));
     (lit "B", Taxon.make (lit "B") (Sequence.mk (lit "ACGT"))
                 (Range.make (Position.make 5 0) (Position.make 5 4)))].

(** A document of another language. *)
Definition plainDocument : TextDocument :=
  mkDocument "file:///notes.txt" "plaintext" LF (lit "NTAX=3 ]") [].

(** A quote left open, and an empty last line. *)
Definition openQuoteDocument : TextDocument := nexusDocument ["'abc"; ""].

(** A row with a quoted name. *)
Definition quotedRow : TextLine.t :=
  TextLine.make (lit "'B b' AC [two] GT")
    (Range.make (Position.make 5 0) (Position.make 5 17)).

Definition quotedTaxon : Taxon.t :=
  Taxon.make (lit "B b") (Sequence.mk (lit "ACGT"))
    (Range.make (Position.make 5 0) (Position.make 5 17)).

(** A line with no whitespace. *)
Definition bareLine : TextLine.t :=
  TextLine.make (lit "ACGT")
    (Range.make (Position.make 0 0) (Position.make 0 4)).

(** What a step adds to the captures lies within what it consumes. *)
Definition spans (step : MState -> list MState) : Prop :=
  forall s s', In s' (step s) ->
               pos s <= pos s'
               /\ exists extra,
                    caps s' = extra ++ caps s
                    /\ Forall (fun e => pos s <= fst (snd e)
                                        /\ fst (snd e) <= snd (snd e)
                                        /\ snd (snd e) <= pos s') extra.

(** *** The text the earlier comment pattern takes apart *)

(** A character that is kept, or a stretch from an opening bracket to
    the first closing bracket after it, which is removed. *)
Inductive piece :=
| Kept (c : char)
| Removed (body : jsstring).

Definition renderPiece (p : piece) : jsstring :=
  match p with
  | Kept c => [c]
  | Removed body => LBRACKET :: body ++ [RBRACKET]
  end.

Definition keptPiece (p : piece) : jsstring :=
  match p with
  | Kept c => [c]
  | Removed _ => []
  end.

(** A kept character is not an opening bracket; what is removed holds no
    closing bracket and no line terminator. *)
Definition valid_piece (p : piece) : Prop :=
  match p with
  | Kept c => c <> LBRACKET
  | Removed body =>
      Forall (fun c => c <> RBRACKET /\ is_line_terminator c = false) body
  end.

(** A data character that is not a line terminator. *)
Definition plainOnLine (c : char) : Prop :=
  is_plain c = true /\ is_line_terminator c = false.

(** Data characters and comments without nesting, on one line. *)
Definition flat_token (t : token) : Prop :=
  match t with
  | Plain c => is_plain c = true
  | Comment body => Forall plainOnLine body
  | Quoted _ => False
  end.

Definition pieceOf (t : token) : piece :=
  match t with
  | Plain c => Kept c
  | Comment body => Removed body
  | Quoted _ => Removed []
  end.

(** A comment inside a comment. *)
Definition nested (w1 w2 w3 : jsstring) : jsstring :=
  LBRACKET :: w1 ++ LBRACKET :: w2 ++ RBRACKET :: w3 ++ [RBRACKET].

(** Whether something other than whitespace is left of a line. *)
Definition hasData (s : jsstring) : bool :=
  existsb (fun c => negb (is_whitespace c)) s.

(** The variables of the loop of the earlier validator over the lines
    of the MATRIX block, at its end; [None] when there is no block or
    the loop throws. *)
Definition previousScan (document : TextDocument) : option Part001.Scan :=
  let text := Document.getText document in
  match exec matrixRegex text with
  | Some matrixMatch =>
      let '(startLine, endLine) := Part001.contentLines document matrixMatch in
      Part001.scanLines document (defined (exec ncharRegex text))
        startLine (S endLine - startLine) (Part001.mkScan 0 0 [])
  | None => None
  end.

(** The ranges a pass over the event's document sets on the editors of
    [u]: those of its comment pass, when the document is a NEXUS
    document of that identity and the comment pass completes. *)
Definition decorationOf (u : string) (event : Event) : option (list Range.t) :=
  match documentOf event with
  | Some document =>
      if String.eqb (languageId document) "nexus" && String.eqb u (uri document)
      then match commentDiagnostics document [] with
           | Some (_, ranges) => Some ranges
           | None => None
           end
      else None
  | None => None
  end.

(** The last such ranges in a run of events, [seen] when there is none. *)
Fixpoint lastDecoration (u : string) (events : list Event)
                        (seen : option (list Range.t))
  : option (list Range.t) :=
  match events with
  | [] => seen
  | event :: events =>
      lastDecoration u events
        match decorationOf u event with
        | Some ranges => Some ranges
        | None => seen
        end
  end.

(** An editor with the decoration it has been given, if any. *)
Definition decorated (given : option (list Range.t)) (editor : TextEditor)
  : TextEditor :=
  match given with
  | Some ranges => mkEditor (editorDocument editor) ranges
  | None => editor
  end.

Local Close Scope string_scope.

(* ================================================================== *)
(** ** The stripping pass of Sequence *)
(* ================================================================== *)

Section CleanLoop.
Import Sequence.

(** Lists by two steps, as the loop advances by one or two characters. *)
Lemma list_ind2 (A : Type) (P : list A -> Prop) :
  P [] -> (forall a, P [a]) ->
  (forall a b l, P l -> P (b :: l) -> P (a :: b :: l)) ->
  forall l, P l.
Proof.
  intros Hnil Hone Hstep l.
  assert (H : P l /\ forall a, P (a :: l)).
  { induction l as [|b l [IHl IHcons]].
    - split; [exact Hnil | exact Hone].
    - split; [apply IHcons | intro a; apply Hstep; [exact IHl | apply IHcons]]. }
  exact (proj1 H).
Qed.

(** One turn of the loop. *)
Lemma cleanLoop_cons c str' stack inQuote clean :
  cleanLoop (c :: str') stack inQuote clean
  = if (c =? QUOTE)%N then
      match str' with
      | c1 :: str'' =>
          if inQuote && (c1 =? QUOTE)%N
          then cleanLoop str'' stack inQuote
                 (if stack =? 0 then push clean QUOTE else clean)
          else cleanLoop str' stack (negb inQuote)
                 (if stack =? 0 then push clean QUOTE else clean)
      | [] => cleanLoop str' stack (negb inQuote)
                (if stack =? 0 then push clean QUOTE else clean)
      end
    else if negb inQuote && (c =? LBRACKET)%N then
      cleanLoop str' (S stack) inQuote clean
    else if negb inQuote && (c =? RBRACKET)%N then
      cleanLoop str' (if 0 <? stack then stack - 1 else stack) inQuote clean
    else
      cleanLoop str' stack inQuote (if stack =? 0 then push clean c else clean).
Proof. reflexivity. Qed.

Lemma cleanLoop_escaped rest stack clean :
  cleanLoop (QUOTE :: QUOTE :: rest) stack true clean
  = cleanLoop rest stack true (if stack =? 0 then push clean QUOTE else clean).
Proof. reflexivity. Qed.

Lemma cleanLoop_quote_toggle c rest stack inQuote clean :
  inQuote && (c =? QUOTE)%N = false ->
  cleanLoop (QUOTE :: c :: rest) stack inQuote clean
  = cleanLoop (c :: rest) stack (negb inQuote)
      (if stack =? 0 then push clean QUOTE else clean).
Proof.
  intro H. cbn [cleanLoop]. rewrite H. reflexivity.
Qed.

Lemma cleanLoop_quote_last stack inQuote clean :
  cleanLoop [QUOTE] stack inQuote clean
  = if stack =? 0 then push clean QUOTE else clean.
Proof. reflexivity. Qed.

Lemma cleanLoop_open rest stack clean :
  cleanLoop (LBRACKET :: rest) stack false clean
  = cleanLoop rest (S stack) false clean.
Proof. reflexivity. Qed.

Lemma cleanLoop_close rest stack clean :
  cleanLoop (RBRACKET :: rest) stack false clean
  = cleanLoop rest (stack - 1) false clean.
Proof.
  cbn [cleanLoop]. cbn. destruct stack; reflexivity.
Qed.

Lemma cleanLoop_plain c rest stack inQuote clean :
  is_plain c = true ->
  cleanLoop (c :: rest) stack inQuote clean
  = cleanLoop rest stack inQuote (if stack =? 0 then push clean c else clean).
Proof.
  unfold is_plain. intro H.
  apply andb_prop in H as [H H3]. apply andb_prop in H as [H1 H2].
  apply negb_true_iff in H1, H2, H3.
  cbn [cleanLoop]. rewrite H1, H2, H3, !andb_false_r. reflexivity.
Qed.

(** Inside a quote every character but the quote is data. *)
Lemma cleanLoop_quoted c rest stack clean :
  (c =? QUOTE)%N = false ->
  cleanLoop (c :: rest) stack true clean
  = cleanLoop rest stack true (if stack =? 0 then push clean c else clean).
Proof.
  intro H. cbn [cleanLoop]. rewrite H. reflexivity.
Qed.

(** The text kept so far is only ever extended. *)
Lemma cleanLoop_acc str : forall stack inQuote clean,
  cleanLoop str stack inQuote clean = clean ++ cleanLoop str stack inQuote [].
Proof.
  induction str as [| a | a b l IHl IHbl] using list_ind2; intros stack inQuote clean.
  - cbn. now rewrite app_nil_r.
  - cbn [cleanLoop].
    repeat match goal with
           | |- context [if ?b then _ else _] => destruct b
           end; unfold push; cbn.
    all: now rewrite ?app_nil_r.
  - rewrite (cleanLoop_cons a (b :: l) stack inQuote clean),
            (cleanLoop_cons a (b :: l) stack inQuote []).
    destruct (a =? QUOTE)%N.
    + destruct (inQuote && (b =? QUOTE)%N); destruct (stack =? 0).
      * rewrite (IHl _ _ (push clean QUOTE)), (IHl _ _ (push [] QUOTE)).
        unfold push. now rewrite app_assoc.
      * apply IHl.
      * rewrite (IHbl _ _ (push clean QUOTE)), (IHbl _ _ (push [] QUOTE)).
        unfold push. now rewrite app_assoc.
      * apply IHbl.
    + destruct (negb inQuote && (a =? LBRACKET)%N); [apply IHbl|].
      destruct (negb inQuote && (a =? RBRACKET)%N); [apply IHbl|].
      destruct (stack =? 0); [|apply IHbl].
      rewrite (IHbl _ _ (push clean a)), (IHbl _ _ (push [] a)).
      unfold push. now rewrite app_assoc.
Qed.

Lemma cleanLoop_quote_open rest stack clean :
  cleanLoop (QUOTE :: rest) stack false clean
  = cleanLoop rest stack true (if stack =? 0 then push clean QUOTE else clean).
Proof. destruct rest; reflexivity. Qed.

Lemma cleanLoop_quote_close rest stack clean :
  hd_error rest <> Some QUOTE ->
  cleanLoop (QUOTE :: rest) stack true clean
  = cleanLoop rest stack false (if stack =? 0 then push clean QUOTE else clean).
Proof.
  intro H. destruct rest as [|c rest]; [reflexivity|].
  apply cleanLoop_quote_toggle. cbn.
  destruct (N.eqb_spec c QUOTE) as [->|]; [now elim H | reflexivity].
Qed.

(** *** Comment spans *)

Lemma balanced_dropped w :
  Balanced w ->
  forall rest depth clean,
    cleanLoop (w ++ rest) (S depth) false clean
    = cleanLoop rest (S depth) false clean.
Proof.
  induction 1 as [| c w Hc _ IH | w1 w2 _ IH1 _ IH2]; intros rest depth clean.
  - reflexivity.
  - cbn [app]. rewrite cleanLoop_plain by exact Hc. apply IH.
  - cbn [app]. rewrite <- app_assoc. cbn [app].
    rewrite cleanLoop_open, IH1, cleanLoop_close.
    replace (S (S depth) - 1) with (S depth) by lia. apply IH2.
Qed.

(** From any state outside a quote, a comment span leaves no trace. *)
Lemma comment_span_removed w :
  CommentSpan w ->
  forall rest stack clean,
    cleanLoop (w ++ rest) stack false clean = cleanLoop rest stack false clean.
Proof.
  intros [body Hbody] rest stack clean.
  cbn [app]. rewrite <- app_assoc. cbn [app].
  rewrite cleanLoop_open, balanced_dropped by exact Hbody.
  rewrite cleanLoop_close. now replace (S stack - 1) with stack by lia.
Qed.

(** *** Well-formed sequence text, and what is to be kept of it *)

Lemma quoted_items_kept items :
  Forall valid_item items ->
  forall rest clean,
    cleanLoop (flat_map render_item items ++ rest) 0 true clean
    = cleanLoop rest 0 true (clean ++ map decode_item items).
Proof.
  induction 1 as [| i items Hi _ IH]; intros rest clean.
  - cbn. now rewrite app_nil_r.
  - cbn [flat_map map]. rewrite <- app_assoc.
    destruct i as [c|]; cbn [render_item decode_item app].
    + rewrite cleanLoop_quoted
        by (cbn in Hi; now apply N.eqb_neq).
      cbn. rewrite IH. unfold push. now rewrite <- app_assoc.
    + rewrite cleanLoop_escaped. cbn. rewrite IH.
      unfold push. now rewrite <- app_assoc.
Qed.

Lemma render_then_not_quote ts rest :
  well_formed ts ->
  match ts with Quoted _ :: _ => False | _ => True end ->
  hd_error rest <> Some QUOTE ->
  hd_error (flat_map render ts ++ rest) <> Some QUOTE.
Proof.
  destruct ts as [|[c|body|items] ts]; cbn; intros Hwf Hq Hrest;
    try discriminate; try assumption.
  - destruct Hwf as [Hc _]. intro E. injection E as ->. discriminate Hc.
  - contradiction.
Qed.

(** The pass over well-formed text followed by more text that does not
    start with a quote: the kept text of the tokens, and the scan goes
    on at depth 0 outside quotes. *)
Lemma well_formed_kept_then ts rest :
  well_formed ts ->
  hd_error rest <> Some QUOTE ->
  forall clean,
    cleanLoop (flat_map render ts ++ rest) 0 false clean
    = cleanLoop rest 0 false (clean ++ flat_map kept ts).
Proof.
  intros Hwf Hrest. induction ts as [|t ts IH]; intro clean.
  - cbn. now rewrite app_nil_r.
  - destruct Hwf as (Ht & Hnext & Hwf). specialize (IH Hwf).
    cbn [flat_map]. rewrite <- app_assoc.
    destruct t as [c|body|items]; cbn [render kept].
    + cbn [app]. rewrite cleanLoop_plain by exact Ht. cbn.
      rewrite IH. unfold push. now rewrite <- app_assoc.
    + rewrite comment_span_removed by (constructor; exact Ht).
      now apply IH.
    + cbn [app]. rewrite <- app_assoc. rewrite cleanLoop_quote_open. cbn.
      rewrite quoted_items_kept by exact Ht. cbn [app].
      rewrite cleanLoop_quote_close.
      * cbn. rewrite IH. unfold push. rewrite <- !app_assoc. reflexivity.
      * apply render_then_not_quote; [exact Hwf | | exact Hrest].
        destruct ts as [|[| |] ?]; try exact I. exact Hnext.
Qed.

Lemma well_formed_kept ts :
  well_formed ts ->
  forall clean,
    cleanLoop (flat_map render ts) 0 false clean
    = clean ++ flat_map kept ts.
Proof.
  intros Hwf clean.
  rewrite <- (app_nil_r (flat_map render ts)).
  now rewrite well_formed_kept_then by (exact Hwf || discriminate).
Qed.

(** *** The shape of the output *)

Lemma remove_whitespace_clean s :
  Forall (fun c => is_whitespace c = false) (remove_whitespace s).
Proof.
  apply Forall_forall. intros c Hc.
  apply filter_In in Hc as [_ Hc]. now apply negb_true_iff.
Qed.

Lemma cleanLoop_no_bracket str :
  ~ In QUOTE str ->
  forall stack clean,
    (~ In LBRACKET clean /\ ~ In RBRACKET clean) ->
    ~ In LBRACKET (cleanLoop str stack false clean)
    /\ ~ In RBRACKET (cleanLoop str stack false clean).
Proof.
  induction str as [|c str IH]; intros Hq stack clean Hclean.
  - exact Hclean.
  - assert (Hc : (c =? QUOTE)%N = false).
    { apply N.eqb_neq. intros ->. apply Hq. now left. }
    assert (Hq' : ~ In QUOTE str) by (intro; apply Hq; now right).
    rewrite cleanLoop_cons, Hc. cbn [negb andb].
    destruct (N.eqb_spec c LBRACKET) as [->|HL]; [now apply IH|].
    destruct (N.eqb_spec c RBRACKET) as [->|HR]; [now apply IH|].
    apply IH; [exact Hq'|].
    destruct (stack =? 0); [|exact Hclean].
    unfold push. destruct Hclean as [H1 H2].
    split; intro Hin; apply in_app_or in Hin as [Hin|[Hin|[]]]; auto.
Qed.

(** Below an opening bracket nothing is kept until a closing bracket. *)
Lemma cleanLoop_unclosed rest :
  ~ In RBRACKET rest ->
  forall depth inQuote clean,
    cleanLoop rest (S depth) inQuote clean = clean.
Proof.
  induction rest as [| a | a b l IHl IHbl] using list_ind2;
    intros Hr depth inQuote clean.
  - reflexivity.
  - rewrite cleanLoop_cons. cbn [Nat.eqb Nat.ltb Nat.leb].
    destruct (N.eqb_spec a RBRACKET) as [->|_]; [elim Hr; now left|].
    rewrite andb_false_r.
    destruct (a =? QUOTE)%N; [reflexivity|].
    destruct (negb inQuote && (a =? LBRACKET)%N); reflexivity.
  - assert (Hl : ~ In RBRACKET l) by (intro; apply Hr; now do 2 right).
    assert (Hbl : ~ In RBRACKET (b :: l)) by (intro; apply Hr; now right).
    rewrite cleanLoop_cons. cbn [Nat.eqb].
    destruct (N.eqb_spec a RBRACKET) as [->|_]; [elim Hr; now left|].
    rewrite andb_false_r.
    destruct (a =? QUOTE)%N.
    + destruct (inQuote && (b =? QUOTE)%N); [now apply IHl | now apply IHbl].
    + destruct (negb inQuote && (a =? LBRACKET)%N); now apply IHbl.
Qed.

End CleanLoop.

(* ================================================================== *)
(** ** The bracket and quote scan *)
(* ================================================================== *)

Section Scan.
Variable document : TextDocument.

Lemma translate_forward p :
  Position.translate p 0 1
  = Some (Position.make (Position.line p) (S (Position.character p))).
Proof.
  unfold Position.translate.
  replace ((Z.of_nat (Position.line p) + 0 <? 0)%Z) with false
    by (symmetry; apply Z.ltb_ge; lia).
  replace ((Z.of_nat (Position.character p) + 1 <? 0)%Z) with false
    by (symmetry; apply Z.ltb_ge; lia).
  cbn [orb]. f_equal. f_equal; lia.
Qed.

Lemma translate_back p :
  Position.translate p 0 (-1)
  = match Position.character p with
    | 0 => None
    | S c => Some (Position.make (Position.line p) c)
    end.
Proof.
  unfold Position.translate.
  replace ((Z.of_nat (Position.line p) + 0 <? 0)%Z) with false
    by (symmetry; apply Z.ltb_ge; lia).
  destruct (Position.character p) as [|c].
  - reflexivity.
  - replace ((Z.of_nat (S c) + -1 <? 0)%Z) with false
      by (symmetry; apply Z.ltb_ge; lia).
    cbn [orb]. f_equal. f_equal; lia.
Qed.

(** The squiggle under one character never throws. *)
Lemma bracketDiagnostic_some offset msg :
  bracketDiagnostic document offset msg
  = let pos := Document.positionAt document offset in
    Some (mkDiagnostic
            (Range.make pos (Position.make (Position.line pos)
                                           (S (Position.character pos))))
            msg Error).
Proof.
  unfold bracketDiagnostic. now rewrite translate_forward.
Qed.

(** One turn of the scanning loop. *)
Lemma scanComments_cons c text' i stack inQuote diagnostics :
  scanComments document (c :: text') i stack inQuote diagnostics
  = if (c =? QUOTE)%N then
      match text' with
      | c1 :: text'' =>
          if inQuote && (c1 =? QUOTE)%N
          then scanComments document text'' (S (S i)) stack inQuote diagnostics
          else scanComments document text' (S i) stack (negb inQuote) diagnostics
      | [] => scanComments document text' (S i) stack (negb inQuote) diagnostics
      end
    else if inQuote then
      scanComments document text' (S i) stack inQuote diagnostics
    else if (c =? LBRACKET)%N then
      scanComments document text' (S i) (push stack i) inQuote diagnostics
    else if (c =? RBRACKET)%N then
      match stack with
      | [] =>
          d <- bracketDiagnostic document i "Unexpected closing bracket ']'" ;;
          scanComments document text' (S i) stack inQuote (push diagnostics d)
      | _ :: _ =>
          scanComments document text' (S i) (removelast stack) inQuote diagnostics
      end
    else scanComments document text' (S i) stack inQuote diagnostics.
Proof. reflexivity. Qed.

Lemma scan_ends_nil i stack inQuote : scan_ends document [] i stack inQuote.
Proof.
  exists stack, inQuote, []. split; [constructor|].
  intro. cbn. now rewrite app_nil_r.
Qed.

(** A turn that goes on from another state without a new diagnostic. *)
Lemma scan_ends_step text i stack inQuote text1 i1 stack1 inQuote1 :
  (forall diagnostics,
      scanComments document text i stack inQuote diagnostics
      = scanComments document text1 i1 stack1 inQuote1 diagnostics) ->
  scan_ends document text1 i1 stack1 inQuote1 ->
  scan_ends document text i stack inQuote.
Proof.
  intros Hstep (s & q & f & F & E).
  exists s, q, f. split; [exact F|]. intro ds. now rewrite Hstep.
Qed.

Lemma scan_ends_cons c text' i stack inQuote :
  (forall i stack inQuote, scan_ends document text' i stack inQuote) ->
  (forall c1 text'', text' = c1 :: text'' ->
                     forall i stack inQuote, scan_ends document text'' i stack inQuote) ->
  scan_ends document (c :: text') i stack inQuote.
Proof.
  intros IH1 IH2.
  destruct (c =? QUOTE)%N eqn:Ec.
  { destruct text' as [|c1 text''].
    - eapply scan_ends_step; [|apply (IH1 (S i) stack (negb inQuote))].
      intro ds. rewrite scanComments_cons, Ec. reflexivity.
    - destruct (inQuote && (c1 =? QUOTE)%N) eqn:Eq.
      + eapply scan_ends_step;
          [|apply (IH2 c1 text'' eq_refl (S (S i)) stack inQuote)].
        intro ds. rewrite scanComments_cons, Ec, Eq. reflexivity.
      + eapply scan_ends_step; [|apply (IH1 (S i) stack (negb inQuote))].
        intro ds. rewrite scanComments_cons, Ec, Eq. reflexivity. }
  destruct inQuote.
  { eapply scan_ends_step; [|apply (IH1 (S i) stack true)].
    intro ds. rewrite scanComments_cons, Ec. reflexivity. }
  destruct (c =? LBRACKET)%N eqn:El.
  { eapply scan_ends_step; [|apply (IH1 (S i) (push stack i) false)].
    intro ds. rewrite scanComments_cons, Ec, El. reflexivity. }
  destruct (c =? RBRACKET)%N eqn:Er.
  2:{ eapply scan_ends_step; [|apply (IH1 (S i) stack false)].
      intro ds. rewrite scanComments_cons, Ec, El, Er. reflexivity. }
  destruct stack as [|x stack].
  2:{ eapply scan_ends_step;
        [|apply (IH1 (S i) (removelast (x :: stack)) false)].
      intro ds. rewrite scanComments_cons, Ec, El, Er. reflexivity. }
  destruct (IH1 (S i) [] false) as (s & q & f & F & E).
  eexists s, q, (_ :: f). split; [constructor; [constructor|exact F]|].
  intro ds. rewrite scanComments_cons, Ec, El, Er.
  rewrite bracketDiagnostic_some. cbn zeta. cbn [bind].
  rewrite E. unfold push. now rewrite <- app_assoc.
Qed.

Lemma scanComments_spec text :
  forall i stack inQuote, scan_ends document text i stack inQuote.
Proof.
  induction text as [| a | a b l IHl IHbl] using list_ind2;
    intros i stack inQuote.
  - apply scan_ends_nil.
  - apply scan_ends_cons; [intros; apply scan_ends_nil | discriminate].
  - apply scan_ends_cons; [exact IHbl|].
    intros c1 text'' E. injection E as <- <-. exact IHl.
Qed.

Lemma unclosedDiagnostics_spec stack :
  exists found,
    Forall UnclosedComment found
    /\ List.length found = List.length stack
    /\ forall diagnostics,
         unclosedDiagnostics document stack diagnostics
         = Some (diagnostics ++ found).
Proof.
  induction stack as [|index stack (found & F & L & E)].
  - exists []. repeat split; [constructor|]. intro. cbn. now rewrite app_nil_r.
  - destruct (bracketDiagnostic document index "Unclosed comment block '['")
      as [d|] eqn:Ed; [|now rewrite bracketDiagnostic_some in Ed].
    exists (d :: found). split.
    { constructor; [|exact F].
      rewrite bracketDiagnostic_some in Ed. injection Ed as <-. constructor. }
    split; [cbn; now rewrite L|].
    intro ds. cbn [unclosedDiagnostics]. rewrite Ed. cbn [bind].
    rewrite E. unfold push. now rewrite <- app_assoc.
Qed.

End Scan.

Lemma last_nonempty (A : Type) (l : list A) : forall x d d',
  last (x :: l) d = last (x :: l) d'.
Proof.
  induction l as [|y l IH]; intros x d d'; [reflexivity|].
  change (last (y :: l) d = last (y :: l) d'). apply IH.
Qed.

(** The end of the text is at the end of the last line. *)
Lemma locate_end e ls : forall l0 lineNo,
  Document.locate e l0 ls lineNo (List.length (Document.join e l0 ls))
  = Position.make (lineNo + List.length ls) (List.length (last ls l0)).
Proof.
  induction ls as [|l1 ls IH]; intros l0 lineNo.
  - cbn. rewrite Nat.min_id. f_equal. lia.
  - cbn [Document.locate Document.join].
    rewrite !length_app.
    replace (List.length (eol_string e)) with (eol_length e)
      by (now destruct e).
    replace (_ <? _) with false by (symmetry; apply Nat.ltb_ge; lia).
    replace (_ - _) with (List.length (Document.join e l1 ls)) by lia.
    rewrite IH. cbn [List.length]. f_equal; [lia|].
    f_equal. destruct ls as [|l2 ls]; [reflexivity|].
    change (last (l1 :: l2 :: ls) l0) with (last (l2 :: ls) l0).
    apply last_nonempty.
Qed.

Lemma positionAt_end document :
  Document.positionAt document (List.length (Document.getText document))
  = Position.make
      (List.length (moreLines document))
      (List.length (last (moreLines document) (firstLine document))).
Proof.
  unfold Document.positionAt, Document.getText. now rewrite locate_end.
Qed.

(** What the comment pass comes to, from the state the scan ends in. *)
Lemma commentDiagnostics_scan document stack inQuote found :
  scanComments document (Document.getText document) 0 [] false []
  = Some (stack, inQuote, found) ->
  let lastPos :=
    Document.positionAt document (List.length (Document.getText document)) in
  exists unclosed,
    Forall UnclosedComment unclosed
    /\ List.length unclosed = List.length stack
    /\ commentDiagnostics document []
       = if inQuote then
           match Position.character lastPos with
           | 0 => None
           | S c =>
               Some (found
                     ++ [mkDiagnostic
                           (Range.make (Position.make (Position.line lastPos) c)
                                       lastPos)
                           unclosedQuoteMessage Error]
                     ++ unclosed,
                     match stack with
                     | [] => []
                     | outermost :: _ =>
                         [Range.make (Document.positionAt document outermost)
                                     lastPos]
                     end)
           end
         else
           Some (found ++ unclosed,
                 match stack with
                 | [] => []
                 | outermost :: _ =>
                     [Range.make (Document.positionAt document outermost)
                                 lastPos]
                 end).
Proof.
  intros Hscan lastPos.
  destruct (unclosedDiagnostics_spec document stack) as (unclosed & F & L & E).
  exists unclosed. split; [exact F|]. split; [exact L|].
  unfold commentDiagnostics. rewrite Hscan. cbn [bind].
  fold lastPos. destruct inQuote.
  - rewrite translate_back. destruct (Position.character lastPos) as [|c].
    + reflexivity.
    + cbn [bind]. destruct stack as [|outermost stack].
      * destruct unclosed; [|discriminate L].
        unfold push, unclosedQuoteMessage. reflexivity.
      * rewrite E. cbn [bind]. unfold push, unclosedQuoteMessage.
        now rewrite <- app_assoc.
  - cbn [bind]. destruct stack as [|outermost stack].
    + destruct unclosed; [|discriminate L]. now rewrite app_nil_r.
    + rewrite E. reflexivity.
Qed.

(** The comment pass reports the unexpected closing brackets, then the
    unclosed quote, then the unclosed comments. *)
Lemma commentDiagnostics_shape document diagnostics ranges :
  commentDiagnostics document [] = Some (diagnostics, ranges) ->
  exists unexpected quote unclosed,
    diagnostics = unexpected ++ quote ++ unclosed
    /\ Forall UnexpectedClosing unexpected
    /\ Forall UnclosedQuote quote /\ List.length quote <= 1
    /\ Forall UnclosedComment unclosed.
Proof.
  destruct (scanComments_spec document (Document.getText document) 0 [] false)
    as (stack & inQuote & found & F & E).
  specialize (E []). cbn [app] in E.
  destruct (commentDiagnostics_scan document E) as (unclosed & Fu & _ & ->).
  destruct inQuote.
  - destruct (Position.character _); [discriminate|].
    intros [= <- _]. eexists found, [_], unclosed.
    repeat split; try assumption; repeat constructor.
  - intros [= <- _]. exists found, [], unclosed.
    repeat split; try assumption; repeat constructor.
Qed.

Lemma commentDiagnostics_structural document diagnostics ranges :
  commentDiagnostics document [] = Some (diagnostics, ranges) ->
  Forall Structural diagnostics.
Proof.
  intro H.
  destruct (commentDiagnostics_shape document H)
    as (u & q & c & -> & Fu & Fq & _ & Fc).
  unfold Structural. rewrite !Forall_app. repeat split.
  - eapply Forall_impl; [|exact Fu]. now left.
  - eapply Forall_impl; [|exact Fq]. now (right; left).
  - eapply Forall_impl; [|exact Fc]. now (right; right).
Qed.

(* ================================================================== *)
(** ** The parser never throws *)
(* ================================================================== *)

Section ParserTotal.
Variable document : TextDocument.

Lemma locate_line e l0 ls : forall lineNo offset,
  Position.line (Document.locate e l0 ls lineNo offset)
  < lineNo + S (List.length ls).
Proof.
  revert l0. induction ls as [|l1 ls IH]; intros l0 lineNo offset.
  - cbn. lia.
  - cbn [Document.locate].
    destruct (offset <? _).
    + cbn. lia.
    + specialize (IH l1 (S lineNo) (offset - (List.length l0 + eol_length e))).
      cbn [List.length]. lia.
Qed.

Lemma positionAt_line offset :
  Position.line (Document.positionAt document offset)
  < Document.lineCount document.
Proof.
  unfold Document.positionAt, Document.lineCount, Document.lines.
  pose proof (locate_line (eol document) (firstLine document)
                (moreLines document) 0 offset) as H.
  cbn [List.length]. lia.
Qed.

Lemma lineAt_some i :
  i < Document.lineCount document ->
  exists text,
    nth_error (Document.lines document) i = Some text
    /\ Document.lineAt document i
       = Some (TextLine.make text
                 (Range.make (Position.make i 0)
                             (Position.make i (List.length text)))).
Proof.
  intro Hi. unfold Document.lineAt.
  destruct (nth_error (Document.lines document) i) as [text|] eqn:E.
  - now exists text.
  - apply nth_error_None in E. unfold Document.lineCount in Hi. lia.
Qed.

Lemma parseLines_some count : forall i nexus,
  i + count <= Document.lineCount document ->
  exists nexus', NexusParser.parseLines document i count nexus = Some nexus'.
Proof.
  induction count as [|count IH]; intros i nexus Hi.
  - now exists nexus.
  - cbn [NexusParser.parseLines].
    destruct (lineAt_some (i := i)) as (text & _ & ->); [lia|].
    cbn [bind]. apply IH. lia.
Qed.

Lemma parse_some :
  exists nexus, NexusParser.parse document = Some nexus.
Proof.
  unfold NexusParser.parse.
  destruct (exec matrixRegex (Document.getText document)) as [m|];
    [|now exists Nexus.empty].
  unfold NexusParser.blockLines.
  cbv zeta.
  match goal with
  | |- context [NexusParser.parseLines _
                  (Position.line (Document.positionAt _ ?o1))
                  (S (Position.line (Document.positionAt _ ?o2)) - _)] =>
      pose proof (positionAt_line o1); pose proof (positionAt_line o2)
  end.
  apply parseLines_some. lia.
Qed.

End ParserTotal.

(* ================================================================== *)
(** ** The cross-checks and the pass *)
(* ================================================================== *)

Section CrossChecks.
Variable document : TextDocument.

Lemma checkNtax_app m nexus diagnostics :
  checkNtax document m nexus diagnostics
  = diagnostics ++ checkNtax document m nexus [].
Proof.
  unfold checkNtax. destruct m as [m|]; cbn [defined].
  - destruct (negb _); unfold push; [reflexivity | now rewrite app_nil_r].
  - now rewrite app_nil_r.
Qed.

Lemma checkNchar_app m nexus diagnostics :
  checkNchar document m nexus diagnostics
  = diagnostics ++ checkNchar document m nexus [].
Proof.
  unfold checkNchar. destruct m as [m|]; cbn [defined].
  - destruct (negb _); unfold push; [reflexivity | now rewrite app_nil_r].
  - now rewrite app_nil_r.
Qed.

Lemma checkNtax_kind m nexus :
  Forall NtaxMismatch (checkNtax document m nexus [])
  /\ List.length (checkNtax document m nexus []) <= 1.
Proof.
  unfold checkNtax. destruct m as [m|]; cbn [defined].
  - destruct (negb _); unfold push; cbn; split; repeat constructor.
  - split; repeat constructor.
Qed.

Lemma checkNchar_kind m nexus :
  Forall NcharMismatch (checkNchar document m nexus [])
  /\ List.length (checkNchar document m nexus []) <= 1.
Proof.
  unfold checkNchar. destruct m as [m|]; cbn [defined].
  - destruct (negb _); unfold push; cbn; split; repeat constructor.
  - split; repeat constructor.
Qed.

End CrossChecks.

Lemma checkRows_flat_map definedNchar nexus diagnostics :
  checkRows (Some definedNchar) nexus diagnostics
  = diagnostics
    ++ flat_map (rowWarning definedNchar) (JSMap.values (Nexus.taxa nexus)).
Proof.
  unfold checkRows. revert diagnostics.
  induction (JSMap.values (Nexus.taxa nexus)) as [|taxon taxa IH];
    intro diagnostics.
  - cbn. now rewrite app_nil_r.
  - cbn [fold_left flat_map]. rewrite IH. unfold rowWarning.
    destruct (negb _); unfold push; cbn [app];
      [now rewrite <- app_assoc | reflexivity].
Qed.

Lemma checkRows_app definedNchar nexus diagnostics :
  checkRows definedNchar nexus diagnostics
  = diagnostics ++ checkRows definedNchar nexus [].
Proof.
  destruct definedNchar as [n|].
  - now rewrite !checkRows_flat_map.
  - cbn. now rewrite app_nil_r.
Qed.

Lemma checkRows_kind definedNchar nexus :
  Forall RowWarning (checkRows definedNchar nexus []).
Proof.
  destruct definedNchar as [n|]; [|constructor].
  rewrite checkRows_flat_map. cbn [app].
  apply Forall_flat_map, Forall_forall. intros taxon _.
  unfold rowWarning. destruct (negb _); repeat constructor.
Qed.

(** A pass over a NEXUS document, step by step. *)
Lemma validateNexus_nexus document host :
  languageId document = "nexus"%string ->
  validateNexus document host
  = match commentDiagnostics document [] with
    | None => (mkHost [] (visibleTextEditors host), Threw)
    | Some (diagnostics, ranges) =>
        let editors :=
          setDecorations (uri document) ranges (visibleTextEditors host) in
        match NexusParser.parse document with
        | None => (mkHost [] editors, Threw)
        | Some nexusData =>
            (mkHost [(uri document, crossChecked document nexusData diagnostics)]
                    editors,
             Returned)
        end
    end.
Proof.
  intro Hlang. unfold validateNexus, validateComments. rewrite Hlang.
  cbn [String.eqb Ascii.eqb Bool.eqb negb andb Collection.clear
       collection visibleTextEditors].
  destruct (commentDiagnostics document []) as [[diagnostics ranges]|];
    [|reflexivity].
  cbn [bind collection visibleTextEditors].
  destruct (NexusParser.parse document); reflexivity.
Qed.

Lemma validateNexus_other document host :
  languageId document <> "nexus"%string ->
  validateNexus document host = (host, Returned).
Proof.
  intro Hlang. unfold validateNexus.
  destruct (String.eqb_spec (languageId document) "nexus"); [contradiction|].
  reflexivity.
Qed.

Lemma setDecorations_idempotent u ranges editors :
  setDecorations u ranges (setDecorations u ranges editors)
  = setDecorations u ranges editors.
Proof.
  unfold setDecorations. rewrite map_map. apply map_ext. intro e.
  destruct (String.eqb (editorDocument e) u) eqn:E; cbn; now rewrite E.
Qed.

(* ================================================================== *)
(** ** The rows of the MATRIX block and the model built from them *)
(* ================================================================== *)

Lemma jsstring_eqb_spec a : forall b, reflect (a = b) (jsstring_eqb a b).
Proof.
  induction a as [|x a IH]; intros [|y b]; cbn; try (constructor; congruence).
  destruct (N.eqb_spec x y) as [->|Hxy]; cbn.
  - destruct (IH b) as [->|Hab]; constructor; congruence.
  - constructor. congruence.
Qed.

Section JSMapFacts.
Variable V : Type.
Implicit Types (m : JSMap.t V) (k : jsstring) (v : V).

Lemma JSMap_in_set m k0 v0 k v :
  In (k, v) (JSMap.set m k0 v0) -> (k = k0 /\ v = v0) \/ In (k, v) m.
Proof.
  induction m as [|[k' v'] m IH]; cbn.
  - intros [[= <- <-]|[]]. now left.
  - destruct (jsstring_eqb k' k0).
    + intros [[= <- <-]|H]; [now left | right; now right].
    + intros [H|H]; [right; now left|].
      destruct (IH H) as [?|?]; [now left | right; now right].
Qed.

Lemma JSMap_get_in m k v : JSMap.get m k = Some v -> In (k, v) m.
Proof.
  induction m as [|[k' v'] m IH]; cbn; [discriminate|].
  destruct (jsstring_eqb_spec k' k) as [->|_].
  - intros [= ->]. now left.
  - intro H. right. now apply IH.
Qed.

Lemma JSMap_get_none m k v : JSMap.get m k = None -> ~ In (k, v) m.
Proof.
  induction m as [|[k' v'] m IH]; cbn; [tauto|].
  destruct (jsstring_eqb_spec k' k) as [->|Hk]; [discriminate|].
  intros H [[= -> _]|Hin]; [now apply Hk | now apply IH].
Qed.

Lemma JSMap_get_set m k0 v0 k :
  JSMap.get (JSMap.set m k0 v0) k
  = if jsstring_eqb k0 k then Some v0 else JSMap.get m k.
Proof.
  induction m as [|[k' v'] m IH]; cbn.
  - reflexivity.
  - destruct (jsstring_eqb_spec k' k0) as [->|Hk0]; cbn.
    + destruct (jsstring_eqb k0 k); reflexivity.
    + rewrite IH. destruct (jsstring_eqb_spec k' k) as [->|Hk]; [|reflexivity].
      destruct (jsstring_eqb_spec k0 k) as [->|_]; [now elim Hk0 | reflexivity].
Qed.
End JSMapFacts.

Lemma anchored_add rows nexus row :
  anchored rows nexus ->
  anchored (rows ++ [row]) (Nexus.addTaxon nexus row).
Proof.
  intros [Hentries Hrows]. unfold Nexus.addTaxon.
  destruct (JSMap.get (Nexus.taxa nexus) (Taxon.name row)) as [existing|] eqn:Eg;
    unfold anchored; cbn [Nexus.taxa]; split.
  - intros k t Hin. apply JSMap_in_set in Hin as [[-> ->]|Hin].
    + apply JSMap_get_in in Eg.
      destruct (Hentries _ _ Eg) as (Hname & before & first & after & -> & Hf & Hb & Hr).
      split; [exact Hname|].
      exists before, first, (after ++ [row]).
      rewrite <- app_assoc. repeat split; assumption.
    + destruct (Hentries _ _ Hin) as (Hname & before & first & after & -> & Hf & Hb & Hr).
      split; [exact Hname|].
      exists before, first, (after ++ [row]).
      rewrite <- app_assoc. repeat split; assumption.
  - intros r Hin. rewrite JSMap_get_set.
    destruct (jsstring_eqb _ _); [discriminate|].
    apply in_app_or in Hin as [Hin|[<-|[]]]; [now apply Hrows|].
    now rewrite Eg.
  - intros k t Hin. apply JSMap_in_set in Hin as [[-> ->]|Hin].
    + split; [reflexivity|].
      exists rows, row, []. repeat split.
      intros r Hr Hname. apply (Hrows r Hr). now rewrite Hname.
    + destruct (Hentries _ _ Hin) as (Hname & before & first & after & -> & Hf & Hb & Hr).
      split; [exact Hname|].
      exists before, first, (after ++ [row]).
      rewrite <- app_assoc. repeat split; assumption.
  - intros r Hin. rewrite JSMap_get_set.
    destruct (jsstring_eqb_spec (Taxon.name row) (Taxon.name r)) as [_|Hne];
      [discriminate|].
    apply in_app_or in Hin as [Hin|[<-|[]]]; [now apply Hrows | now elim Hne].
Qed.

Lemma anchored_fold rows :
  anchored rows (fold_left Nexus.addTaxon rows Nexus.empty).
Proof.
  induction rows as [|row rows IH] using rev_ind.
  - split; [intros k t []| intros r []].
  - rewrite fold_left_app. cbn [fold_left]. now apply anchored_add.
Qed.

Section ParserFold.
Variable document : TextDocument.

Lemma parseLines_fold count : forall i nexus,
  i + count <= Document.lineCount document ->
  NexusParser.parseLines document i count nexus
  = Some (fold_left Nexus.addTaxon
            (map snd (blockRows document i count)) nexus).
Proof.
  induction count as [|count IH]; intros i nexus Hi; [reflexivity|].
  cbn [NexusParser.parseLines blockRows].
  destruct (@lineAt_some document i) as (text & _ & ->); [lia|].
  cbn [bind]. rewrite IH by lia. unfold NexusParser.parseLine.
  destruct (NexusParser.rowOf _); reflexivity.
Qed.

(** The parser folds [addTaxon] over the rows of the block. *)
Lemma parse_fold :
  NexusParser.parse document
  = Some (fold_left Nexus.addTaxon (map snd (matrixRows document)) Nexus.empty).
Proof.
  unfold NexusParser.parse, matrixRows.
  destruct (exec matrixRegex (Document.getText document)) as [m|];
    [|reflexivity].
  unfold NexusParser.blockLines. cbv zeta.
  match goal with
  | |- context [NexusParser.parseLines _
                  (Position.line (Document.positionAt _ ?o1))
                  (S (Position.line (Document.positionAt _ ?o2)) - _)] =>
      pose proof (@positionAt_line document o1);
      pose proof (@positionAt_line document o2)
  end.
  apply parseLines_fold. lia.
Qed.

(** A row of the block is the taxon of a line of the document, and has
    the range of that line. *)
Lemma blockRows_line count : forall i j taxon,
  In (j, taxon) (blockRows document i count) ->
  i <= j < i + count
  /\ exists line,
       Document.lineAt document j = Some line
       /\ NexusParser.rowOf line = Some taxon
       /\ Taxon.lineRange taxon = TextLine.range line.
Proof.
  induction count as [|count IH]; intros i j taxon; [intros []|].
  cbn [blockRows].
  destruct (Document.lineAt document i) as [line|] eqn:El; [|intros []].
  assert (Hrest : In (j, taxon) (blockRows document (S i) count) ->
                  i <= j < i + S count
                  /\ exists line,
                       Document.lineAt document j = Some line
                       /\ NexusParser.rowOf line = Some taxon
                       /\ Taxon.lineRange taxon = TextLine.range line).
  { intro H. destruct (IH _ _ _ H) as [Hj Hl]. split; [lia | exact Hl]. }
  destruct (NexusParser.rowOf line) as [t|] eqn:Er; [|exact Hrest].
  intros [[= <- <-]|H]; [|now apply Hrest].
  split; [lia|]. exists line. repeat split; try assumption.
  unfold NexusParser.rowOf in Er.
  destruct (_ || _); [discriminate|].
  destruct (exec rowRegex _); [|discriminate].
  destruct (NexusParser.orElse _ _); [|discriminate].
  now injection Er as <-.
Qed.

Lemma matrixRows_line j taxon :
  In (j, taxon) (matrixRows document) ->
  exists line,
    Document.lineAt document j = Some line
    /\ NexusParser.rowOf line = Some taxon
    /\ Taxon.lineRange taxon = TextLine.range line.
Proof.
  unfold matrixRows.
  destruct (exec matrixRegex _) as [m|]; [|intros []].
  destruct (NexusParser.blockLines document m) as [startLine endLine].
  intro H. now apply blockRows_line in H.
Qed.

Lemma blockRows_sorted count : forall i,
  StronglySorted (fun a b => fst a < fst b) (blockRows document i count).
Proof.
  induction count as [|count IH]; intro i; [constructor|].
  cbn [blockRows].
  destruct (Document.lineAt document i) as [line|]; [|constructor].
  destruct (NexusParser.rowOf line) as [taxon|]; [|apply IH].
  constructor; [apply IH|].
  apply Forall_forall. intros [j t] Hin.
  apply blockRows_line in Hin as [Hj _]. cbn. lia.
Qed.

(** The rows are listed in the order of their lines. *)
Lemma matrixRows_before before i taxon after :
  matrixRows document = before ++ (i, taxon) :: after ->
  forall r, In r before -> fst r < i.
Proof.
  assert (Hsorted : StronglySorted (fun a b => fst a < fst b)
                      (matrixRows document)).
  { unfold matrixRows.
    destruct (exec matrixRegex _) as [m|]; [|constructor].
    destruct (NexusParser.blockLines document m). apply blockRows_sorted. }
  intro E. rewrite E in Hsorted. clear E.
  induction before as [|b before IH]; intros r Hr; [destruct Hr|].
  cbn in Hsorted. apply StronglySorted_inv in Hsorted as [Hs Hf].
  destruct Hr as [<-|Hr]; [|now apply IH].
  rewrite Forall_forall in Hf.
  apply (Hf (i, taxon)). apply in_or_app. right. now left.
Qed.

End ParserFold.

Lemma Structural_error d : Structural d -> severity d = Error.
Proof. intros [[]|[[]|[]]]; reflexivity. Qed.

Lemma NtaxMismatch_error d : NtaxMismatch d -> severity d = Error.
Proof. now intros []. Qed.

Lemma NcharMismatch_error d : NcharMismatch d -> severity d = Error.
Proof. now intros []. Qed.

(** The kinds are told apart by their messages. *)
Lemma kinds_disjoint d :
  (Structural d -> ~ NtaxMismatch d /\ ~ NcharMismatch d /\ ~ RowWarning d)
  /\ (NtaxMismatch d -> ~ NcharMismatch d /\ ~ RowWarning d)
  /\ (NcharMismatch d -> ~ RowWarning d).
Proof.
  split; [|split].
  - intros [H1|[H1|H1]]; destruct H1; (split; [|split]); intro H2; inversion H2.
  - intro H1; destruct H1; split; intro H2; inversion H2.
  - intro H1; destruct H1; intro H2; inversion H2.
Qed.

(* ================================================================== *)
(** ** Interleaved rows are concatenated in row order *)
(* ================================================================== *)

Lemma fold_assembled rows k :
  Nexus.getTaxon (fold_left Nexus.addTaxon rows Nexus.empty) k
  = assembled k (filter (named k) rows).
Proof.
  induction rows as [|row rows IH] using rev_ind; [reflexivity|].
  rewrite fold_left_app, filter_app. cbn [fold_left filter].
  set (nexus := fold_left Nexus.addTaxon rows Nexus.empty) in *.
  unfold Nexus.getTaxon, Nexus.addTaxon in *. unfold named at 2.
  destruct (JSMap.get (Nexus.taxa nexus) (Taxon.name row)) as [existing|] eqn:Eg;
    cbn [Nexus.taxa]; rewrite JSMap_get_set;
    destruct (jsstring_eqb_spec (Taxon.name row) k) as [Hk|Hk];
    try (rewrite app_nil_r; exact IH).
  - rewrite Hk in Eg. rewrite Eg in IH.
    destruct (filter (named k) rows) as [|first rest]; [discriminate|].
    injection IH as ->. cbn [app assembled Taxon.concat Taxon.name
                              Taxon.sequence Taxon.lineRange
                              Sequence.pushSequence Sequence.bases].
    do 3 f_equal.
    change (first :: rest ++ [row]) with ((first :: rest) ++ [row]).
    rewrite map_app, concat_app. cbn. now rewrite app_nil_r.
  - rewrite Hk in Eg. rewrite Eg in IH.
    destruct (filter (named k) rows) as [|first rest]; [|discriminate].
    cbn. rewrite app_nil_r. subst k.
    destruct row as [name [bases] lineRange]. reflexivity.
Qed.

Lemma JSMap_keys_set (V : Type) (m : JSMap.t V) k v :
  map fst (JSMap.set m k v)
  = if JSMap.has m k then map fst m else map fst m ++ [k].
Proof.
  unfold JSMap.has. induction m as [|[k' v'] m IH]; [reflexivity|].
  cbn. destruct (jsstring_eqb_spec k' k) as [->|Hk]; [reflexivity|].
  cbn. rewrite IH. now destruct (JSMap.get m k).
Qed.

Lemma JSMap_key_absent (V : Type) (m : JSMap.t V) k :
  JSMap.get m k = None -> ~ In k (map fst m).
Proof.
  intros Hg Hin. apply in_map_iff in Hin as ([k' v] & Hk & Hin).
  cbn in Hk. subst k'. exact (JSMap_get_none _ _ v Hg Hin).
Qed.

(** The names of the model are pairwise different. *)
Lemma fold_keys_unique rows :
  NoDup (map fst (Nexus.taxa (fold_left Nexus.addTaxon rows Nexus.empty))).
Proof.
  induction rows as [|row rows IH] using rev_ind; [constructor|].
  rewrite fold_left_app. cbn [fold_left].
  set (nexus := fold_left Nexus.addTaxon rows Nexus.empty) in *.
  unfold Nexus.addTaxon.
  destruct (JSMap.get (Nexus.taxa nexus) (Taxon.name row)) as [existing|] eqn:Eg;
    cbn [Nexus.taxa]; rewrite JSMap_keys_set; unfold JSMap.has; rewrite Eg.
  - exact IH.
  - apply NoDup_app; [exact IH | repeat constructor; intros [] |].
    intros a Ha [<-|[]]. exact (JSMap_key_absent _ _ Eg Ha).
Qed.

Lemma filter_none (A : Type) (f : A -> bool) (l : list A) :
  (forall x, In x l -> f x = false) -> filter f l = [].
Proof.
  induction l as [|x l IH]; intro H; [reflexivity|].
  cbn. rewrite (H x (or_introl eq_refl)). apply IH.
  intros y Hy. apply H. now right.
Qed.

Lemma JSMap_single_entry (V : Type) (m : JSMap.t V) k v :
  NoDup (map fst m) ->
  JSMap.get m k = Some v ->
  filter (fun entry => jsstring_eqb (fst entry) k) m = [(k, v)].
Proof.
  induction m as [|[k' v'] m IH]; cbn; [discriminate|].
  intros Hnd. inversion Hnd as [|? ? Hk' Hnd']; subst.
  destruct (jsstring_eqb_spec k' k) as [->|Hk].
  - intros [= ->]. f_equal.
    apply filter_none.
    intros [k2 v2] Hin. cbn.
    destruct (jsstring_eqb_spec k2 k) as [->|]; [|reflexivity].
    elim Hk'. apply in_map_iff. now exists (k, v2).
  - now apply IH.
Qed.

Lemma checkNtax_empty document :
  checkNtax document (exec ntaxRegex (Document.getText document)) Nexus.empty []
  = ntaxAgainstNone document.
Proof.
  unfold ntaxAgainstNone, checkNtax.
  destruct (exec ntaxRegex _) as [m|]; [|reflexivity].
  cbn [defined]. change (Nexus.ntax Nexus.empty) with 0.
  cbn [N.of_nat]. destruct (parseInt _); reflexivity.
Qed.

Lemma checkNchar_empty document :
  checkNchar document (exec ncharRegex (Document.getText document)) Nexus.empty []
  = ncharAgainstNone document.
Proof.
  unfold ncharAgainstNone, checkNchar.
  destruct (exec ncharRegex _) as [m|]; [|reflexivity].
  cbn [defined]. change (Nexus.maxSequenceLength Nexus.empty) with 0.
  cbn [N.of_nat]. destruct (parseInt _); reflexivity.
Qed.

Lemma checkRows_empty definedNchar : checkRows definedNchar Nexus.empty [] = [].
Proof. now destruct definedNchar. Qed.

(* ================================================================== *)
(** ** The matcher: repetition does not depend on its bound *)
(* ================================================================== *)

Section Matcher.

Lemma flat_map_ext_in (A B : Type) (f g : A -> list B) (l : list A) :
  (forall a, In a l -> f a = g a) -> flat_map f l = flat_map g l.
Proof.
  induction l as [|a l IH]; intro H; [reflexivity|].
  cbn. rewrite (H a (or_introl eq_refl)). f_equal.
  apply IH. intros b Hb. apply H. now right.
Qed.

Lemma iterate_forward n step greedy fuel :
  forward n step -> forward n (iterate step greedy fuel).
Proof.
  intro Hstep. induction fuel as [|fuel IH]; intros s s' Hs Hin.
  - destruct Hin as [<-|[]]. split; [exact Hs | lia].
  - cbn [iterate] in Hin.
    assert (Hcases : s' = s
                     \/ In s' (flat_map
                                 (fun x => if (pos s <? pos x)%nat
                                           then iterate step greedy fuel x
                                           else []) (step s))).
    { destruct greedy.
      - apply in_app_or in Hin as [Hin|[<-|[]]]; [now right | now left].
      - destruct Hin as [<-|Hin]; [now left | now right]. }
    destruct Hcases as [->|Hmore]; [split; [exact Hs | lia]|].
    apply in_flat_map in Hmore as (x & Hx & Hin').
    destruct (Hstep _ _ Hs Hx) as [Hcx Hle].
    destruct (pos s <? pos x)%nat; [|destruct Hin'].
    destruct (IH _ _ Hcx Hin') as [Hc' Hle']. split; [exact Hc' | lia].
Qed.

Lemma matches_forward n r : forward n (matches r).
Proof.
  induction r as [| p | a IHa b IHb | a IHa b IHb | greedy r IH | k r IH | | |];
    intros s s' Hs Hin; cbn [matches] in Hin.
  - destruct Hin as [<-|[]]. split; [exact Hs | lia].
  - unfold consistent in *. destruct (rest s) as [|c t] eqn:Er; [destruct Hin|].
    destruct (p c); [|destruct Hin]. destruct Hin as [<-|[]].
    cbn in *. split; lia.
  - apply in_flat_map in Hin as (x & Hx & Hin).
    destruct (IHa _ _ Hs Hx) as [Hcx Hle].
    destruct (IHb _ _ Hcx Hin) as [Hc' Hle']. split; [exact Hc' | lia].
  - apply in_app_or in Hin as [Hin|Hin]; [now apply IHa | now apply IHb].
  - exact (@iterate_forward n (matches r) greedy (S (List.length (rest s))) IH
             s s' Hs Hin).
  - apply in_map_iff in Hin as (x & <- & Hx).
    destruct (IH _ _ Hs Hx) as [Hcx Hle]. split; [exact Hcx | exact Hle].
  - destruct (pos s =? 0)%nat; [|destruct Hin].
    destruct Hin as [<-|[]]. split; [exact Hs | lia].
  - destruct (rest s); [|destruct Hin].
    destruct Hin as [<-|[]]. split; [exact Hs | lia].
  - destruct (xorb _ _); [|destruct Hin].
    destruct Hin as [<-|[]]. split; [exact Hs | lia].
Qed.

(** Any bound above the number of characters left gives the same
    iterations. *)
Lemma iterate_fuel n step greedy :
  forward n step ->
  forall fuel1 fuel2 s,
    consistent n s ->
    List.length (rest s) < fuel1 -> List.length (rest s) < fuel2 ->
    iterate step greedy fuel1 s = iterate step greedy fuel2 s.
Proof.
  intro Hstep. induction fuel1 as [|fuel1 IH]; intros fuel2 s Hs H1 H2; [lia|].
  destruct fuel2 as [|fuel2]; [lia|]. cbn [iterate].
  assert (Hmore :
            flat_map (fun x => if (pos s <? pos x)%nat
                               then iterate step greedy fuel1 x else [])
                     (step s)
            = flat_map (fun x => if (pos s <? pos x)%nat
                                 then iterate step greedy fuel2 x else [])
                       (step s)).
  { apply flat_map_ext_in. intros x Hx.
    destruct (Nat.ltb_spec (pos s) (pos x)) as [Hlt|_]; [|reflexivity].
    destruct (Hstep _ _ Hs Hx) as [Hcx _].
    unfold consistent in *. apply IH; [exact Hcx | lia | lia]. }
  now rewrite Hmore.
Qed.

(** Repetition satisfies the equation of the backtracking matcher: try
    one iteration that consumes something and repeat, or stop; the
    greedy one iterates first, the lazy one stops first. *)
Theorem star_unfold n greedy r s :
  consistent n s ->
  matches (Star greedy r) s
  = let more :=
      flat_map (fun s' => if (pos s <? pos s')%nat
                          then matches (Star greedy r) s' else [])
               (matches r s) in
    if greedy then more ++ [s] else s :: more.
Proof.
  intro Hs. cbn [matches iterate]. cbv zeta.
  assert (Hmore :
            flat_map (fun x => if (pos s <? pos x)%nat
                               then iterate (matches r) greedy
                                      (List.length (rest s)) x
                               else [])
                     (matches r s)
            = flat_map (fun x => if (pos s <? pos x)%nat
                                 then iterate (matches r) greedy
                                        (S (List.length (rest x))) x
                                 else [])
                       (matches r s)).
  { apply flat_map_ext_in. intros x Hx.
    destruct (Nat.ltb_spec (pos s) (pos x)) as [Hlt|_]; [|reflexivity].
    destruct (@matches_forward n r s x Hs Hx) as [Hcx _].
    unfold consistent in *.
    apply (@iterate_fuel n (matches r) greedy (@matches_forward n r));
      [exact Hcx | lia | lia]. }
  now rewrite Hmore.
Qed.

End Matcher.

(* ================================================================== *)
(** ** A row match always has a name *)
(* ================================================================== *)

Section RowName.

Lemma iterate_records gs step greedy fuel :
  records gs step -> records gs (iterate step greedy fuel).
Proof.
  intro Hstep. induction fuel as [|fuel IH]; intros s s' Hin.
  - destruct Hin as [<-|[]]. now exists [].
  - cbn [iterate] in Hin.
    assert (Hcases : s' = s
                     \/ In s' (flat_map
                                 (fun x => if (pos s <? pos x)%nat
                                           then iterate step greedy fuel x
                                           else []) (step s))).
    { destruct greedy.
      - apply in_app_or in Hin as [Hin|[<-|[]]]; [now right | now left].
      - destruct Hin as [<-|Hin]; [now left | now right]. }
    destruct Hcases as [->|Hmore]; [now exists []|].
    apply in_flat_map in Hmore as (x & Hx & Hin').
    destruct (pos s <? pos x)%nat; [|destruct Hin'].
    destruct (Hstep _ _ Hx) as (e1 & E1 & F1).
    destruct (IH _ _ Hin') as (e2 & E2 & F2).
    exists (e2 ++ e1). rewrite E2, E1, app_assoc. split; [reflexivity|].
    apply Forall_app. now split.
Qed.

Lemma matches_records r : records (groups_of r) (matches r).
Proof.
  induction r as [| p | a IHa b IHb | a IHa b IHb | greedy r IH | k r IH | | |];
    intros s s' Hin; cbn [matches groups_of] in *.
  - destruct Hin as [<-|[]]. now exists [].
  - destruct (rest s) as [|c t]; [destruct Hin|].
    destruct (p c); [|destruct Hin]. destruct Hin as [<-|[]]. now exists [].
  - apply in_flat_map in Hin as (x & Hx & Hin).
    destruct (IHa _ _ Hx) as (e1 & E1 & F1).
    destruct (IHb _ _ Hin) as (e2 & E2 & F2).
    exists (e2 ++ e1). rewrite E2, E1, app_assoc. split; [reflexivity|].
    apply Forall_app. split; eapply Forall_impl; try eassumption;
      cbn; intros; apply in_or_app; auto.
  - apply in_app_or in Hin as [Hin|Hin].
    + destruct (IHa _ _ Hin) as (e & E & F). exists e. split; [exact E|].
      eapply Forall_impl; [|exact F]. cbn; intros; apply in_or_app; auto.
    + destruct (IHb _ _ Hin) as (e & E & F). exists e. split; [exact E|].
      eapply Forall_impl; [|exact F]. cbn; intros; apply in_or_app; auto.
  - exact (@iterate_records (groups_of r) (matches r) greedy _ IH s s' Hin).
  - apply in_map_iff in Hin as (x & <- & Hx).
    destruct (IH _ _ Hx) as (e & E & F).
    exists ((k, (pos s, pos x)) :: e). cbn. rewrite E. split; [reflexivity|].
    constructor; [now left|].
    eapply Forall_impl; [|exact F]. cbn; intros; now right.
  - destruct (pos s =? 0)%nat; [|destruct Hin].
    destruct Hin as [<-|[]]. now exists [].
  - destruct (rest s); [|destruct Hin].
    destruct Hin as [<-|[]]. now exists [].
  - destruct (xorb _ _); [|destruct Hin].
    destruct Hin as [<-|[]]. now exists [].
Qed.

Lemma cap_lookup_other k extra cs :
  Forall (fun e => fst e <> k) extra ->
  cap_lookup k (extra ++ cs) = cap_lookup k cs.
Proof.
  induction 1 as [|[m v] extra Hm _ IH]; [reflexivity|].
  cbn in *. destruct (Nat.eqb_spec m k); [contradiction | exact IH].
Qed.

(** A character of a class consumes one character. *)
Lemma char_advances p s s' :
  In s' (matches (Char p) s) -> pos s' = S (pos s) /\ caps s' = caps s.
Proof.
  cbn. destruct (rest s) as [|c t]; [intros []|].
  destruct (p c); [|intros []]. intros [<-|[]]. now split.
Qed.

Lemma rowRegex_names n s0 s :
  consistent n s0 ->
  In s (matches rowRegex s0) ->
  names n s.
Proof.
  intros H0 Hin. unfold rowRegex in Hin.
  cbn [matches] in Hin.
  apply in_flat_map in Hin as (s1 & Hs1 & Hin).
  assert (H1 : consistent n s1).
  { destruct (pos s0 =? 0)%nat; [|destruct Hs1]. now destruct Hs1 as [<-|[]]. }
  clear Hs1 H0 s0.
  apply in_flat_map in Hin as (s2 & Hs2 & Hin).
  assert (H2 : consistent n s2).
  { exact (proj1 (@matches_forward n (Star true Space) s1 s2 H1 Hs2)). }
  clear Hs2 H1 s1.
  apply in_flat_map in Hin as (s3 & Hs3 & Hin).
  (* the tail only records group 4 *)
  assert (Htail : cap_lookup 2 (caps s) = cap_lookup 2 (caps s3)
                  /\ cap_lookup 3 (caps s) = cap_lookup 3 (caps s3)).
  { destruct (@matches_records
                (Seq (Plus Space) (Seq (Group 4 (Star true Dot)) AssertEnd))
                s3 s Hin) as (extra & -> & F).
    split; apply cap_lookup_other; eapply Forall_impl; try exact F;
      cbn; intros e [<-|[]]; discriminate. }
  clear Hin. unfold names. destruct Htail as [-> ->].
  apply in_map_iff in Hs3 as (x & <- & Hx).
  cbn [set_cap caps cap_lookup Nat.eqb].
  apply in_app_or in Hx as [Hx|Hx].
  - (* the quoted name *)
    right.
    apply in_flat_map in Hx as (q1 & Hq1 & Hx).
    apply in_flat_map in Hx as (g & Hg & Hx).
    destruct (char_advances _ _ _ Hx) as [_ ->].
    apply in_map_iff in Hg as (z & <- & Hz).
    cbn [set_cap caps cap_lookup Nat.eqb].
    exists (pos q1), (pos z). split; [reflexivity|].
    assert (Hc1 : consistent n q1).
    { exact (proj1 (@matches_forward n (Lit false QUOTE) s2 q1 H2 Hq1)). }
    destruct (@matches_forward n (Plus NotQuote) q1 z Hc1 Hz) as [Hcz _].
    unfold Plus in Hz. cbn [matches] in Hz.
    apply in_flat_map in Hz as (y & Hy & Hz).
    destruct (char_advances _ _ _ Hy) as [Hpos _].
    assert (Hcy : consistent n y).
    { exact (proj1 (@matches_forward n NotQuote q1 y Hc1 Hy)). }
    destruct (@matches_forward n (Star true NotQuote) y z Hcy Hz) as [_ Hle].
    unfold consistent in Hcz. lia.
  - (* the simple name *)
    left. apply in_map_iff in Hx as (z & <- & Hz). discriminate.
Qed.

Lemma exec_from_names r text ahead : forall before i m,
  i + List.length ahead = List.length text ->
  exec_from r text before ahead i = Some m ->
  exists j before' ahead' s others,
    consistent (List.length text) (mkState j before' ahead' [])
    /\ matches r (mkState j before' ahead' []) = s :: others
    /\ m = mkMatch text j (pos s) (caps s).
Proof.
  induction ahead as [|c ahead IH]; intros before i m Hi;
    cbn [exec_from];
    destruct (matches r (mkState i before _ [])) as [|s others] eqn:Em.
  - discriminate.
  - intros [= <-]. now exists i, before, [], s, others.
  - intro H. apply IH in H; [exact H | cbn in Hi; lia].
  - intros [= <-]. now exists i, before, (c :: ahead), s, others.
Qed.

Lemma substring_nonempty (text : jsstring) a b :
  a < b <= List.length text -> substring text a b <> [].
Proof.
  intros H E. apply (f_equal (@List.length _)) in E.
  unfold substring in E. rewrite length_firstn, length_skipn in E.
  cbn in E. lia.
Qed.

(** The name of a matched row is never undefined. *)
Theorem row_match_named text m :
  exec rowRegex text = Some m ->
  exists name, NexusParser.orElse (group m 2) (group m 3) = Some name.
Proof.
  intro H. apply exec_from_names in H; [|reflexivity].
  destruct H as (j & before' & ahead' & s & others & Hc & Em & ->).
  assert (Hin : In s (matches rowRegex (mkState j before' ahead' [])))
    by (rewrite Em; now left).
  destruct (@rowRegex_names _ _ _ Hc Hin) as [H3|(a & b & H2 & Hab)];
    unfold NexusParser.orElse, group; cbn [groups input].
  - destruct (cap_lookup 3 (caps s)) as [[a3 b3]|]; [|now elim H3].
    destruct (cap_lookup 2 (caps s)) as [[a2 b2]|]; [|eauto].
    destruct (substring text a2 b2); eauto.
  - rewrite H2.
    destruct (substring text a b) eqn:Es;
      [now apply substring_nonempty in Es | eauto].
Qed.

End RowName.


(* ================================================================== *)
(** ** The warnings of the rows, taxon by taxon *)
(* ================================================================== *)

Section RowWarnings.

Lemma JSMap_in_get (V : Type) (m : JSMap.t V) k v :
  NoDup (map fst m) -> In (k, v) m -> JSMap.get m k = Some v.
Proof.
  induction m as [|[k' v'] m IH]; intros Hnd Hin; [destruct Hin|].
  cbn in *. inversion Hnd as [|? ? Hk' Hnd']; subst.
  destruct (jsstring_eqb_spec k' k) as [->|Hk].
  - destruct Hin as [[= <-]|Hin]; [reflexivity|].
    elim Hk'. change k with (fst (k, v)). now apply in_map.
  - destruct Hin as [[= -> _]|Hin]; [now elim Hk | now apply IH].
Qed.

(** The first element of a list with a property is one element. *)
Lemma first_unique (A : Type) (P : A -> Prop) (b1 : list A) :
  forall b2 x1 x2 a1 a2,
    b1 ++ x1 :: a1 = b2 ++ x2 :: a2 ->
    P x1 -> P x2 ->
    (forall r, In r b1 -> ~ P r) -> (forall r, In r b2 -> ~ P r) ->
    x1 = x2.
Proof.
  induction b1 as [|y b1 IH]; intros [|z b2] x1 x2 a1 a2 E H1 H2 N1 N2;
    cbn in E; injection E as E1 E.
  - exact E1.
  - subst z. elim (N2 x1 (or_introl eq_refl) H1).
  - subst y. elim (N1 x2 (or_introl eq_refl) H2).
  - apply (IH b2 x1 x2 a1 a2 E H1 H2).
    + intros r Hr. apply N1. now right.
    + intros r Hr. apply N2. now right.
Qed.

(** The warnings of step 5 are, for each taxon of the model whose
    length is not the declared one, the warning with its length under
    the first row of the block with its name. *)
Lemma row_warnings_by_taxon document nexus definedNchar d :
  NexusParser.parse document = Some nexus ->
  In d (checkRows (Some definedNchar) nexus [])
  <-> exists taxon before i first after line,
        Nexus.getTaxon nexus (Taxon.name first) = Some taxon
        /\ N.of_nat (Taxon.length taxon) <> definedNchar
        /\ matrixRows document = before ++ (i, first) :: after
        /\ (forall r, In r before ->
                       fst r < i /\ Taxon.name (snd r) <> Taxon.name first)
        /\ Document.lineAt document i = Some line
        /\ NexusParser.rowOf line = Some first
        /\ d = mkDiagnostic (TextLine.range line)
                 (rowMessage (Taxon.length taxon) definedNchar) Warning.
Proof.
  rewrite parse_fold. intros [= <-].
  rewrite checkRows_flat_map. cbn [app].
  destruct (anchored_fold (map snd (matrixRows document))) as [Hentries _].
  pose proof (fold_keys_unique (map snd (matrixRows document))) as Hnd.
  split.
  - intro Hd. apply in_flat_map in Hd as (taxon & Htaxon & Hd).
    unfold rowWarning in Hd.
    destruct (N.eqb_spec (N.of_nat (Taxon.length taxon)) definedNchar)
      as [|Hlen]; [destruct Hd|].
    destruct Hd as [<-|[]].
    unfold JSMap.values in Htaxon.
    apply in_map_iff in Htaxon as ([k t] & Ht & Hin). cbn in Ht. subst t.
    destruct (Hentries _ _ Hin)
      as (_ & before & first & after & Hrows & Hfirst & Hbefore & Hr).
    apply map_eq_app in Hrows as (before' & rest & Hrows & <- & Hrest).
    apply map_eq_cons in Hrest as ([i first'] & after' & -> & Hf & <-).
    cbn in Hf. subst first'.
    assert (Hin' : In (i, first) (matrixRows document)).
    { rewrite Hrows. apply in_or_app. right. now left. }
    destruct (matrixRows_line document _ _ Hin') as (line & Hl & Hrow & Hlr).
    exists taxon, before', i, first, after', line.
    split; [rewrite Hfirst; now apply JSMap_in_get|].
    split; [exact Hlen|]. split; [exact Hrows|].
    split.
    { intros r H. split.
      - exact (@matrixRows_before document _ _ _ _ Hrows r H).
      - rewrite Hfirst. apply Hbefore. now apply in_map. }
    split; [exact Hl|]. split; [exact Hrow|].
    now rewrite Hr, Hlr.
  - intros (taxon & before & i & first & after & line
            & Hg & Hlen & Hrows & Hbefore & Hl & Hrow & ->).
    apply JSMap_get_in in Hg.
    destruct (Hentries _ _ Hg)
      as (_ & before0 & first0 & after0 & Hrows0 & Hfirst0 & Hbefore0 & Hr).
    assert (Hsame : first0 = first).
    { rewrite Hrows, map_app in Hrows0. cbn [map snd] in Hrows0.
      apply (@first_unique _ (fun r => Taxon.name r = Taxon.name first)
               before0 (map snd before) first0 first after0 (map snd after));
        [now symmetry | exact Hfirst0 | reflexivity | exact Hbefore0 |].
      intros r Hr'. apply in_map_iff in Hr' as (r' & <- & Hr').
      exact (proj2 (Hbefore r' Hr')). }
    subst first0.
    assert (Hin' : In (i, first) (matrixRows document)).
    { rewrite Hrows. apply in_or_app. right. now left. }
    destruct (matrixRows_line document _ _ Hin') as (line' & Hl' & _ & Hlr).
    rewrite Hl in Hl'. injection Hl' as <-.
    apply in_flat_map. exists taxon. split.
    + unfold JSMap.values. change taxon with (snd (Taxon.name first, taxon)).
      now apply in_map.
    + unfold rowWarning.
      destruct (N.eqb_spec (N.of_nat (Taxon.length taxon)) definedNchar)
        as [|_]; [contradiction|].
      cbn [negb]. left. now rewrite Hr, Hlr.
Qed.

End RowWarnings.

(* ================================================================== *)
(** ** The claims *)
(* ================================================================== *)

Local Open Scope string_scope.
Local Open Scope list_scope.

(** C1: for every document whose quote flag is still set when the scan
    ends, the comment pass throws when the last line is empty, and
    otherwise reports the unexpected closing brackets, then exactly one
    unclosed-quote diagnostic, anchored at the last character of the
    document, then the unclosed comments.  The unclosed-quote diagnostic
    has severity Error, not Warning. *)
Theorem unclosed_quote_is_error document stack found :
  scanComments document (Document.getText document) 0 [] false []
  = Some (stack, true, found) ->
  let lastLine := List.length (moreLines document) in
  let lastText := last (moreLines document) (firstLine document) in
  match List.length lastText with
  | 0 => commentDiagnostics document [] = None
  | S c =>
      exists unclosed ranges,
        commentDiagnostics document []
        = Some (found
                ++ [mkDiagnostic
                      (Range.make (Position.make lastLine c)
                                  (Position.make lastLine (S c)))
                      unclosedQuoteMessage Error]
                ++ unclosed,
                ranges)
        /\ Forall UnexpectedClosing found
        /\ Forall UnclosedComment unclosed
  end.
Proof.
  intros Hscan lastLine lastText.
  destruct (commentDiagnostics_scan document Hscan) as (unclosed & Fu & _ & E).
  rewrite positionAt_end in E. cbn [Position.character Position.line] in E.
  fold lastText lastLine in E.
  destruct (List.length lastText) as [|c]; [exact E|].
  eexists unclosed, _. split; [exact E|]. split; [|exact Fu].
  destruct (scanComments_spec document (Document.getText document) 0 [] false)
    as (s & q & f & F & E').
  specialize (E' []). rewrite Hscan in E'. now injection E' as _ _ <-.
Qed.

Lemma unclosed_quote_is_error_witness :
  exists unclosed ranges,
    commentDiagnostics (nexusDocument ["'abc"]) []
    = Some ([]
            ++ [mkDiagnostic
                  (Range.make (Position.make 0 3) (Position.make 0 4))
                  unclosedQuoteMessage Error]
            ++ unclosed,
            ranges)
    /\ Forall UnexpectedClosing []
    /\ Forall UnclosedComment unclosed.
Proof.
  exact (unclosed_quote_is_error (nexusDocument ["'abc"]) (stack := [])
           (found := []) eq_refl).
Defined.

(** The same pass on a text that ends with a line break throws: the
    position before the end of the document has a negative column. *)
Example unclosed_quote_empty_last_line :
  validateNexus (nexusDocument ["'abc"; ""]) (mkHost [] [])
  = (mkHost [] [], Threw).
Proof. reflexivity. Qed.

(** C2 (as the code has it): for every input made of data characters,
    comment spans (balanced, nested to any depth, free of quotes) and
    quoted labels, the stripping pass removes every comment span and
    keeps the data characters and the labels, each label with its two
    delimiter quotes and with one literal quote for each escaped quote;
    whitespace is then removed.  At every point of any input, outside
    a quote a comment span leaves the state and the kept text as they
    are; inside a quote an escaped quote leaves the quote flag set and
    adds one quote at depth 0; an opening quote at depth 0 is kept. *)
Theorem clean_strips_comments_keeps_quotes :
  (forall tokens,
      well_formed tokens ->
      Sequence._clean (flat_map render tokens)
      = remove_whitespace (flat_map kept tokens))
  /\ (forall span rest stack clean,
         CommentSpan span ->
         Sequence.cleanLoop (span ++ rest) stack false clean
         = Sequence.cleanLoop rest stack false clean)
  /\ (forall rest stack clean,
         Sequence.cleanLoop (QUOTE :: QUOTE :: rest) stack true clean
         = Sequence.cleanLoop rest stack true
             (if (stack =? 0)%nat then push clean QUOTE else clean))
  /\ (forall rest clean,
         Sequence.cleanLoop (QUOTE :: rest) 0 false clean
         = Sequence.cleanLoop rest 0 true (push clean QUOTE)).
Proof.
  split; [|split; [|split]].
  - intros tokens Hwf. unfold Sequence._clean. now rewrite well_formed_kept.
  - intros span rest stack clean Hspan. now apply comment_span_removed.
  - intros. apply cleanLoop_escaped.
  - intros. apply cleanLoop_quote_open.
Qed.

Lemma labelledTokens_well_formed : well_formed labelledTokens.
Proof.
  cbn. repeat split.
  - apply Balanced_char; [reflexivity|].
    apply Balanced_char; [reflexivity|].
    apply (Balanced_nest (w1 := lit "x") (w2 := lit " ")).
    + apply Balanced_char; [reflexivity | constructor].
    + apply Balanced_char; [reflexivity | constructor].
  - repeat constructor; discriminate.
Defined.

Lemma clean_strips_comments_keeps_quotes_witness :
  Sequence._clean (lit "AC[ c[x] ]'it''s'G T") = lit "AC'it's'GT"
  /\ Sequence.cleanLoop (lit "[ c[x] ]GT") 0 false (lit "AC")
     = Sequence.cleanLoop (lit "GT") 0 false (lit "AC").
Proof.
  split.
  - exact (proj1 clean_strips_comments_keeps_quotes labelledTokens
             labelledTokens_well_formed).
  - refine (proj1 (proj2 clean_strips_comments_keeps_quotes)
              (lit "[ c[x] ]") (lit "GT") 0 (lit "AC") _).
    apply (CommentSpan_intro (body := lit " c[x] ")).
    apply Balanced_char; [reflexivity|].
    apply Balanced_char; [reflexivity|].
    apply (Balanced_nest (w1 := lit "x") (w2 := lit " ")).
    + apply Balanced_char; [reflexivity | constructor].
    + apply Balanced_char; [reflexivity | constructor].
Defined.

(** C2, the claim as stated fails: the two quotes that delimit the
    label A are in the output. *)
Lemma clean_keeps_delimiter_quotes :
  Sequence._clean (lit "'A' ACGT") = lit "'A'ACGT"
  /\ count_occ N.eq_dec (Sequence._clean (lit "'A' ACGT")) QUOTE = 2.
Proof. split; reflexivity. Qed.

(** C3 (as the code has it): for a document without a MATRIX block the
    parser returns the empty model, and the pass compares the header
    with it: after the structural diagnostics it reports an NTAX
    mismatch, with 0 taxa, exactly when NTAX is declared other than 0,
    and an NCHAR mismatch, with a longest sequence of 0, exactly when
    NCHAR is declared other than 0; it reports no per-taxon warning. *)
Theorem no_matrix_checked_against_empty_model document host diagnostics ranges :
  languageId document = "nexus" ->
  exec matrixRegex (Document.getText document) = None ->
  commentDiagnostics document [] = Some (diagnostics, ranges) ->
  NexusParser.parse document = Some Nexus.empty
  /\ validateNexus document host
     = (mkHost [(uri document,
                 diagnostics ++ ntaxAgainstNone document
                             ++ ncharAgainstNone document)]
               (setDecorations (uri document) ranges (visibleTextEditors host)),
        Returned).
Proof.
  intros Hl Hm Hc.
  assert (Hp : NexusParser.parse document = Some Nexus.empty).
  { unfold NexusParser.parse. now rewrite Hm. }
  split; [exact Hp|].
  rewrite (validateNexus_nexus _ _ Hl), Hc, Hp. cbv zeta.
  unfold crossChecked.
  rewrite checkRows_app, checkNchar_app, checkNtax_app, <- !app_assoc.
  now rewrite checkNtax_empty, checkNchar_empty, checkRows_empty, app_nil_r.
Qed.

Lemma no_matrix_checked_against_empty_model_witness :
  NexusParser.parse headerOnlyDocument = Some Nexus.empty
  /\ validateNexus headerOnlyDocument (mkHost [] [])
     = (mkHost [(uri headerOnlyDocument, headerOnlyDiagnostics)] [], Returned).
Proof.
  exact (@no_matrix_checked_against_empty_model headerOnlyDocument
           (mkHost [] []) [] [] eq_refl eq_refl eq_refl).
Defined.

(** C3, the claim as stated fails: without a MATRIX block, NTAX=3 and
    NCHAR=4 are both reported as mismatches. *)
Lemma no_matrix_counts_still_checked :
  exec matrixRegex (Document.getText headerOnlyDocument) = None
  /\ diagnosticsOf headerOnlyDocument (mkHost [] [])
     = Some headerOnlyDiagnostics
  /\ Exists NtaxMismatch headerOnlyDiagnostics
  /\ Exists NcharMismatch headerOnlyDiagnostics.
Proof.
  split; [vm_compute; reflexivity|]. split; [vm_compute; reflexivity|].
  split.
  - apply Exists_cons_hd. exact (NtaxMismatch_intro _ 3 0).
  - apply Exists_cons_tl, Exists_cons_hd. exact (NcharMismatch_intro _ 4 0).
Qed.

(** The declared counts are the doubles the engine reads: the mismatches
    show them rounded, and in exponential form from 10^21 on. *)
Example no_matrix_large_counts :
  exec matrixRegex (Document.getText largeCountsDocument) = None
  /\ diagnosticsOf largeCountsDocument (mkHost [] [])
     = Some [mkDiagnostic (Range.make (Position.make 2 11) (Position.make 2 32))
               "Mismatch: NTAX=9007199254740992 but MATRIX has 0 taxa." Error;
             mkDiagnostic (Range.make (Position.make 2 33) (Position.make 2 63))
               "Mismatch: NCHAR=1e+23 but the longest sequence is 0." Error]
  /\ ntaxAgainstNone largeCountsDocument ++ ncharAgainstNone largeCountsDocument
     = [mkDiagnostic (Range.make (Position.make 2 11) (Position.make 2 32))
          "Mismatch: NTAX=9007199254740992 but MATRIX has 0 taxa." Error;
        mkDiagnostic (Range.make (Position.make 2 33) (Position.make 2 63))
          "Mismatch: NCHAR=1e+23 but the longest sequence is 0." Error].
Proof. repeat split; vm_compute; reflexivity. Qed.

(** C4 (as the code has it): the per-taxon Warnings of a pass are, for
    each taxon of the model whose length is not the declared NCHAR, the
    Warning with that taxon's length, anchored at the range of the line
    that is the first row of the MATRIX block with that taxon's name:
    the rows before it are on earlier lines and none has that name,
    whatever the number of rows after it.  A pass publishes every one
    of them, and no other Warning. *)
Theorem row_warning_anchored_at_first_row document host host' diagnostics d :
  languageId document = "nexus" ->
  validateNexus document host = (host', Returned) ->
  Collection.get (collection host') (uri document) = Some diagnostics ->
  (In d diagnostics /\ severity d = Warning)
  <-> exists nexus definedNchar taxon before i first after line,
        NexusParser.parse document = Some nexus
        /\ defined (exec ncharRegex (Document.getText document))
           = Some definedNchar
        /\ Nexus.getTaxon nexus (Taxon.name first) = Some taxon
        /\ N.of_nat (Taxon.length taxon) <> definedNchar
        /\ matrixRows document = before ++ (i, first) :: after
        /\ (forall r, In r before ->
                       fst r < i /\ Taxon.name (snd r) <> Taxon.name first)
        /\ Document.lineAt document i = Some line
        /\ NexusParser.rowOf line = Some first
        /\ d = mkDiagnostic (TextLine.range line)
                 (rowMessage (Taxon.length taxon) definedNchar) Warning.
Proof.
  intros Hl. rewrite (validateNexus_nexus _ _ Hl).
  destruct (commentDiagnostics document []) as [[ds ranges]|] eqn:Ec;
    [|discriminate].
  cbv zeta. destruct (NexusParser.parse document) as [nexus|] eqn:Ep;
    [|discriminate].
  intros [= <-]. cbn [collection Collection.get].
  rewrite String.eqb_refl. intros [= <-].
  unfold crossChecked.
  rewrite checkRows_app, checkNchar_app, checkNtax_app.
  split.
  - intros [Hin Hsev].
    apply in_app_or in Hin as [Hin|Hin];
      [apply in_app_or in Hin as [Hin|Hin];
       [apply in_app_or in Hin as [Hin|Hin]|]|].
    + apply commentDiagnostics_structural in Ec.
      rewrite Forall_forall in Ec. apply Ec, Structural_error in Hin.
      congruence.
    + destruct (checkNtax_kind document
                  (exec ntaxRegex (Document.getText document)) nexus) as [F _].
      rewrite Forall_forall in F. apply F, NtaxMismatch_error in Hin.
      congruence.
    + destruct (checkNchar_kind document
                  (exec ncharRegex (Document.getText document)) nexus) as [F _].
      rewrite Forall_forall in F. apply F, NcharMismatch_error in Hin.
      congruence.
    + destruct (defined (exec ncharRegex (Document.getText document)))
        as [definedNchar|]; [|destruct Hin].
      apply (@row_warnings_by_taxon document nexus definedNchar d Ep) in Hin.
      destruct Hin as (taxon & before & i & first & after & line & H).
      exists nexus, definedNchar, taxon, before, i, first, after, line.
      split; [reflexivity|]. split; [reflexivity|]. exact H.
  - intros (nexus' & definedNchar & taxon & before & i & first & after & line
            & [= <-] & Hd & H).
    rewrite Hd.
    assert (Hin : In d (checkRows (Some definedNchar) nexus [])).
    { apply (@row_warnings_by_taxon document nexus definedNchar d Ep).
      now exists taxon, before, i, first, after, line. }
    split.
    + apply in_or_app. now right.
    + destruct H as (_ & _ & _ & _ & _ & _ & ->). reflexivity.
Qed.

Lemma row_warning_anchored_at_first_row_witness :
  exists nexus definedNchar taxon before i first after line,
    NexusParser.parse interleavedDocument = Some nexus
    /\ defined (exec ncharRegex (Document.getText interleavedDocument))
       = Some definedNchar
    /\ Nexus.getTaxon nexus (Taxon.name first) = Some taxon
    /\ N.of_nat (Taxon.length taxon) <> definedNchar
    /\ matrixRows interleavedDocument = before ++ (i, first) :: after
    /\ (forall r, In r before ->
                   fst r < i /\ Taxon.name (snd r) <> Taxon.name first)
    /\ Document.lineAt interleavedDocument i = Some line
    /\ NexusParser.rowOf line = Some first
    /\ mkDiagnostic (Range.make (Position.make 4 0) (Position.make 4 4))
         "Sequence length (5) does not match NCHAR (4)." Warning
       = mkDiagnostic (TextLine.range line)
           (rowMessage (Taxon.length taxon) definedNchar) Warning.
Proof.
  exact (proj1
           (@row_warning_anchored_at_first_row interleavedDocument (mkHost [] [])
              (fst (validateNexus interleavedDocument (mkHost [] [])))
              [mkDiagnostic (Range.make (Position.make 2 18) (Position.make 2 25))
                 "Mismatch: NCHAR=4 but the longest sequence is 5." Error;
               mkDiagnostic (Range.make (Position.make 4 0) (Position.make 4 4))
                 "Sequence length (5) does not match NCHAR (4)." Warning]
              (mkDiagnostic (Range.make (Position.make 4 0) (Position.make 4 4))
                 "Sequence length (5) does not match NCHAR (4)." Warning)
              eq_refl eq_refl eq_refl)
           (conj (or_intror (or_introl eq_refl)) eq_refl)).
Defined.

(** C4, the claim as stated fails: the Warning for A is under line 4,
    the first row of A, and not under line 7, its last row. *)
Lemma interleaved_warning_at_first_row :
  diagnosticsOf interleavedDocument (mkHost [] [])
  = Some [mkDiagnostic (Range.make (Position.make 2 18) (Position.make 2 25))
            "Mismatch: NCHAR=4 but the longest sequence is 5." Error;
          mkDiagnostic (Range.make (Position.make 4 0) (Position.make 4 4))
            "Sequence length (5) does not match NCHAR (4)." Warning]
  /\ map (fun row => (fst row, Taxon.name (snd row)))
         (matrixRows interleavedDocument)
     = [(4, lit "A"); (5, lit "B"); (7, lit "A"); (8, lit "B")]
  /\ option_map TextLine.range (Document.lineAt interleavedDocument 7)
     = Some (Range.make (Position.make 7 0) (Position.make 7 5))
  /\ Range.make (Position.make 4 0) (Position.make 4 4)
     <> Range.make (Position.make 7 0) (Position.make 7 5).
Proof.
  repeat split; try (vm_compute; reflexivity). discriminate.
Qed.

(** C5: when the rows of the MATRIX block that name A are two, with the
    cleaned sequences ACGT and then TTTT, the model the parser returns
    has a single entry for A, whose sequence is ACGTTTTT, of length 8
    (and whose range is that of the first of the two rows). *)
Theorem interleaved_rows_concatenate document row1 row2 :
  filter (named (lit "A")) (map snd (matrixRows document)) = [row1; row2] ->
  Sequence.bases (Taxon.sequence row1) = lit "ACGT" ->
  Sequence.bases (Taxon.sequence row2) = lit "TTTT" ->
  exists nexus taxon,
    NexusParser.parse document = Some nexus
    /\ filter (fun entry => jsstring_eqb (fst entry) (lit "A")) (Nexus.taxa nexus)
       = [(lit "A", taxon)]
    /\ taxon = Taxon.make (lit "A") (Sequence.mk (lit "ACGTTTTT"))
                 (Taxon.lineRange row1)
    /\ Taxon.length taxon = 8.
Proof.
  intros Hrows H1 H2.
  pose proof (fold_assembled (map snd (matrixRows document)) (lit "A")) as Hget.
  rewrite Hrows in Hget. cbn [assembled map List.concat] in Hget.
  rewrite H1, H2 in Hget.
  eexists _, _. split; [apply parse_fold|].
  split; [|split; [reflexivity|reflexivity]].
  apply JSMap_single_entry; [apply fold_keys_unique | exact Hget].
Qed.

Lemma interleaved_rows_concatenate_witness :
  exists nexus taxon,
    NexusParser.parse twoGroupsDocument = Some nexus
    /\ filter (fun entry => jsstring_eqb (fst entry) (lit "A")) (Nexus.taxa nexus)
       = [(lit "A", taxon)]
    /\ taxon = Taxon.make (lit "A") (Sequence.mk (lit "ACGTTTTT"))
                 (Range.make (Position.make 3 0) (Position.make 3 6))
    /\ Taxon.length taxon = 8.
Proof.
  exact (@interleaved_rows_concatenate twoGroupsDocument
           (Taxon.make (lit "A") (Sequence.mk (lit "ACGT"))
              (Range.make (Position.make 3 0) (Position.make 3 6)))
           (Taxon.make (lit "A") (Sequence.mk (lit "TTTT"))
              (Range.make (Position.make 6 0) (Position.make 6 7)))
           eq_refl eq_refl eq_refl).
Defined.

(** The whole model of that document. *)
Example twoGroups_parsed :
  NexusParser.parse twoGroupsDocument
  = Some (Nexus.mk
            [(lit "A", Taxon.make (lit "A") (Sequence.mk (lit "ACGTTTTT"))
                         (Range.make (Position.make 3 0) (Position.make 3 6)));
             (lit "B", Taxon.make (lit "B") (Sequence.mk (lit "GGGGCCCC"))
                         (Range.make (Position.make 4 0) (Position.make 4 11)))]).
Proof. vm_compute. reflexivity. Qed.

(** C6: the text of three nested, balanced comments gives no diagnostic
    and no decoration; with one closing bracket less it gives exactly one
    unclosed-comment diagnostic, under the first opening bracket. *)
Theorem nested_comment_balance u language e editors :
  validateComments (mkDocument u language e (lit "[[[ ]]]") []) [] editors
  = Some ([], setDecorations u [] editors)
  /\ validateComments (mkDocument u language e (lit "[[[ ]]") []) [] editors
     = Some ([mkDiagnostic
                (Range.make (Position.make 0 0) (Position.make 0 1))
                "Unclosed comment block '['" Error],
             setDecorations u
               [Range.make (Position.make 0 0) (Position.make 0 6)] editors).
Proof. split; reflexivity. Qed.

(** C7: when the header declares NTAX=3, the model has 2 taxa, the
    comment pass reports nothing and there is no NCHAR declaration, the
    pass publishes exactly one diagnostic: an Error at the range of the
    NTAX declaration whose message mentions 3 and 2. *)
Theorem ntax_mismatch_single_error document host ranges ntaxMatch nexus :
  languageId document = "nexus" ->
  commentDiagnostics document [] = Some ([], ranges) ->
  exec ntaxRegex (Document.getText document) = Some ntaxMatch ->
  defined (Some ntaxMatch) = Some 3%N ->
  exec ncharRegex (Document.getText document) = None ->
  NexusParser.parse document = Some nexus ->
  Nexus.ntax nexus = 2 ->
  exists d,
    diagnosticsOf document host = Some [d]
    /\ severity d = Error
    /\ range d = getRangeFromMatch document ntaxMatch
    /\ message d = "Mismatch: NTAX=3 but MATRIX has 2 taxa."
    /\ mentions "3" (message d) = true
    /\ mentions "2" (message d) = true.
Proof.
  intros Hl Hc Hm Hd Hn Hp Hntax.
  unfold diagnosticsOf.
  rewrite (validateNexus_nexus _ _ Hl), Hc, Hp. cbv zeta.
  cbn [fst collection Collection.get]. rewrite String.eqb_refl.
  unfold crossChecked. rewrite Hn, Hm. cbn [defined checkRows checkNchar].
  unfold checkNtax. rewrite Hd, Hntax.
  eexists. split; [reflexivity|]. repeat split.
Qed.

Lemma ntax_mismatch_single_error_witness :
  exists d,
    diagnosticsOf threeDeclaredDocument (mkHost [] []) = Some [d]
    /\ severity d = Error
    /\ range d = Range.make (Position.make 2 11) (Position.make 2 17)
    /\ message d = "Mismatch: NTAX=3 but MATRIX has 2 taxa."
    /\ mentions "3" (message d) = true
    /\ mentions "2" (message d) = true.
Proof.
  exact (@ntax_mismatch_single_error threeDeclaredDocument (mkHost [] []) []
           (mkMatch (Document.getText threeDeclaredDocument) 30 36 [(1, (35, 36))])
           (Nexus.mk
              [(lit "A", Taxon.make (lit "A") (Sequence.mk (lit "ACGT"))
                           (Range.make (Position.make 4 0) (Position.make 4 6)));
               (lit "B", Taxon.make (lit "B") (Sequence.mk (lit "ACGT"))
                           (Range.make (Position.make 5 0) (Position.make 5 6)))])
           eq_refl eq_refl eq_refl eq_refl eq_refl eq_refl eq_refl).
Defined.

(** C8: a second pass over the same document, from the state the first
    pass left, ends in the same state and the same way as the first, with
    the same diagnostics for the document; and the diagnostics of a pass
    do not depend on the state it starts from. *)
Theorem validation_deterministic document host host' :
  validateNexus document (fst (validateNexus document host))
  = validateNexus document host
  /\ diagnosticsOf document (fst (validateNexus document host))
     = diagnosticsOf document host
  /\ (languageId document = "nexus" ->
      collection (fst (validateNexus document host))
      = collection (fst (validateNexus document host'))).
Proof.
  assert (H : validateNexus document (fst (validateNexus document host))
              = validateNexus document host).
  { destruct (String.eqb_spec (languageId document) "nexus") as [Hl|Hl].
    - rewrite !(validateNexus_nexus _ _ Hl).
      destruct (commentDiagnostics document []) as [[ds ranges]|];
        [|reflexivity].
      cbv zeta. destruct (NexusParser.parse document); cbn [fst visibleTextEditors];
        now rewrite setDecorations_idempotent.
    - now rewrite !(validateNexus_other _ _ Hl). }
  split; [exact H|]. split.
  - unfold diagnosticsOf. now rewrite H.
  - intro Hl. rewrite !(validateNexus_nexus _ _ Hl).
    destruct (commentDiagnostics document []) as [[ds ranges]|];
      [|reflexivity].
    cbv zeta. destruct (NexusParser.parse document); reflexivity.
Qed.

Lemma validation_deterministic_witness :
  collection (fst (validateNexus (nexusDocument ["NTAX=3"]) (mkHost [] [])))
  = collection (fst (validateNexus (nexusDocument ["NTAX=3"])
                       (mkHost [("file:///other.nex", [])] []))).
Proof.
  exact (proj2 (proj2 (validation_deterministic (nexusDocument ["NTAX=3"])
                         (mkHost [] [])
                         (mkHost [("file:///other.nex", [])] [])))
           eq_refl).
Defined.

(** C9: the diagnostics a pass publishes are, in this order: the
    structural ones (unexpected closing brackets, unclosed quote,
    unclosed comments), at most one NTAX mismatch, at most one NCHAR
    mismatch, and the per-taxon warnings. *)
Theorem diagnostics_in_pass_order document host host' :
  languageId document = "nexus" ->
  validateNexus document host = (host', Returned) ->
  exists structural ntax nchar rows,
    collection host' = [(uri document, structural ++ ntax ++ nchar ++ rows)]
    /\ Forall Structural structural
    /\ Forall NtaxMismatch ntax /\ List.length ntax <= 1
    /\ Forall NcharMismatch nchar /\ List.length nchar <= 1
    /\ Forall RowWarning rows.
Proof.
  intros Hl. rewrite (validateNexus_nexus _ _ Hl).
  destruct (commentDiagnostics document []) as [[ds ranges]|] eqn:Ec;
    [|discriminate].
  cbv zeta. destruct (NexusParser.parse document) as [nexus|]; [|discriminate].
  intros [= <-]. cbn [collection]. unfold crossChecked.
  set (text := Document.getText document).
  exists ds, (checkNtax document (exec ntaxRegex text) nexus []),
    (checkNchar document (exec ncharRegex text) nexus []),
    (checkRows (defined (exec ncharRegex text)) nexus []).
  split.
  { rewrite checkRows_app, checkNchar_app, checkNtax_app.
    now rewrite <- !app_assoc. }
  split; [exact (commentDiagnostics_structural _ Ec)|].
  split; [apply checkNtax_kind|]. split; [apply checkNtax_kind|].
  split; [apply checkNchar_kind|]. split; [apply checkNchar_kind|].
  apply checkRows_kind.
Qed.

Lemma diagnostics_in_pass_order_witness :
  exists structural ntax nchar rows,
    collection (fst (validateNexus manyFaultsDocument (mkHost [] [])))
    = [(uri manyFaultsDocument, structural ++ ntax ++ nchar ++ rows)]
    /\ Forall Structural structural
    /\ Forall NtaxMismatch ntax /\ List.length ntax <= 1
    /\ Forall NcharMismatch nchar /\ List.length nchar <= 1
    /\ Forall RowWarning rows.
Proof.
  exact (@diagnostics_in_pass_order manyFaultsDocument (mkHost [] [])
           (fst (validateNexus manyFaultsDocument (mkHost [] [])))
           eq_refl eq_refl).
Defined.

Example manyFaults_diagnostics :
  diagnosticsOf manyFaultsDocument (mkHost [] [])
  = Some [mkDiagnostic (Range.make (Position.make 0 7) (Position.make 0 8))
            "Unexpected closing bracket ']'" Error;
          mkDiagnostic (Range.make (Position.make 7 5) (Position.make 7 6))
            "Unclosed comment block '['" Error;
          mkDiagnostic (Range.make (Position.make 2 11) (Position.make 2 17))
            "Mismatch: NTAX=3 but MATRIX has 2 taxa." Error;
          mkDiagnostic (Range.make (Position.make 2 18) (Position.make 2 25))
            "Mismatch: NCHAR=4 but the longest sequence is 5." Error;
          mkDiagnostic (Range.make (Position.make 4 0) (Position.make 4 7))
            "Sequence length (5) does not match NCHAR (4)." Warning;
          mkDiagnostic (Range.make (Position.make 5 0) (Position.make 5 4))
            "Sequence length (2) does not match NCHAR (4)." Warning].
Proof. vm_compute. reflexivity. Qed.

(** C10 (as the code has it): the stripping pass is a total function;
    its output has no whitespace character; it has no bracket when the
    input has no quote (a bracket inside a quoted label is kept);
    after well-formed text, everything from an opening bracket that is
    never closed is dropped, and a closing bracket at depth 0 is
    dropped and the scan goes on as before it. *)
Theorem clean_output_shape (str : jsstring) :
  Forall (fun c => is_whitespace c = false) (Sequence._clean str)
  /\ (~ In QUOTE str ->
      ~ In LBRACKET (Sequence._clean str) /\ ~ In RBRACKET (Sequence._clean str))
  /\ (forall tokens,
         well_formed tokens -> ~ In RBRACKET str ->
         Sequence._clean (flat_map render tokens ++ LBRACKET :: str)
         = remove_whitespace (flat_map kept tokens))
  /\ (forall tokens,
         well_formed tokens ->
         Sequence.cleanLoop (flat_map render tokens ++ RBRACKET :: str) 0 false []
         = Sequence.cleanLoop str 0 false (flat_map kept tokens)).
Proof.
  split; [apply remove_whitespace_clean|]. split; [|split].
  - intro Hq.
    destruct (@cleanLoop_no_bracket str Hq 0 []) as [HL HR];
      [split; intros []|].
    unfold Sequence._clean, remove_whitespace.
    split; intro Hin; apply filter_In in Hin as [Hin _]; auto.
  - intros tokens Hwf Hr. unfold Sequence._clean.
    rewrite well_formed_kept_then by (exact Hwf || discriminate).
    rewrite cleanLoop_open. now rewrite cleanLoop_unclosed.
  - intros tokens Hwf.
    rewrite well_formed_kept_then by (exact Hwf || discriminate).
    rewrite cleanLoop_close. reflexivity.
Qed.

Lemma clean_output_shape_witness :
  (~ In LBRACKET (Sequence._clean (lit "AC GT")) /\ ~ In RBRACKET (Sequence._clean (lit "AC GT")))
  /\ Sequence._clean (lit "AC[ c[x] ]'it''s'G T[AC GT") = lit "AC'it's'GT"
  /\ Sequence.cleanLoop (lit "AC[ c[x] ]'it''s'G T]AC GT") 0 false []
     = Sequence.cleanLoop (lit "AC GT") 0 false (lit "AC'it's'G T").
Proof.
  split; [|split].
  - apply (proj1 (proj2 (clean_output_shape (lit "AC GT")))).
    cbn. intros [H|[H|[H|[H|[H|[]]]]]]; discriminate H.
  - apply (proj1 (proj2 (proj2 (clean_output_shape (lit "AC GT"))))
             labelledTokens labelledTokens_well_formed).
    cbn. intros [H|[H|[H|[H|[H|[]]]]]]; discriminate H.
  - exact (proj2 (proj2 (proj2 (clean_output_shape (lit "AC GT"))))
             labelledTokens labelledTokens_well_formed).
Defined.

(** C10, the claim as stated fails: the brackets of a quoted label are
    in the output. *)
Lemma clean_keeps_quoted_brackets :
  Sequence._clean (lit "'t[1]' AC") = lit "'t[1]'AC"
  /\ In LBRACKET (Sequence._clean (lit "'t[1]' AC"))
  /\ In RBRACKET (Sequence._clean (lit "'t[1]' AC")).
Proof.
  split; [reflexivity|]. split; cbn; tauto.
Qed.

Local Close Scope string_scope.

(* ================================================================== *)
(** ** Further properties: the bracket and quote scan *)
(* ================================================================== *)

Lemma unclosedDiagnostics_map document stack : forall diagnostics,
  unclosedDiagnostics document stack diagnostics
  = Some (diagnostics ++ map (unclosedAt document) stack).
Proof.
  induction stack as [|index stack IH]; intro ds.
  - cbn. now rewrite app_nil_r.
  - cbn [unclosedDiagnostics]. rewrite bracketDiagnostic_some. cbn zeta.
    cbn [bind]. rewrite IH. unfold push. now rewrite <- app_assoc.
Qed.

Section ScanTokens.
Variable document : TextDocument.

Lemma scan_plain c rest i stack inQuote diagnostics :
  is_plain c = true ->
  scanComments document (c :: rest) i stack inQuote diagnostics
  = scanComments document rest (S i) stack inQuote diagnostics.
Proof.
  unfold is_plain. intro H.
  apply andb_prop in H as [H H3]. apply andb_prop in H as [H1 H2].
  apply negb_true_iff in H1, H2, H3.
  rewrite scanComments_cons, H1, H2, H3. now destruct inQuote.
Qed.

Lemma scan_open rest i stack diagnostics :
  scanComments document (LBRACKET :: rest) i stack false diagnostics
  = scanComments document rest (S i) (push stack i) false diagnostics.
Proof. now rewrite scanComments_cons. Qed.

Lemma scan_close_pushed rest i j stack diagnostics :
  scanComments document (RBRACKET :: rest) i (push stack j) false diagnostics
  = scanComments document rest (S i) stack false diagnostics.
Proof.
  rewrite scanComments_cons. cbn [N.eqb QUOTE LBRACKET RBRACKET Pos.eqb].
  unfold push. rewrite removelast_last.
  now destruct stack.
Qed.

Lemma scan_close_stray rest i diagnostics :
  scanComments document (RBRACKET :: rest) i [] false diagnostics
  = scanComments document rest (S i) []
      false (push diagnostics (unexpectedAt document i)).
Proof.
  rewrite scanComments_cons. cbn [N.eqb QUOTE LBRACKET RBRACKET Pos.eqb].
  now rewrite bracketDiagnostic_some.
Qed.

Lemma scan_quote_open rest i stack diagnostics :
  scanComments document (QUOTE :: rest) i stack false diagnostics
  = scanComments document rest (S i) stack true diagnostics.
Proof. rewrite scanComments_cons. now destruct rest. Qed.

Lemma scan_quote_close rest i stack diagnostics :
  hd_error rest <> Some QUOTE ->
  scanComments document (QUOTE :: rest) i stack true diagnostics
  = scanComments document rest (S i) stack false diagnostics.
Proof.
  intro H. rewrite scanComments_cons. cbn [N.eqb QUOTE Pos.eqb].
  destruct rest as [|c rest]; [reflexivity|]. cbn [andb].
  destruct (N.eqb_spec c QUOTE) as [->|_]; [now elim H | reflexivity].
Qed.

Lemma scan_balanced w :
  Balanced w ->
  forall rest i stack diagnostics,
    scanComments document (w ++ rest) i stack false diagnostics
    = scanComments document rest (i + List.length w) stack false diagnostics.
Proof.
  induction 1 as [| c w Hc _ IH | w1 w2 _ IH1 _ IH2]; intros rest i stack ds.
  - cbn. now rewrite Nat.add_0_r.
  - cbn [app List.length]. rewrite scan_plain by exact Hc. rewrite IH.
    f_equal. lia.
  - cbn [app]. rewrite <- app_assoc. cbn [app].
    rewrite scan_open, IH1, scan_close_pushed, IH2.
    f_equal. cbn [List.length]. rewrite length_app. cbn [List.length]. lia.
Qed.

Lemma scan_quoted_items items :
  Forall valid_item items ->
  forall rest i stack diagnostics,
    scanComments document (flat_map render_item items ++ rest) i stack true
      diagnostics
    = scanComments document rest
        (i + List.length (flat_map render_item items)) stack true diagnostics.
Proof.
  induction 1 as [| item items Hi _ IH]; intros rest i stack ds.
  - cbn. now rewrite Nat.add_0_r.
  - cbn [flat_map]. rewrite <- app_assoc, length_app.
    destruct item as [c|]; cbn [render_item app List.length].
    + cbn in Hi. apply N.eqb_neq in Hi.
      rewrite scanComments_cons, Hi, IH. f_equal. lia.
    + rewrite scanComments_cons. cbn [N.eqb QUOTE Pos.eqb andb].
      rewrite IH. f_equal. lia.
Qed.

(** The scan over well-formed text, followed by text that does not start
    with a quote, leaves the stack, the quote flag and the diagnostics
    as they are. *)
Lemma scan_tokens ts rest :
  well_formed ts ->
  hd_error rest <> Some QUOTE ->
  forall i stack diagnostics,
    scanComments document (flat_map render ts ++ rest) i stack false diagnostics
    = scanComments document rest (i + List.length (flat_map render ts))
        stack false diagnostics.
Proof.
  intros Hwf Hrest. induction ts as [|t ts IH]; intros i stack ds.
  - cbn. now rewrite Nat.add_0_r.
  - destruct Hwf as (Ht & Hnext & Hwf). specialize (IH Hwf).
    cbn [flat_map]. rewrite <- app_assoc, length_app.
    destruct t as [c|body|items]; cbn [render].
    + cbn [app List.length]. rewrite scan_plain by exact Ht. rewrite IH.
      f_equal. lia.
    + cbn [app]. rewrite <- app_assoc. cbn [app].
      rewrite scan_open, scan_balanced by exact Ht.
      rewrite scan_close_pushed, IH. f_equal.
      cbn [List.length]. rewrite length_app. cbn [List.length]. lia.
    + cbn [app]. rewrite <- app_assoc. cbn [app].
      rewrite scan_quote_open, scan_quoted_items by exact Ht.
      rewrite scan_quote_close.
      * rewrite IH. f_equal.
        cbn [List.length]. rewrite length_app. cbn [List.length]. lia.
      * apply render_then_not_quote; [exact Hwf | | exact Hrest].
        destruct ts as [|[| |] ?]; try exact I. exact Hnext.
Qed.

Lemma scan_strays strays rest :
  Forall well_formed strays ->
  forall i diagnostics,
    scanComments document (strayText strays ++ rest) i [] false diagnostics
    = scanComments document rest (i + List.length (strayText strays)) [] false
        (diagnostics ++ map (unexpectedAt document) (strayOffsets i strays)).
Proof.
  induction 1 as [|w strays Hw _ IH]; intros i ds.
  - cbn. now rewrite Nat.add_0_r, app_nil_r.
  - unfold strayText. cbn [flat_map strayOffsets map].
    fold (strayText strays). rewrite <- !app_assoc.
    rewrite scan_tokens by (exact Hw || discriminate).
    cbn [app]. rewrite scan_close_stray, IH. unfold push.
    rewrite <- app_assoc, !length_app. cbn [app List.length].
    f_equal. lia.
Qed.

Lemma scan_opens opens :
  Forall well_formed opens ->
  forall i stack diagnostics,
    scanComments document (openText opens) i stack false diagnostics
    = Some (stack ++ openOffsets i opens, false, diagnostics).
Proof.
  induction 1 as [|w opens Hw _ IH]; intros i stack ds.
  - cbn. now rewrite app_nil_r.
  - unfold openText. cbn [flat_map openOffsets app].
    fold (openText opens). rewrite scan_open.
    rewrite scan_tokens
      by (exact Hw || (destruct opens; discriminate)).
    rewrite IH. unfold push. now rewrite <- app_assoc.
Qed.

Lemma strayOffsets_brackets strays after : forall pre,
  Forall (fun o => nth_error (pre ++ strayText strays ++ after) o
                   = Some RBRACKET)
         (strayOffsets (List.length pre) strays).
Proof.
  induction strays as [|w strays IH]; intro pre; [constructor|].
  cbn [strayOffsets]. unfold strayText. cbn [flat_map].
  fold (strayText strays). constructor.
  - rewrite <- !app_assoc, app_assoc, <- length_app.
    rewrite nth_error_app2 by lia. now rewrite Nat.sub_diag.
  - specialize (IH (pre ++ flat_map render w ++ [RBRACKET])).
    rewrite !length_app in IH. cbn [List.length] in IH.
    rewrite Nat.add_1_r, <- plus_n_Sm in IH.
    rewrite <- !app_assoc in IH. rewrite <- !app_assoc. exact IH.
Qed.

Lemma openOffsets_brackets opens : forall pre,
  Forall (fun o => nth_error (pre ++ openText opens) o = Some LBRACKET)
         (openOffsets (List.length pre) opens).
Proof.
  induction opens as [|w opens IH]; intro pre; [constructor|].
  cbn [openOffsets]. unfold openText. cbn [flat_map].
  fold (openText opens). constructor.
  - rewrite nth_error_app2 by lia. now rewrite Nat.sub_diag.
  - specialize (IH (pre ++ LBRACKET :: flat_map render w)).
    rewrite length_app in IH. cbn [List.length] in IH.
    rewrite <- plus_n_Sm in IH. cbn [plus].
    rewrite <- app_assoc in IH. exact IH.
Qed.

End ScanTokens.

(** X1: the comment pass locates every fault of the brackets.  On a
    text made of stretches of well-formed text, the first ones each
    ended by a closing bracket that closes nothing, the last ones each
    begun by an opening bracket that nothing closes, its diagnostics
    are exactly: one for each of those closing brackets, under it, in
    text order, then one for each of those opening brackets, under it,
    in text order.  The decoration is the single range from the first
    of those opening brackets to the end of the text, and there is none
    when there is no such bracket. *)
Theorem comment_pass_located document strays middle opens :
  Document.getText document = faultyText strays middle opens ->
  Forall well_formed strays -> well_formed middle -> Forall well_formed opens ->
  let text := Document.getText document in
  let closings := strayOffsets 0 strays in
  let openings :=
    openOffsets (List.length (strayText strays ++ flat_map render middle))
                opens in
  commentDiagnostics document []
  = Some (map (unexpectedAt document) closings
            ++ map (unclosedAt document) openings,
          match openings with
          | [] => []
          | outermost :: _ =>
              [Range.make (Document.positionAt document outermost)
                 (Document.positionAt document (List.length text))]
          end)
  /\ Forall (fun o => nth_error text o = Some RBRACKET) closings
  /\ Forall (fun o => nth_error text o = Some LBRACKET) openings
  /\ List.length closings = List.length strays
  /\ List.length openings = List.length opens.
Proof.
  intros Htext Hs Hm Ho text closings openings. split; [|split; [|split]].
  - unfold commentDiagnostics. rewrite Htext at 1. unfold faultyText.
    rewrite scan_strays by exact Hs.
    rewrite scan_tokens
      by (exact Hm || (destruct opens; discriminate)).
    rewrite scan_opens by exact Ho.
    cbn [bind app plus]. rewrite <- length_app.
    fold closings. fold openings.
    destruct openings as [|outermost openings'] eqn:Eo.
    + cbn [map]. now rewrite app_nil_r.
    + rewrite unclosedDiagnostics_map. reflexivity.
  - subst text closings. rewrite Htext. unfold faultyText.
    exact (strayOffsets_brackets strays
             (flat_map render middle ++ openText opens) []).
  - subst text openings. rewrite Htext. unfold faultyText.
    rewrite app_assoc. apply openOffsets_brackets.
  - subst text closings openings. clear. split.
    + generalize 0. induction strays as [|w strays IH]; intro from;
        [reflexivity|].
      cbn [strayOffsets List.length]. f_equal. apply IH.
    + generalize (List.length (strayText strays ++ flat_map render middle)).
      induction opens as [|w opens IH]; intro from; [reflexivity|].
      cbn [openOffsets List.length]. f_equal. apply IH.
Qed.

Lemma comment_pass_located_witness :
  commentDiagnostics faultyDocument []
  = Some (map (unexpectedAt faultyDocument) [2; 8]
            ++ map (unclosedAt faultyDocument) [11; 15],
          [Range.make (Document.positionAt faultyDocument 11)
             (Document.positionAt faultyDocument 17)]).
Proof.
  refine (proj1
            (@comment_pass_located faultyDocument
               [[Plain 65%N; Plain 67%N];
                [Plain 71%N; Comment [120%N]; Plain 84%N]]
               [Plain 10%N; Plain 65%N]
               [[Plain 67%N; Plain 10%N; Plain 71%N]; [Plain 84%N]]
               eq_refl _ _ _)).
  - repeat constructor.
  - cbn. repeat split.
  - repeat constructor.
Defined.

(** X2: a document whose text is well formed (data characters, balanced
    comments nested to any depth, quoted labels, which may hold brackets
    and escaped quotes) gets no diagnostic from the comment pass, and
    the decoration of its editors is cleared. *)
Theorem well_formed_text_no_diagnostic document tokens editors :
  Document.getText document = flat_map render tokens ->
  well_formed tokens ->
  validateComments document [] editors
  = Some ([], setDecorations (uri document) [] editors).
Proof.
  intros Htext Hwf. unfold validateComments, commentDiagnostics.
  rewrite Htext. rewrite <- (app_nil_r (flat_map render tokens)) at 1.
  rewrite scan_tokens by (exact Hwf || discriminate).
  reflexivity.
Qed.

Lemma well_formed_text_no_diagnostic_witness :
  validateComments labelledDocument [] [] = Some ([], []).
Proof.
  exact (@well_formed_text_no_diagnostic labelledDocument labelledTokens []
           eq_refl labelledTokens_well_formed).
Defined.

(** X3: one closing bracket with no bracket open, between two stretches
    of well-formed text, gets exactly one diagnostic, under that
    bracket, and does not affect the scan of the text after it. *)
Theorem stray_closing_bracket_reported document before after editors :
  Document.getText document
  = flat_map render before ++ RBRACKET :: flat_map render after ->
  well_formed before -> well_formed after ->
  validateComments document [] editors
  = Some ([unexpectedAt document (List.length (flat_map render before))],
          setDecorations (uri document) [] editors).
Proof.
  intros Htext Hb Ha. unfold validateComments, commentDiagnostics.
  rewrite Htext. rewrite scan_tokens by (exact Hb || discriminate).
  rewrite scan_close_stray.
  rewrite <- (app_nil_r (flat_map render after)) at 1.
  rewrite scan_tokens by (exact Ha || discriminate).
  reflexivity.
Qed.

Lemma stray_closing_bracket_reported_witness :
  validateComments strayDocument [] []
  = Some ([unexpectedAt strayDocument 2], []).
Proof.
  refine (@stray_closing_bracket_reported strayDocument
            [Plain 65%N; Plain 67%N] [Plain 71%N; Plain 84%N] []
            eq_refl _ _);
    cbn; repeat split.
Defined.

(** X4: one opening bracket that is never closed, between two stretches
    of well-formed text, gets exactly one diagnostic, under that
    bracket, and the editors of the document are decorated from that
    bracket to the end of the text. *)
Theorem unclosed_bracket_reported document before after editors :
  Document.getText document
  = flat_map render before ++ LBRACKET :: flat_map render after ->
  well_formed before -> well_formed after ->
  let offset := List.length (flat_map render before) in
  validateComments document [] editors
  = Some ([unclosedAt document offset],
          setDecorations (uri document)
            [Range.make (Document.positionAt document offset)
               (Document.positionAt document
                  (List.length (Document.getText document)))]
            editors).
Proof.
  intros Htext Hb Ha offset. unfold validateComments, commentDiagnostics.
  rewrite Htext at 1. rewrite scan_tokens by (exact Hb || discriminate).
  rewrite scan_open.
  rewrite <- (app_nil_r (flat_map render after)) at 1.
  rewrite scan_tokens by (exact Ha || discriminate).
  cbn [scanComments bind push app].
  rewrite unclosedDiagnostics_map. reflexivity.
Qed.

Lemma unclosed_bracket_reported_witness :
  validateComments unclosedDocument [] []
  = Some ([unclosedAt unclosedDocument 2], []).
Proof.
  refine (@unclosed_bracket_reported unclosedDocument
            [Plain 65%N; Plain 67%N] [Plain 71%N; Plain 84%N] []
            eq_refl _ _);
    cbn; repeat split.
Defined.

(* ================================================================== *)
(** ** Further properties: the stripping pass *)
(* ================================================================== *)

Section Stripping.
Import Sequence.

Lemma Subsequence_refl (A : Type) (l : list A) : Subsequence l l.
Proof. induction l; constructor; assumption. Qed.

Lemma Subsequence_trans (A : Type) (a b c : list A) :
  Subsequence a b -> Subsequence b c -> Subsequence a c.
Proof.
  intros Hab Hbc. revert a Hab.
  induction Hbc as [| x b c _ IH | x b c _ IH]; intros a Hab.
  - exact Hab.
  - inversion Hab; subst; constructor; now apply IH.
  - constructor. now apply IH.
Qed.

Lemma Subsequence_filter (A : Type) (f : A -> bool) (l : list A) :
  Subsequence (filter f l) l.
Proof.
  induction l as [|x l IH]; cbn; [constructor|].
  destruct (f x); constructor; exact IH.
Qed.

Lemma Subsequence_length (A : Type) (s l : list A) :
  Subsequence s l -> List.length s <= List.length l.
Proof. induction 1; cbn; lia. Qed.

Lemma Subsequence_in (A : Type) (s l : list A) x :
  Subsequence s l -> In x s -> In x l.
Proof.
  induction 1 as [| y s l _ IH | y s l _ IH]; cbn; [tauto | | tauto].
  intros [->|H]; [now left | right; now apply IH].
Qed.

(** What the loop adds to the text kept so far is the rest of the input
    with characters left out. *)
Lemma cleanLoop_subsequence str : forall stack inQuote clean,
  exists out,
    cleanLoop str stack inQuote clean = clean ++ out /\ Subsequence out str.
Proof.
  induction str as [| a | a b l IHl IHbl] using list_ind2;
    intros stack inQuote clean.
  - exists []. cbn. rewrite app_nil_r. split; constructor.
  - rewrite cleanLoop_cons.
    assert (Hkeep : forall c, c = a ->
              exists out,
                (if stack =? 0 then push clean c else clean) = clean ++ out
                /\ Subsequence out [a]).
    { intros c ->. destruct (stack =? 0).
      - exists [a]. split; [reflexivity | repeat constructor].
      - exists []. rewrite app_nil_r. split; [reflexivity | repeat constructor]. }
    destruct (N.eqb_spec a QUOTE) as [Ha|Ha]; [now apply Hkeep|].
    destruct (negb inQuote && (a =? LBRACKET)%N);
      [exists []; rewrite app_nil_r; split; [reflexivity | repeat constructor]|].
    destruct (negb inQuote && (a =? RBRACKET)%N);
      [exists []; rewrite app_nil_r; split; [reflexivity | repeat constructor]|].
    now apply Hkeep.
  - rewrite cleanLoop_cons.
    assert (Hone : forall c stack' inQuote', c = a ->
              exists out,
                cleanLoop (b :: l) stack' inQuote'
                  (if stack =? 0 then push clean c else clean) = clean ++ out
                /\ Subsequence out (a :: b :: l)).
    { intros c stack' inQuote' ->. destruct (stack =? 0).
      - destruct (IHbl stack' inQuote' (push clean a)) as (out & -> & Hs).
        exists (a :: out). unfold push. rewrite <- app_assoc.
        split; [reflexivity | now constructor].
      - destruct (IHbl stack' inQuote' clean) as (out & -> & Hs).
        exists out. split; [reflexivity | now constructor]. }
    assert (Hskip : forall stack',
              exists out,
                cleanLoop (b :: l) stack' inQuote clean = clean ++ out
                /\ Subsequence out (a :: b :: l)).
    { intros stack'. destruct (IHbl stack' inQuote clean) as (out & -> & Hs).
      exists out. split; [reflexivity | now constructor]. }
    destruct (N.eqb_spec a QUOTE) as [Ha|Ha].
    + destruct (inQuote && (b =? QUOTE)%N); [|now apply Hone].
      destruct (stack =? 0).
      * destruct (IHl stack inQuote (push clean QUOTE)) as (out & -> & Hs).
        exists (a :: out). unfold push. rewrite <- app_assoc, Ha.
        split; [reflexivity | now do 2 constructor].
      * destruct (IHl stack inQuote clean) as (out & -> & Hs).
        exists out. split; [reflexivity | now do 2 constructor].
    + destruct (negb inQuote && (a =? LBRACKET)%N); [apply Hskip|].
      destruct (negb inQuote && (a =? RBRACKET)%N); [apply Hskip|].
      now apply Hone.
Qed.

(** Text of plain characters is kept as it is. *)
Lemma cleanLoop_plain_text str :
  Forall (fun c => is_plain c = true) str ->
  forall clean, cleanLoop str 0 false clean = clean ++ str.
Proof.
  induction 1 as [|c str Hc _ IH]; intro clean.
  - cbn. now rewrite app_nil_r.
  - rewrite cleanLoop_plain by exact Hc. cbn. rewrite IH.
    unfold push. now rewrite <- app_assoc.
Qed.

Lemma remove_whitespace_fixed str :
  Forall (fun c => is_whitespace c = false) str ->
  remove_whitespace str = str.
Proof.
  unfold remove_whitespace.
  induction 1 as [|c str Hc _ IH]; [reflexivity|].
  cbn [filter]. rewrite Hc. cbn [negb]. now rewrite IH.
Qed.

End Stripping.

(** X5: the stripping pass only deletes: its output is its input with
    characters left out, in the same order; so a cleaned sequence is
    never longer than the raw text of its row. *)
Theorem clean_only_deletes (str : jsstring) :
  Subsequence (Sequence._clean str) str
  /\ List.length (Sequence._clean str) <= List.length str
  /\ Sequence.length (Sequence.make (Some str)) <= List.length str.
Proof.
  assert (H : Subsequence (Sequence._clean str) str).
  { unfold Sequence._clean.
    destruct (cleanLoop_subsequence str 0 false []) as (out & -> & Hs).
    cbn [app]. eapply Subsequence_trans; [apply Subsequence_filter | exact Hs]. }
  split; [exact H|]. split; now apply Subsequence_length.
Qed.

(** X6: on raw text with no single quote, cleaning what has been cleaned
    changes nothing. *)
Theorem clean_idempotent_without_quotes (str : jsstring) :
  ~ In QUOTE str ->
  Sequence._clean (Sequence._clean str) = Sequence._clean str.
Proof.
  intro Hq.
  assert (Hsub : Subsequence (Sequence._clean str) str).
  { unfold Sequence._clean.
    destruct (cleanLoop_subsequence str 0 false []) as (out & -> & Hs).
    cbn [app]. eapply Subsequence_trans; [apply Subsequence_filter | exact Hs]. }
  assert (Hws := remove_whitespace_clean (Sequence.cleanLoop str 0 false [])).
  fold (Sequence._clean str) in Hws.
  assert (Hbr : ~ In LBRACKET (Sequence._clean str)
                /\ ~ In RBRACKET (Sequence._clean str)).
  { destruct (@cleanLoop_no_bracket str Hq 0 []) as [HL HR];
      [split; intros []|].
    unfold Sequence._clean, remove_whitespace.
    split; intro Hin; apply filter_In in Hin as [Hin _]; auto. }
  destruct Hbr as [HL HR].
  assert (Hplain : Forall (fun c => is_plain c = true) (Sequence._clean str)).
  { apply Forall_forall. intros c Hc. unfold is_plain.
    destruct (N.eqb_spec c QUOTE) as [->|_];
      [elim Hq; exact (@Subsequence_in _ _ _ _ Hsub Hc)|].
    destruct (N.eqb_spec c LBRACKET) as [->|_]; [now elim HL|].
    destruct (N.eqb_spec c RBRACKET) as [->|_]; [now elim HR|].
    reflexivity. }
  unfold Sequence._clean at 1.
  rewrite cleanLoop_plain_text by exact Hplain. cbn [app].
  now apply remove_whitespace_fixed.
Qed.

Lemma clean_idempotent_without_quotes_witness :
  Sequence._clean (Sequence._clean (lit "AC [x] GT"))
  = Sequence._clean (lit "AC [x] GT").
Proof.
  apply clean_idempotent_without_quotes.
  vm_compute. intuition discriminate.
Defined.

(* ================================================================== *)
(** ** Further properties: the model *)
(* ================================================================== *)

Lemma fold_longest (taxa : list Taxon.t) : forall start,
  let longest :=
    fold_left (fun max taxon => if max <? Taxon.length taxon
                                then Taxon.length taxon else max)
              taxa start in
  start <= longest
  /\ Forall (fun taxon => Taxon.length taxon <= longest) taxa
  /\ (longest = start
      \/ Exists (fun taxon => Taxon.length taxon = longest) taxa).
Proof.
  induction taxa as [|taxon taxa IH]; intro start; cbn zeta.
  - cbn. split; [lia|]. split; [constructor | now left].
  - cbn [fold_left].
    specialize (IH (if start <? Taxon.length taxon
                    then Taxon.length taxon else start)).
    cbn zeta in IH. destruct IH as (Hle & Hall & Hex).
    destruct (Nat.ltb_spec start (Taxon.length taxon)) as [Hlt|Hge].
    + split; [lia|]. split; [constructor; [lia | exact Hall]|].
      right. destruct Hex as [->|Hex]; [now left | now right].
    + split; [lia|]. split; [constructor; [lia | exact Hall]|].
      destruct Hex as [->|Hex]; [now left | right; now right].
Qed.

(** A model with a taxon has one of the longest length. *)
Lemma longest_attained (nexus : Nexus.t) :
  JSMap.values (Nexus.taxa nexus) <> [] ->
  Exists (fun taxon => Taxon.length taxon = Nexus.maxSequenceLength nexus)
         (JSMap.values (Nexus.taxa nexus)).
Proof.
  unfold Nexus.maxSequenceLength. intro Hne.
  destruct (fold_longest (JSMap.values (Nexus.taxa nexus)) 0)
    as (_ & Hall & Hex).
  destruct Hex as [H0|Hex]; [|exact Hex].
  destruct (JSMap.values (Nexus.taxa nexus)) as [|taxon taxa];
    [now elim Hne|].
  rewrite H0 in Hall |- *. inversion Hall as [|? ? Hlen _]; subst.
  left. lia.
Qed.

(** X7: the longest sequence length of a model bounds the length of
    every taxon, is the length of one of them when there is one, and is
    0 for the empty model. *)
Theorem maxSequenceLength_is_longest (nexus : Nexus.t) :
  Forall (fun taxon => Taxon.length taxon <= Nexus.maxSequenceLength nexus)
         (JSMap.values (Nexus.taxa nexus))
  /\ match JSMap.values (Nexus.taxa nexus) with
     | [] => Nexus.maxSequenceLength nexus = 0
     | _ :: _ =>
         Exists (fun taxon => Taxon.length taxon = Nexus.maxSequenceLength nexus)
                (JSMap.values (Nexus.taxa nexus))
     end.
Proof.
  split.
  - unfold Nexus.maxSequenceLength.
    now destruct (fold_longest (JSMap.values (Nexus.taxa nexus)) 0)
      as (_ & Hall & _).
  - destruct (JSMap.values (Nexus.taxa nexus)) as [|taxon taxa] eqn:E.
    + unfold Nexus.maxSequenceLength. now rewrite E.
    + rewrite <- E. apply longest_attained. rewrite E. discriminate.
Qed.

Section ModelOrder.

Lemma jsstring_eqb_sym a b : jsstring_eqb a b = jsstring_eqb b a.
Proof.
  destruct (jsstring_eqb_spec a b) as [Hab|Hab];
    destruct (jsstring_eqb_spec b a) as [Hba|Hba]; congruence.
Qed.

Lemma firstSeen_same seen seen' names :
  (forall k, existsb (jsstring_eqb k) seen = existsb (jsstring_eqb k) seen') ->
  firstSeen seen names = firstSeen seen' names.
Proof.
  revert seen seen'. induction names as [|k names IH]; intros seen seen' H;
    [reflexivity|].
  cbn [firstSeen]. rewrite <- (H k).
  destruct (existsb (jsstring_eqb k) seen); [now apply IH|].
  f_equal. apply IH. intro k'. cbn. now rewrite H.
Qed.

Lemma has_keys (V : Type) (m : JSMap.t V) k :
  JSMap.has m k = existsb (jsstring_eqb k) (map fst m).
Proof.
  unfold JSMap.has. induction m as [|[k' v] m IH]; [reflexivity|].
  cbn. rewrite (jsstring_eqb_sym k k').
  destruct (jsstring_eqb k' k); [reflexivity | exact IH].
Qed.

Lemma addTaxon_keys nexus taxon :
  map fst (Nexus.taxa (Nexus.addTaxon nexus taxon))
  = if JSMap.has (Nexus.taxa nexus) (Taxon.name taxon)
    then map fst (Nexus.taxa nexus)
    else map fst (Nexus.taxa nexus) ++ [Taxon.name taxon].
Proof.
  unfold Nexus.addTaxon, JSMap.has.
  destruct (JSMap.get (Nexus.taxa nexus) (Taxon.name taxon)) eqn:E;
    cbn [Nexus.taxa]; rewrite JSMap_keys_set; unfold JSMap.has; now rewrite E.
Qed.

Lemma fold_keys rows : forall nexus,
  map fst (Nexus.taxa (fold_left Nexus.addTaxon rows nexus))
  = map fst (Nexus.taxa nexus)
    ++ firstSeen (map fst (Nexus.taxa nexus)) (map Taxon.name rows).
Proof.
  induction rows as [|row rows IH]; intro nexus.
  - cbn. now rewrite app_nil_r.
  - cbn [fold_left map firstSeen]. rewrite IH, addTaxon_keys, <- has_keys.
    destruct (JSMap.has (Nexus.taxa nexus) (Taxon.name row)) eqn:Eh;
      [reflexivity|].
    rewrite <- app_assoc. cbn [app]. do 2 f_equal.
    apply firstSeen_same. intro k. rewrite existsb_app. cbn.
    now rewrite orb_false_r, orb_comm.
Qed.

End ModelOrder.

(** X8: the entries of the parsed model are in first-seen order: its
    names are the names of the rows of the MATRIX block, each once, at
    the place of its first row; the count of taxa is their number, and
    is at most the number of rows. *)
Theorem model_in_first_seen_order document :
  exists nexus,
    NexusParser.parse document = Some nexus
    /\ map fst (Nexus.taxa nexus) = firstSeen [] (rowNames document)
    /\ Nexus.ntax nexus = List.length (firstSeen [] (rowNames document))
    /\ Nexus.ntax nexus <= List.length (matrixRows document).
Proof.
  eexists. split; [apply parse_fold|].
  pose proof (fold_keys (map snd (matrixRows document)) Nexus.empty) as Hk.
  cbn [Nexus.empty Nexus.taxa map app] in Hk.
  rewrite map_map in Hk. fold (rowNames document) in Hk.
  assert (Hn : Nexus.ntax
                 (fold_left Nexus.addTaxon (map snd (matrixRows document))
                    Nexus.empty)
               = List.length (firstSeen [] (rowNames document))).
  { unfold Nexus.ntax, JSMap.size. now rewrite <- Hk, length_map. }
  split; [exact Hk|]. split; [exact Hn|].
  rewrite Hn. unfold rowNames.
  rewrite <- (length_map (fun row => Taxon.name (snd row)) (matrixRows document)).
  generalize (map (fun row => Taxon.name (snd row)) (matrixRows document)).
  intro names. generalize (@nil jsstring).
  induction names as [|k names IH]; intro seen; [cbn; lia|].
  cbn [firstSeen List.length].
  destruct (existsb (jsstring_eqb k) seen).
  - specialize (IH seen). lia.
  - specialize (IH (k :: seen)). cbn [List.length]. lia.
Qed.

(** X9: for every name, the parsed model holds the rows of the MATRIX
    block with that name put together: their cleaned sequences one
    after the other in row order, with the range of the first of them;
    a name with no row is not in the model. *)
Theorem model_holds_rows_by_name document :
  exists nexus,
    NexusParser.parse document = Some nexus
    /\ forall k,
         Nexus.getTaxon nexus k
         = assembled k (filter (named k) (map snd (matrixRows document))).
Proof.
  eexists. split; [apply parse_fold|].
  intro k. apply fold_assembled.
Qed.

Section ModelTotal.

Lemma totalLength_set (m : JSMap.t Taxon.t) k v :
  totalLength (JSMap.values (JSMap.set m k v))
  + match JSMap.get m k with
    | Some existing => Taxon.length existing
    | None => 0
    end
  = totalLength (JSMap.values m) + Taxon.length v.
Proof.
  unfold totalLength, JSMap.values.
  induction m as [|[k' v'] m IH]; [cbn; lia|].
  cbn [JSMap.set JSMap.get].
  unfold list_sum in *.
  destruct (jsstring_eqb k' k); cbn [map snd fold_right] in *; lia.
Qed.

Lemma totalLength_add nexus taxon :
  totalLength (JSMap.values (Nexus.taxa (Nexus.addTaxon nexus taxon)))
  = totalLength (JSMap.values (Nexus.taxa nexus)) + Taxon.length taxon.
Proof.
  unfold Nexus.addTaxon.
  pose proof (totalLength_set (Nexus.taxa nexus) (Taxon.name taxon)) as H.
  destruct (JSMap.get (Nexus.taxa nexus) (Taxon.name taxon)) as [existing|];
    cbn [Nexus.taxa].
  - specialize (H (Taxon.concat existing (Taxon.sequence taxon))).
    assert (Hlen : Taxon.length (Taxon.concat existing (Taxon.sequence taxon))
                   = Taxon.length existing + Taxon.length taxon).
    { unfold Taxon.concat, Taxon.length, Sequence.length, Sequence.pushSequence.
      cbn [Taxon.sequence Sequence.bases]. apply length_app. }
    lia.
  - specialize (H taxon). lia.
Qed.

Lemma totalLength_fold rows : forall nexus,
  totalLength (JSMap.values (Nexus.taxa (fold_left Nexus.addTaxon rows nexus)))
  = totalLength (JSMap.values (Nexus.taxa nexus)) + totalLength rows.
Proof.
  induction rows as [|row rows IH]; intro nexus.
  - cbn [fold_left]. change (totalLength []) with 0. lia.
  - cbn [fold_left]. rewrite IH, totalLength_add.
    change (totalLength (row :: rows))
      with (Taxon.length row + totalLength rows). lia.
Qed.

End ModelTotal.

(** X10: putting the rows together loses and adds no character: the
    lengths of the taxa of the parsed model add up to the lengths of the
    cleaned sequences of the rows of the MATRIX block. *)
Theorem model_keeps_every_character document :
  exists nexus,
    NexusParser.parse document = Some nexus
    /\ totalLength (JSMap.values (Nexus.taxa nexus))
       = totalLength (map snd (matrixRows document)).
Proof.
  eexists. split; [apply parse_fold|].
  rewrite totalLength_fold. reflexivity.
Qed.

(* ================================================================== *)
(** ** Further properties: the pass *)
(* ================================================================== *)

Section PassProperties.
Variable document : TextDocument.

Lemma checkNtax_none m nexus :
  checkNtax document m nexus [] = []
  <-> match defined m with
      | Some definedNtax => N.of_nat (Nexus.ntax nexus) = definedNtax
      | None => True
      end.
Proof.
  unfold checkNtax. destruct m as [m|]; cbn [defined]; [|tauto].
  destruct (N.eqb_spec (N.of_nat (Nexus.ntax nexus))
              (parseInt match group m 1 with Some g => g | None => [] end))
    as [E|E]; cbn [negb]; split; try tauto; try discriminate.
Qed.

Lemma checkNchar_none m nexus :
  checkNchar document m nexus [] = []
  <-> match defined m with
      | Some definedNchar =>
          N.of_nat (Nexus.maxSequenceLength nexus) = definedNchar
      | None => True
      end.
Proof.
  unfold checkNchar. destruct m as [m|]; cbn [defined]; [|tauto].
  destruct (N.eqb_spec (N.of_nat (Nexus.maxSequenceLength nexus))
              (parseInt match group m 1 with Some g => g | None => [] end))
    as [E|E]; cbn [negb]; split; try tauto; try discriminate.
Qed.

Lemma checkRows_none definedNchar nexus :
  checkRows definedNchar nexus [] = []
  <-> match definedNchar with
      | Some n =>
          Forall (fun taxon => N.of_nat (Taxon.length taxon) = n)
                 (JSMap.values (Nexus.taxa nexus))
      | None => True
      end.
Proof.
  destruct definedNchar as [n|]; [|cbn; tauto].
  rewrite checkRows_flat_map. cbn [app].
  induction (JSMap.values (Nexus.taxa nexus)) as [|taxon taxa IH].
  - cbn. split; [constructor | reflexivity].
  - cbn [flat_map]. unfold rowWarning at 1.
    destruct (N.eqb_spec (N.of_nat (Taxon.length taxon)) n) as [E|E];
      cbn [negb app].
    + rewrite IH. split; [now constructor | now inversion 1].
    + split; [discriminate | inversion 1; contradiction].
Qed.

End PassProperties.

(** X11: when the pass completes, it publishes an empty list for the
    document exactly when the comment pass reports nothing, NTAX is
    absent or equal to the count of taxa of the model, and NCHAR is
    absent or equal both to the longest sequence length and to the
    length of every taxon. *)
Theorem no_diagnostic_iff document host structural ranges nexus :
  languageId document = "nexus"%string ->
  commentDiagnostics document [] = Some (structural, ranges) ->
  NexusParser.parse document = Some nexus ->
  let text := Document.getText document in
  diagnosticsOf document host = Some []
  <-> structural = []
      /\ match defined (exec ntaxRegex text) with
         | Some definedNtax => N.of_nat (Nexus.ntax nexus) = definedNtax
         | None => True
         end
      /\ match defined (exec ncharRegex text) with
         | Some definedNchar =>
             N.of_nat (Nexus.maxSequenceLength nexus) = definedNchar
             /\ Forall (fun taxon => N.of_nat (Taxon.length taxon) = definedNchar)
                       (JSMap.values (Nexus.taxa nexus))
         | None => True
         end.
Proof.
  intros Hl Hc Hp text. unfold diagnosticsOf.
  rewrite (validateNexus_nexus _ _ Hl), Hc, Hp. cbv zeta.
  cbn [fst collection Collection.get]. rewrite String.eqb_refl.
  unfold crossChecked. fold text.
  rewrite checkRows_app, checkNchar_app, checkNtax_app, <- !app_assoc.
  pose proof (checkNtax_none document (exec ntaxRegex text) nexus) as Hn.
  pose proof (checkNchar_none document (exec ncharRegex text) nexus) as Hm.
  pose proof (checkRows_none (defined (exec ncharRegex text)) nexus) as Hr.
  split.
  - intros [= H]. apply app_eq_nil in H as [Hs H].
    apply app_eq_nil in H as [H1 H]. apply app_eq_nil in H as [H2 H3].
    split; [exact Hs|]. split; [now apply Hn|].
    apply Hm in H2. apply Hr in H3.
    destruct (defined (exec ncharRegex text)); [now split | exact I].
  - intros (-> & H1 & H2). apply Hn in H1. rewrite H1. cbn [app].
    assert (H2' : checkNchar document (exec ncharRegex text) nexus [] = []
                  /\ checkRows (defined (exec ncharRegex text)) nexus [] = []).
    { split; [apply Hm | apply Hr];
        destruct (defined (exec ncharRegex text)); tauto. }
    destruct H2' as [-> ->]. reflexivity.
Qed.

Lemma no_diagnostic_iff_witness :
  diagnosticsOf cleanDocument (mkHost [] []) = Some [].
Proof.
  apply (proj2 (@no_diagnostic_iff cleanDocument (mkHost [] []) [] []
                  cleanModel eq_refl eq_refl eq_refl)).
  vm_compute. repeat split; repeat constructor.
Defined.

(** X12: when the model has a taxon, an NCHAR mismatch never comes
    alone: the pass that reports it also reports a per-taxon warning
    (the longest taxon, at least, has a length other than NCHAR). *)
Theorem nchar_mismatch_has_row_warning document host host' diagnostics nexus :
  languageId document = "nexus"%string ->
  validateNexus document host = (host', Returned) ->
  Collection.get (collection host') (uri document) = Some diagnostics ->
  NexusParser.parse document = Some nexus ->
  0 < Nexus.ntax nexus ->
  Exists NcharMismatch diagnostics ->
  Exists RowWarning diagnostics.
Proof.
  intros Hl. rewrite (validateNexus_nexus _ _ Hl).
  destruct (commentDiagnostics document []) as [[ds ranges]|] eqn:Ec;
    [|discriminate].
  cbv zeta. intros Hv Hg Hp Hn Hex. rewrite Hp in Hv.
  injection Hv as <-. cbn [collection Collection.get] in Hg.
  rewrite String.eqb_refl in Hg. injection Hg as <-.
  unfold crossChecked in *.
  set (text := Document.getText document) in *.
  rewrite checkRows_app, checkNchar_app, checkNtax_app, <- !app_assoc in Hex |- *.
  apply Exists_app in Hex as [Hex|Hex].
  { apply Exists_exists in Hex as (d & Hin & Hd).
    apply commentDiagnostics_structural in Ec. rewrite Forall_forall in Ec.
    destruct (proj1 (kinds_disjoint d) (Ec d Hin)) as (_ & Hno & _).
    contradiction. }
  apply Exists_app in Hex as [Hex|Hex].
  { apply Exists_exists in Hex as (d & Hin & Hd).
    destruct (checkNtax_kind document (exec ntaxRegex text) nexus) as [F _].
    rewrite Forall_forall in F.
    destruct (proj1 (proj2 (kinds_disjoint d)) (F d Hin)) as (Hno & _).
    contradiction. }
  apply Exists_app in Hex as [Hex|Hex].
  2:{ apply Exists_exists in Hex as (d & Hin & Hd).
      pose proof (checkRows_kind (defined (exec ncharRegex text)) nexus) as F.
      rewrite Forall_forall in F.
      elim (proj2 (proj2 (kinds_disjoint d)) Hd). now apply F. }
  do 3 (apply Exists_app; right).
  assert (Hne : checkNchar document (exec ncharRegex text) nexus [] <> [])
    by (intro E; rewrite E in Hex; inversion Hex).
  assert (Hrows : checkRows (defined (exec ncharRegex text)) nexus [] <> []).
  { intro E. apply Hne. apply checkNchar_none. apply checkRows_none in E.
    destruct (defined (exec ncharRegex text)) as [n|]; [|exact I].
    assert (Hmax := @longest_attained nexus).
    unfold Nexus.ntax, JSMap.size in Hn.
    destruct (JSMap.values (Nexus.taxa nexus)) as [|taxon taxa] eqn:Ev.
    - unfold JSMap.values in Ev. apply map_eq_nil in Ev. rewrite Ev in Hn.
      cbn in Hn. lia.
    - specialize (Hmax ltac:(discriminate)).
      apply Exists_exists in Hmax as (t & Hin & Hlen).
      rewrite Forall_forall in E. rewrite <- Hlen. now apply E. }
  pose proof (checkRows_kind (defined (exec ncharRegex text)) nexus) as F.
  destruct (checkRows (defined (exec ncharRegex text)) nexus []) as [|d rows];
    [now elim Hrows|].
  apply Exists_cons_hd. now inversion F.
Qed.

Lemma nchar_mismatch_has_row_warning_witness :
  Exists RowWarning interleavedDiagnostics.
Proof.
  apply (@nchar_mismatch_has_row_warning interleavedDocument (mkHost [] [])
           (mkHost [(uri interleavedDocument, interleavedDiagnostics)] [])
           interleavedDiagnostics interleavedModel
           eq_refl eq_refl eq_refl eq_refl).
  - vm_compute. lia.
  - apply Exists_cons_hd. exact (NcharMismatch_intro _ 4 5).
Defined.

(** X13: a pass over a NEXUS document clears the whole collection
    first, so after it the collection holds nothing for any other
    document, whatever it held before; a pass over a document of
    another language leaves the host as it is. *)
Theorem pass_drops_other_documents document host :
  (languageId document = "nexus"%string ->
   forall u, u <> uri document ->
             Collection.get (collection (fst (validateNexus document host))) u
             = None)
  /\ (languageId document <> "nexus"%string ->
      validateNexus document host = (host, Returned)).
Proof.
  split; [|apply validateNexus_other].
  intros Hl u Hu. rewrite (validateNexus_nexus _ _ Hl).
  destruct (commentDiagnostics document []) as [[ds ranges]|]; [|reflexivity].
  cbv zeta. destruct (NexusParser.parse document); [|reflexivity].
  cbn [fst collection Collection.get].
  destruct (String.eqb_spec (uri document) u); [now elim Hu | reflexivity].
Qed.

Lemma pass_drops_other_documents_witness :
  (forall u, u <> uri cleanDocument ->
             Collection.get
               (collection
                  (fst (validateNexus cleanDocument
                          (mkHost [(uri plainDocument, manyFaultsStructural)] []))))
               u = None)
  /\ validateNexus plainDocument (mkHost [] []) = (mkHost [] [], Returned).
Proof.
  split.
  - exact (proj1 (@pass_drops_other_documents cleanDocument
                    (mkHost [(uri plainDocument, manyFaultsStructural)] []))
             eq_refl).
  - apply (proj2 (@pass_drops_other_documents plainDocument (mkHost [] []))).
    discriminate.
Defined.

(** A pass over a NEXUS document throws exactly when the scan ends
    inside a quote and the last line of the document is empty. *)
Lemma pass_threw document host :
  languageId document = "nexus"%string ->
  snd (validateNexus document host) = Threw
  <-> (exists stack found,
          scanComments document (Document.getText document) 0 [] false []
          = Some (stack, true, found))
      /\ last (moreLines document) (firstLine document) = [].
Proof.
  intro Hl. rewrite (validateNexus_nexus _ _ Hl).
  destruct (scanComments_spec document (Document.getText document) 0 [] false)
    as (stack & inQuote & found & _ & E).
  specialize (E []). cbn [app] in E.
  destruct (commentDiagnostics_scan document E) as (unclosed & _ & _ & Ec).
  rewrite positionAt_end in Ec. cbn [Position.character Position.line] in Ec.
  destruct (parse_some document) as [nexus Hp].
  rewrite Ec, Hp, E.
  destruct inQuote.
  - destruct (last (moreLines document) (firstLine document)) as [|c l] eqn:El;
      cbn [List.length].
    + split; [|reflexivity].
      intros _. split; [now exists stack, found | reflexivity].
    + cbv zeta. cbn [snd fst].
      split; [discriminate | intros [_ H]; discriminate H].
  - cbv zeta. cbn [snd fst].
    split; [discriminate|]. intros [(s & f & H) _]. discriminate H.
Qed.

(** X14: a pass over a NEXUS document throws exactly when the scan ends
    inside a quote and the last line of the document is empty; the
    parser and the cross-checks never throw.  A pass that throws leaves
    the collection empty and the editors as they were. *)
Theorem pass_throws_iff document host :
  languageId document = "nexus"%string ->
  (snd (validateNexus document host) = Threw
   <-> (exists stack found,
           scanComments document (Document.getText document) 0 [] false []
           = Some (stack, true, found))
       /\ last (moreLines document) (firstLine document) = [])
  /\ (snd (validateNexus document host) = Threw ->
      fst (validateNexus document host)
      = mkHost [] (visibleTextEditors host)).
Proof.
  intro Hl. split; [exact (pass_threw document host Hl)|].
  rewrite (validateNexus_nexus _ _ Hl).
  destruct (commentDiagnostics document []) as [[ds ranges]|]; [|reflexivity].
  cbv zeta. destruct (parse_some document) as [nexus ->]. discriminate.
Qed.

Lemma pass_throws_iff_witness :
  validateNexus openQuoteDocument (mkHost [] []) = (mkHost [] [], Threw).
Proof.
  destruct (@pass_throws_iff openQuoteDocument (mkHost [] []) eq_refl)
    as [Hthrows Hleft].
  assert (Hthrew : snd (validateNexus openQuoteDocument (mkHost [] [])) = Threw).
  { apply Hthrows. split; [|reflexivity]. eexists. eexists. reflexivity. }
  rewrite (surjective_pairing (validateNexus openQuoteDocument (mkHost [] []))).
  now rewrite Hthrew, (Hleft Hthrew).
Defined.

(* ================================================================== *)
(** ** Further properties: the rows of the parser *)
(* ================================================================== *)

Section RowPattern.

Lemma iterate_consumes step greedy fuel :
  consumes step -> consumes (iterate step greedy fuel).
Proof.
  intro Hstep. induction fuel as [|fuel IH]; intros s s' Hin.
  - destruct Hin as [<-|[]]. exists []. cbn. split; [reflexivity | lia].
  - cbn [iterate] in Hin.
    assert (Hcases : s' = s
                     \/ In s' (flat_map
                                 (fun x => if (pos s <? pos x)%nat
                                           then iterate step greedy fuel x
                                           else []) (step s))).
    { destruct greedy.
      - apply in_app_or in Hin as [Hin|[<-|[]]]; [now right | now left].
      - destruct Hin as [<-|Hin]; [now left | now right]. }
    destruct Hcases as [->|Hmore];
      [exists []; cbn; split; [reflexivity | lia]|].
    apply in_flat_map in Hmore as (x & Hx & Hin').
    destruct (pos s <? pos x)%nat; [|destruct Hin'].
    destruct (Hstep _ _ Hx) as (c1 & E1 & P1).
    destruct (IH _ _ Hin') as (c2 & E2 & P2).
    exists (c1 ++ c2). rewrite E1, E2, app_assoc, length_app.
    split; [reflexivity | lia].
Qed.

Lemma matches_consumes r : consumes (matches r).
Proof.
  induction r as [| p | a IHa b IHb | a IHa b IHb | greedy r IH | k r IH | | |];
    intros s s' Hin; cbn [matches] in Hin.
  - destruct Hin as [<-|[]]. exists []. cbn. split; [reflexivity | lia].
  - destruct (rest s) as [|c t]; [destruct Hin|].
    destruct (p c); [|destruct Hin]. destruct Hin as [<-|[]].
    exists [c]. cbn. split; [reflexivity | lia].
  - apply in_flat_map in Hin as (x & Hx & Hin).
    destruct (IHa _ _ Hx) as (c1 & E1 & P1).
    destruct (IHb _ _ Hin) as (c2 & E2 & P2).
    exists (c1 ++ c2). rewrite E1, E2, app_assoc, length_app.
    split; [reflexivity | lia].
  - apply in_app_or in Hin as [Hin|Hin]; [now apply IHa | now apply IHb].
  - exact (@iterate_consumes (matches r) greedy _ IH s s' Hin).
  - apply in_map_iff in Hin as (x & <- & Hx). exact (IH _ _ Hx).
  - destruct (pos s =? 0)%nat; [|destruct Hin].
    destruct Hin as [<-|[]]. exists []. cbn. split; [reflexivity | lia].
  - destruct (rest s) eqn:E; [|destruct Hin].
    destruct Hin as [<-|[]]. exists []. rewrite E. cbn. split; [reflexivity | lia].
  - destruct (xorb _ _); [|destruct Hin].
    destruct Hin as [<-|[]]. exists []. cbn. split; [reflexivity | lia].
Qed.

(** The state a search reports a match from is at a suffix of the text. *)
Lemma exec_from_suffix r text ahead : forall before i m pre,
  text = pre ++ ahead -> List.length pre = i ->
  exec_from r text before ahead i = Some m ->
  exists j before' ahead' pre' s others,
    text = pre' ++ ahead' /\ List.length pre' = j
    /\ matches r (mkState j before' ahead' []) = s :: others
    /\ m = mkMatch text j (pos s) (caps s).
Proof.
  induction ahead as [|c ahead IH]; intros before i m pre Ht Hi;
    cbn [exec_from];
    destruct (matches r (mkState i before _ [])) as [|s others] eqn:Em.
  - discriminate.
  - intros [= <-]. now exists i, before, [], pre, s, others.
  - intro H. apply (IH _ _ _ (pre ++ [c])) in H; [exact H | |].
    + now rewrite <- app_assoc.
    + rewrite length_app. cbn. lia.
  - intros [= <-]. now exists i, before, (c :: ahead), pre, s, others.
Qed.

(** A step with no group leaves the captures as they are. *)
Lemma no_group_caps r s s' :
  groups_of r = [] -> In s' (matches r s) -> caps s' = caps s.
Proof.
  intros Hg Hin. destruct (@matches_records r s s' Hin) as (extra & -> & F).
  rewrite Hg in F. destruct extra as [|e extra]; [reflexivity|].
  inversion F as [|? ? []].
Qed.

(** One or more characters of a class consume at least one. *)
Lemma plus_advances n p s s' :
  consistent n s -> In s' (matches (Plus (Char p)) s) ->
  pos s < pos s' <= n.
Proof.
  intros Hc Hin.
  destruct (@matches_forward n (Plus (Char p)) s s' Hc Hin) as [Hc' _].
  unfold Plus in Hin. cbn [matches] in Hin.
  apply in_flat_map in Hin as (y & Hy & Hin).
  destruct (char_advances _ _ _ Hy) as [Hpos _].
  assert (Hcy : consistent n y)
    by exact (proj1 (@matches_forward n (Char p) s y Hc Hy)).
  destruct (@matches_forward n (Star true (Char p)) y s' Hcy Hin) as [_ Hle].
  unfold consistent in Hc'. lia.
Qed.

Lemma rowRegex_nameBound n s0 s :
  consistent n s0 -> caps s0 = [] ->
  In s (matches rowRegex s0) ->
  nameBound n s.
Proof.
  intros H0 Hcaps Hin. unfold rowRegex in Hin. cbn [matches] in Hin.
  apply in_flat_map in Hin as (s1 & Hs1 & Hin).
  assert (H1 : consistent n s1 /\ caps s1 = []).
  { destruct (pos s0 =? 0)%nat; [|destruct Hs1]. now destruct Hs1 as [<-|[]]. }
  clear Hs1 H0 Hcaps s0. destruct H1 as [H1 Hcaps1].
  apply in_flat_map in Hin as (s2 & Hs2 & Hin).
  assert (H2 : consistent n s2)
    by exact (proj1 (@matches_forward n (Star true Space) s1 s2 H1 Hs2)).
  assert (Hcaps2 : caps s2 = []).
  { rewrite <- Hcaps1. now apply (@no_group_caps (Star true Space)). }
  clear Hs2 H1 Hcaps1 s1.
  apply in_flat_map in Hin as (s3 & Hs3 & Hin).
  assert (Htail : cap_lookup 2 (caps s) = cap_lookup 2 (caps s3)
                  /\ cap_lookup 3 (caps s) = cap_lookup 3 (caps s3)).
  { destruct (@matches_records
                (Seq (Plus Space) (Seq (Group 4 (Star true Dot)) AssertEnd))
                s3 s Hin) as (extra & -> & F).
    split; apply cap_lookup_other; eapply Forall_impl; try exact F;
      cbn; intros e [<-|[]]; discriminate. }
  clear Hin. unfold nameBound. destruct Htail as [-> ->].
  apply in_map_iff in Hs3 as (x & <- & Hx).
  cbn [set_cap caps cap_lookup Nat.eqb].
  apply in_app_or in Hx as [Hx|Hx].
  - left.
    apply in_flat_map in Hx as (q1 & Hq1 & Hx).
    apply in_flat_map in Hx as (g & Hg & Hx).
    destruct (char_advances _ _ _ Hx) as [_ ->].
    apply in_map_iff in Hg as (z & <- & Hz).
    cbn [set_cap caps cap_lookup Nat.eqb].
    exists (pos q1), (pos z). split; [reflexivity|].
    assert (Hc1 : consistent n q1)
      by exact (proj1 (@matches_forward n (Lit false QUOTE) s2 q1 H2 Hq1)).
    exact (@plus_advances n _ q1 z Hc1 Hz).
  - right. apply in_map_iff in Hx as (z & <- & Hz).
    cbn [set_cap caps cap_lookup Nat.eqb].
    rewrite (@no_group_caps (Plus NonSpace) s2 z eq_refl Hz), Hcaps2.
    split; [reflexivity|].
    exists (pos s2), (pos z). split; [reflexivity|].
    exact (@plus_advances n _ s2 z H2 Hz).
Qed.

Lemma matches_seq a b s s' :
  In s' (matches (Seq a b) s) ->
  exists x, In x (matches a s) /\ In s' (matches b x).
Proof. cbn [matches]. intro Hin. now apply in_flat_map in Hin. Qed.

(** A row match needs a whitespace character in the text. *)
Lemma rowRegex_needs_space s0 s :
  In s (matches rowRegex s0) ->
  Exists (fun c => is_whitespace c = true) (rest s0).
Proof.
  intro Hin. unfold rowRegex in Hin.
  apply matches_seq in Hin as (s1 & Hs1 & Hin).
  destruct (@matches_consumes _ s0 s1 Hs1) as (c1 & -> & _).
  apply matches_seq in Hin as (s2 & Hs2 & Hin).
  destruct (@matches_consumes _ s1 s2 Hs2) as (c2 & -> & _).
  apply matches_seq in Hin as (s3 & Hs3 & Hin).
  destruct (@matches_consumes _ s2 s3 Hs3) as (c3 & -> & _).
  do 3 (apply Exists_app; right).
  apply matches_seq in Hin as (s4 & Hs4 & _).
  unfold Plus in Hs4.
  apply matches_seq in Hs4 as (y & Hy & _).
  cbn [matches Space] in Hy.
  destruct (rest s3) as [|c t]; [destruct Hy|].
  destruct (is_whitespace c) eqn:Ec; [|destruct Hy].
  now apply Exists_cons_hd.
Qed.

End RowPattern.

(** The name of a data row has at least one character. *)
Lemma rowOf_named (line : TextLine.t) (taxon : Taxon.t) :
  NexusParser.rowOf line = Some taxon -> Taxon.name taxon <> [].
Proof.
  unfold NexusParser.rowOf.
  destruct (_ || _); [discriminate|].
  destruct (exec rowRegex (TextLine.text line)) as [m|] eqn:Em; [|discriminate].
  apply (@exec_from_suffix _ _ _ None 0 m []) in Em; try reflexivity.
  destruct Em as (j & before' & ahead' & pre' & s & others & Ht & Hj & Es & ->).
  assert (Hc : consistent (List.length (TextLine.text line))
                 (mkState j before' ahead' [])).
  { unfold consistent. cbn. rewrite Ht, length_app. lia. }
  assert (Hin : In s (matches rowRegex (mkState j before' ahead' [])))
    by (rewrite Es; now left).
  destruct (@rowRegex_nameBound _ _ _ Hc eq_refl Hin)
    as [(a & b & H2 & Hab)|(H2 & a & b & H3 & Hab)];
    unfold NexusParser.orElse, group; cbn [groups input]; rewrite H2.
  - destruct (substring (TextLine.text line) a b) as [|c name] eqn:En;
      [now apply substring_nonempty in En|].
    intros [= <-]. discriminate.
  - rewrite H3.
    destruct (substring (TextLine.text line) a b) as [|c name] eqn:En;
      [now apply substring_nonempty in En|].
    intros [= <-]. discriminate.
Qed.

(** X15: a data row has a name of at least one character, a cleaned
    sequence with no whitespace character, and the range of its line. *)
Theorem row_has_name_and_clean_sequence (line : TextLine.t) (taxon : Taxon.t) :
  NexusParser.rowOf line = Some taxon ->
  Taxon.name taxon <> []
  /\ Forall (fun c => is_whitespace c = false)
            (Sequence.bases (Taxon.sequence taxon))
  /\ Taxon.lineRange taxon = TextLine.range line.
Proof.
  intro Hrow. split; [exact (rowOf_named _ Hrow)|].
  unfold NexusParser.rowOf in Hrow.
  destruct (_ || _); [discriminate|].
  destruct (exec rowRegex (TextLine.text line)) as [m|]; [|discriminate].
  destruct (NexusParser.orElse _ _) as [name|]; [|discriminate].
  injection Hrow as <-. cbn. split; [|reflexivity].
  apply remove_whitespace_clean.
Qed.

Lemma row_has_name_and_clean_sequence_witness :
  Taxon.name quotedTaxon <> []
  /\ Forall (fun c => is_whitespace c = false)
            (Sequence.bases (Taxon.sequence quotedTaxon))
  /\ Taxon.lineRange quotedTaxon = TextLine.range quotedRow.
Proof.
  exact (@row_has_name_and_clean_sequence quotedRow quotedTaxon eq_refl).
Defined.

(** X16: a line with no whitespace character is never a data row: the
    parser passes over it. *)
Theorem line_without_space_is_no_row (line : TextLine.t) :
  Forall (fun c => is_whitespace c = false) (TextLine.text line) ->
  NexusParser.rowOf line = None.
Proof.
  intro Hno. unfold NexusParser.rowOf.
  destruct (_ || _); [reflexivity|].
  destruct (exec rowRegex (TextLine.text line)) as [m|] eqn:Em; [|reflexivity].
  exfalso.
  apply (@exec_from_suffix _ _ _ None 0 m []) in Em; try reflexivity.
  destruct Em as (j & before' & ahead' & pre' & s & others & Ht & _ & Es & _).
  assert (Hin : In s (matches rowRegex (mkState j before' ahead' [])))
    by (rewrite Es; now left).
  apply rowRegex_needs_space in Hin. cbn [rest] in Hin.
  apply Exists_exists in Hin as (c & Hc & Hws).
  rewrite Forall_forall in Hno.
  rewrite (Hno c) in Hws; [discriminate|].
  rewrite Ht. apply in_or_app. now right.
Qed.

Lemma line_without_space_is_no_row_witness :
  NexusParser.rowOf bareLine = None.
Proof.
  apply line_without_space_is_no_row. repeat constructor.
Defined.

Section ModelEntries.

Lemma entries_add (nexus : Nexus.t) (row : Taxon.t) :
  Forall entryClean (Nexus.taxa nexus) ->
  entryClean (Taxon.name row, row) ->
  Forall entryClean (Nexus.taxa (Nexus.addTaxon nexus row)).
Proof.
  intros Hm Hrow. rewrite Forall_forall in *. intros [k t] Hin.
  unfold Nexus.addTaxon in Hin.
  destruct (JSMap.get (Nexus.taxa nexus) (Taxon.name row)) as [existing|] eqn:Eg;
    cbn [Nexus.taxa] in Hin; apply JSMap_in_set in Hin as [[-> ->]|Hin];
    try (now apply Hm); [|exact Hrow].
  destruct (Hm _ (JSMap_get_in _ _ Eg)) as (Hk & Hn & Hb).
  destruct Hrow as (_ & _ & Hr). cbn in *.
  repeat split; [exact Hk | exact Hn |].
  apply Forall_app. now split.
Qed.

Lemma entries_fold (rows : list Taxon.t) :
  Forall (fun row => entryClean (Taxon.name row, row)) rows ->
  Forall entryClean (Nexus.taxa (fold_left Nexus.addTaxon rows Nexus.empty)).
Proof.
  induction rows as [|row rows IH] using rev_ind; intro Hrows; [constructor|].
  apply Forall_app in Hrows as [Hrows Hrow].
  rewrite fold_left_app. cbn [fold_left].
  apply entries_add; [now apply IH | now inversion Hrow].
Qed.

End ModelEntries.

(** X17: every taxon of the parsed model is stored under its own name,
    which has at least one character, and its sequence holds no
    whitespace character. *)
Theorem model_entries_clean (document : TextDocument) :
  exists nexus,
    NexusParser.parse document = Some nexus
    /\ Forall entryClean (Nexus.taxa nexus).
Proof.
  eexists. split; [apply parse_fold|].
  apply entries_fold. apply Forall_forall. intros row Hrow.
  apply in_map_iff in Hrow as ([j taxon] & <- & Hin).
  destruct (matrixRows_line _ _ _ Hin) as (line & _ & Hrow & _).
  cbn [snd]. unfold entryClean. cbn [fst snd].
  split; [exact (rowOf_named _ Hrow)|]. split; [reflexivity|].
  unfold NexusParser.rowOf in Hrow.
  destruct (_ || _); [discriminate|].
  destruct (exec rowRegex (TextLine.text line)) as [m|]; [|discriminate].
  destruct (NexusParser.orElse _ _) as [name|]; [|discriminate].
  injection Hrow as <-. cbn. apply remove_whitespace_clean.
Qed.

(* ================================================================== *)
(** ** Further properties: activation and the events of a session *)
(* ================================================================== *)

Section Session.

(** What a pass publishes does not depend on the host it starts from. *)
Lemma pass_collection document host :
  languageId document = "nexus"%string ->
  collection (fst (validateNexus document host)) = published document.
Proof.
  intro Hl. unfold published. rewrite !(validateNexus_nexus _ _ Hl).
  destruct (commentDiagnostics document []) as [[ds ranges]|]; [|reflexivity].
  cbv zeta. now destruct (NexusParser.parse document).
Qed.

Lemma fire_collection host event :
  collection (fire host event)
  = match lastNexus [event] None with
    | Some document => published document
    | None => collection host
    end.
Proof.
  unfold fire, onDidChangeActiveTextEditor, onDidChangeTextDocument.
  cbn [lastNexus documentOf].
  assert (Hpass : forall document,
             collection (fst (validateNexus document host))
             = if String.eqb (languageId document) "nexus"
               then published document else collection host).
  { intro document.
    destruct (String.eqb_spec (languageId document) "nexus") as [Hl|Hl].
    - now apply pass_collection.
    - now rewrite (validateNexus_other _ _ Hl). }
  destruct event as [[document|]|document]; cbn [documentOf];
    try rewrite Hpass; try reflexivity;
    now destruct (String.eqb (languageId document) "nexus").
Qed.

Lemma deliver_collection events : forall host seen held,
  collection host
  = match seen with Some document => published document | None => held end ->
  collection (deliver events host)
  = match lastNexus events seen with
    | Some document => published document
    | None => held
    end.
Proof.
  induction events as [|event events IH]; intros host seen held Hhost;
    [exact Hhost|].
  cbn [deliver fold_left lastNexus]. apply IH.
  rewrite fire_collection. cbn [lastNexus].
  destruct (documentOf event) as [document|]; [|exact Hhost].
  destruct (String.eqb (languageId document) "nexus"); [reflexivity | exact Hhost].
Qed.

Lemma published_single document : List.length (published document) <= 1.
Proof.
  unfold published, validateNexus.
  destruct (negb _); [cbn; lia|].
  destruct (validateComments _ _ _) as [[ds editors]|]; [|cbn; lia].
  cbv zeta. destruct (NexusParser.parse document); cbn; lia.
Qed.

End Session.

(** X18: after any run of events the collection holds what one pass
    over the last NEXUS document of the run publishes, and nothing for
    an earlier document: at most one entry.  With no NEXUS document in
    the run the collection is as it was. *)
Theorem collection_holds_last_document (events : list Event) (host : Host) :
  collection (deliver events host)
  = match lastNexus events None with
    | Some document => published document
    | None => collection host
    end
  /\ match lastNexus events None with
     | Some document =>
         List.length (collection (deliver events host)) <= 1
         /\ forall u, u <> uri document ->
                      Collection.get (collection (deliver events host)) u = None
     | None => True
     end.
Proof.
  assert (E := @deliver_collection events host None (collection host) eq_refl).
  split; [exact E|].
  destruct (lastNexus events None) as [document|] eqn:El; [|exact I].
  rewrite E. split; [apply published_single|].
  intros u Hu. unfold published, validateNexus.
  destruct (negb _); [reflexivity|].
  destruct (validateComments _ _ _) as [[ds editors]|]; [|reflexivity].
  cbv zeta. destruct (NexusParser.parse document); [|reflexivity].
  cbn. destruct (String.eqb_spec (uri document) u); [now elim Hu | reflexivity].
Qed.

(** X19: [activate] throws exactly when the active editor shows a NEXUS
    document whose scan ends inside a quote and whose last line is
    empty; the two listeners are then never registered.  Otherwise the
    output channel and both listeners are subscribed, in that order. *)
Theorem activation_registers_listeners (activeTextEditor : option TextDocument)
                                       (visible : list TextEditor) :
  let '(host, subscriptions, completion) := activate activeTextEditor visible in
  (completion = Threw
   <-> exists document,
         activeTextEditor = Some document
         /\ languageId document = "nexus"%string
         /\ (exists stack found,
                scanComments document (Document.getText document) 0 [] false []
                = Some (stack, true, found))
         /\ last (moreLines document) (firstLine document) = [])
  /\ subscriptions
     = match completion with
       | Threw => [OutputChannel]
       | Returned =>
           [OutputChannel; ActiveTextEditorListener; TextDocumentListener]
       end.
Proof.
  unfold activate. destruct activeTextEditor as [document|].
  - destruct (String.eqb_spec (languageId document) "nexus") as [Hl|Hl].
    + assert (Ht := pass_threw document (mkHost [] visible) Hl).
      destruct (validateNexus document (mkHost [] visible)) as [host [|]];
        cbn [snd] in Ht; cbv zeta; split; try reflexivity.
      * split; [discriminate|].
        intros (d & [= <-] & _ & Hq). now apply Ht in Hq.
      * split; [|reflexivity]. intros _. exists document.
        split; [reflexivity|]. split; [exact Hl|]. now apply Ht.
    + rewrite (validateNexus_other _ _ Hl). cbv zeta.
      split; [|reflexivity]. split; [discriminate|].
      intros (d & [= <-] & Hd & _). contradiction.
  - cbv zeta. split; [|reflexivity]. split; [discriminate|].
    intros (d & Hd & _). discriminate Hd.
Qed.

(* ================================================================== *)
(** ** Further properties: the header counts and their ranges *)
(* ================================================================== *)

Section Positions.

Lemma locate_line_from e ls : forall l0 lineNo offset,
  lineNo <= Position.line (Document.locate e l0 ls lineNo offset).
Proof.
  induction ls as [|l1 ls IH]; intros l0 lineNo offset; cbn [Document.locate].
  - cbn. lia.
  - destruct (offset <? _); [cbn; lia|].
    specialize (IH l1 (S lineNo) (offset - (List.length l0 + eol_length e))).
    lia.
Qed.

Lemma same_line_forward lineNo a b len :
  a <= b ->
  Position.isBefore (Position.make lineNo (Nat.min b len))
                    (Position.make lineNo (Nat.min a len)) = false.
Proof.
  intro Hab. unfold Position.isBefore.
  cbn [Position.line Position.character].
  rewrite Nat.ltb_irrefl, Nat.eqb_refl. cbn [orb andb].
  apply Nat.ltb_ge. lia.
Qed.

Lemma locate_forward e ls : forall l0 lineNo a b,
  a <= b ->
  Position.isBefore (Document.locate e l0 ls lineNo b)
                    (Document.locate e l0 ls lineNo a) = false.
Proof.
  induction ls as [|l1 ls IH]; intros l0 lineNo a b Hab; cbn [Document.locate].
  - now apply same_line_forward.
  - destruct (Nat.ltb_spec b (List.length l0 + eol_length e)) as [Hb|Hb];
      destruct (Nat.ltb_spec a (List.length l0 + eol_length e)) as [Ha|Ha];
      try lia.
    + now apply same_line_forward.
    + assert (Hl := locate_line_from e ls l1 (S lineNo)
                      (b - (List.length l0 + eol_length e))).
      unfold Position.isBefore. cbn [Position.line Position.character].
      destruct (Nat.ltb_spec
                  (Position.line
                     (Document.locate e l1 ls (S lineNo)
                        (b - (List.length l0 + eol_length e)))) lineNo);
        [lia|].
      destruct (Nat.eqb_spec
                  (Position.line
                     (Document.locate e l1 ls (S lineNo)
                        (b - (List.length l0 + eol_length e)))) lineNo);
        [lia | reflexivity].
    + apply IH. lia.
Qed.

End Positions.

(** X20: the range of a match runs from the position of its first
    character to the position after its last, as given: the positions
    of a document go forward with the offsets, so the constructor of
    the range never has to swap its ends. *)
Theorem match_range_forward (document : TextDocument) (m : Match) :
  getRangeFromMatch document m
  = Range.mk (Document.positionAt document (index m))
             (Document.positionAt document (index m + List.length (whole m)))
  /\ Position.line (Range.start (getRangeFromMatch document m))
     <= Position.line (Range.end_ (getRangeFromMatch document m)).
Proof.
  assert (Hf : Position.isBefore
                 (Document.positionAt document (index m + List.length (whole m)))
                 (Document.positionAt document (index m)) = false).
  { unfold Document.positionAt. apply locate_forward. lia. }
  unfold getRangeFromMatch. cbv zeta. unfold Range.make. rewrite Hf.
  split; [reflexivity|]. cbn [Range.start Range.end_].
  unfold Position.isBefore in Hf.
  apply orb_false_iff in Hf as [Hf _]. apply Nat.ltb_ge in Hf. exact Hf.
Qed.

Section HeaderPattern.








End HeaderPattern.



(** The engine's reading of a run that spells more than a double holds. *)
Example declared_count_rounded :
  parseInt (lit "9007199254740993") = 9007199254740992%N
  /\ showNum (parseInt (lit "9007199254740993")) = "9007199254740992"%string
  /\ showNum (parseInt (lit "100000000000000000000000")) = "1e+23"%string
  /\ showNum (parseInt (lit "18446744073709551616"))
     = "18446744073709552000"%string.
Proof. repeat split; vm_compute; reflexivity. Qed.

(* ================================================================== *)
(** ** Further properties: the lines of the MATRIX statement *)
(* ================================================================== *)

Section MatrixStatement.

Lemma spans_weaken (lo lo' hi hi' : nat) (extra : list (nat * (nat * nat))) :
  lo' <= lo -> hi <= hi' ->
  Forall (fun e => lo <= fst (snd e) /\ fst (snd e) <= snd (snd e)
                   /\ snd (snd e) <= hi) extra ->
  Forall (fun e => lo' <= fst (snd e) /\ fst (snd e) <= snd (snd e)
                   /\ snd (snd e) <= hi') extra.
Proof.
  intros Hlo Hhi F. eapply Forall_impl; [|exact F]. cbn. intros e H. lia.
Qed.

Lemma iterate_spans step greedy fuel :
  spans step -> spans (iterate step greedy fuel).
Proof.
  intro Hstep. induction fuel as [|fuel IH]; intros s s' Hin.
  - destruct Hin as [<-|[]]. split; [lia|]. exists []. now split.
  - cbn [iterate] in Hin.
    assert (Hcases : s' = s
                     \/ In s' (flat_map
                                 (fun x => if (pos s <? pos x)%nat
                                           then iterate step greedy fuel x
                                           else []) (step s))).
    { destruct greedy.
      - apply in_app_or in Hin as [Hin|[<-|[]]]; [now right | now left].
      - destruct Hin as [<-|Hin]; [now left | now right]. }
    destruct Hcases as [->|Hmore];
      [split; [lia|]; exists []; now split|].
    apply in_flat_map in Hmore as (x & Hx & Hin').
    destruct (pos s <? pos x)%nat; [|destruct Hin'].
    destruct (Hstep _ _ Hx) as (P1 & e1 & E1 & F1).
    destruct (IH _ _ Hin') as (P2 & e2 & E2 & F2).
    split; [lia|]. exists (e2 ++ e1). rewrite E2, E1, app_assoc.
    split; [reflexivity|]. apply Forall_app. split.
    + apply (@spans_weaken (pos x) (pos s) (pos s') (pos s')); [lia | lia | exact F2].
    + apply (@spans_weaken (pos s) (pos s) (pos x) (pos s')); [lia | lia | exact F1].
Qed.

Lemma matches_spans r : spans (matches r).
Proof.
  induction r as [| p | a IHa b IHb | a IHa b IHb | greedy r IH | k r IH | | |];
    intros s s' Hin; cbn [matches] in Hin.
  - destruct Hin as [<-|[]]. split; [lia|]. exists []. now split.
  - destruct (rest s) as [|c t]; [destruct Hin|].
    destruct (p c); [|destruct Hin]. destruct Hin as [<-|[]].
    cbn. split; [lia|]. exists []. now split.
  - apply in_flat_map in Hin as (x & Hx & Hin).
    destruct (IHa _ _ Hx) as (P1 & e1 & E1 & F1).
    destruct (IHb _ _ Hin) as (P2 & e2 & E2 & F2).
    split; [lia|]. exists (e2 ++ e1). rewrite E2, E1, app_assoc.
    split; [reflexivity|]. apply Forall_app. split.
    + apply (@spans_weaken (pos x) (pos s) (pos s') (pos s')); [lia | lia | exact F2].
    + apply (@spans_weaken (pos s) (pos s) (pos x) (pos s')); [lia | lia | exact F1].
  - apply in_app_or in Hin as [Hin|Hin]; [now apply IHa | now apply IHb].
  - exact (@iterate_spans (matches r) greedy _ IH s s' Hin).
  - apply in_map_iff in Hin as (x & <- & Hx).
    destruct (IH _ _ Hx) as (P1 & e1 & E1 & F1).
    cbn [set_cap pos caps]. split; [lia|].
    exists ((k, (pos s, pos x)) :: e1). rewrite E1. split; [reflexivity|].
    constructor; [cbn; lia | exact F1].
  - destruct (pos s =? 0)%nat; [|destruct Hin].
    destruct Hin as [<-|[]]. split; [lia|]. exists []. now split.
  - destruct (rest s); [|destruct Hin].
    destruct Hin as [<-|[]]. split; [lia|]. exists []. now split.
  - destruct (xorb _ _); [|destruct Hin].
    destruct Hin as [<-|[]]. split; [lia|]. exists []. now split.
Qed.

Lemma cap_lookup_in k cs a b :
  cap_lookup k cs = Some (a, b) -> In (k, (a, b)) cs.
Proof.
  induction cs as [|[m v] cs IH]; cbn; [discriminate|].
  destruct (Nat.eqb_spec m k) as [->|_].
  - intros [= ->]. now left.
  - intro H. right. now apply IH.
Qed.

(** The groups of a match lie within the match. *)
Lemma exec_groups_within r text m k a b :
  exec r text = Some m ->
  cap_lookup k (groups m) = Some (a, b) ->
  index m <= a /\ a <= b /\ b <= lastIndex m.
Proof.
  intros Hm Hk.
  apply (@exec_from_suffix _ _ _ None 0 m []) in Hm; try reflexivity.
  destruct Hm as (j & before' & ahead' & pre' & s & others & _ & _ & Es & ->).
  cbn [groups index lastIndex] in *.
  assert (Hin : In s (matches r (mkState j before' ahead' [])))
    by (rewrite Es; now left).
  destruct (@matches_spans r _ _ Hin) as (_ & extra & E & F).
  cbn [caps pos] in E, F. rewrite app_nil_r in E. rewrite E in Hk.
  apply cap_lookup_in in Hk. rewrite Forall_forall in F.
  exact (F _ Hk).
Qed.

Lemma exec_forward r text m :
  exec r text = Some m -> input m = text /\ index m <= lastIndex m.
Proof.
  intro Hm.
  apply (@exec_from_suffix _ _ _ None 0 m []) in Hm; try reflexivity.
  destruct Hm as (j & before' & ahead' & pre' & s & others & _ & _ & Es & ->).
  cbn [input index lastIndex]. split; [reflexivity|].
  assert (Hin : In s (matches r (mkState j before' ahead' [])))
    by (rewrite Es; now left).
  now destruct (@matches_spans r _ _ Hin) as (P & _).
Qed.

Lemma startsWith_app (p t : jsstring) : startsWith p (p ++ t) = true.
Proof.
  induction p as [|x p IH]; [now destruct t|].
  cbn. now rewrite N.eqb_refl, IH.
Qed.

Lemma startsWith_prefix (p s : jsstring) :
  startsWith p s = true -> List.length p <= List.length s.
Proof.
  revert s. induction p as [|x p IH]; intros [|y s]; cbn; try lia;
    try discriminate.
  intro H. apply andb_true_iff in H as [_ H]. apply IH in H. lia.
Qed.

Lemma indexOf_from_unfold (p s : jsstring) from :
  indexOf_from p s from
  = if startsWith p s then Some from
    else match s with
         | [] => None
         | _ :: s' => indexOf_from p s' (S from)
         end.
Proof. now destruct s. Qed.

(** [indexOf] finds a part that is there, no later than where it is and
    with room for it. *)
Lemma indexOf_from_found (p : jsstring) : forall before after from,
  exists k,
    indexOf_from p (before ++ p ++ after) from = Some k
    /\ from <= k
    /\ k + List.length p
       <= from + List.length (before ++ p ++ after).
Proof.
  induction before as [|c before IH]; intros after from;
    rewrite indexOf_from_unfold.
  - cbn [app]. rewrite startsWith_app. exists from.
    rewrite length_app. repeat split; lia.
  - cbn [app].
    destruct (startsWith p (c :: before ++ p ++ after)) eqn:Es.
    + exists from. repeat split; try lia.
      apply startsWith_prefix in Es. cbn [app List.length] in *. lia.
    + destruct (IH after (S from)) as (k & -> & Hk1 & Hk2).
      exists k. repeat split; try lia. cbn [List.length]. lia.
Qed.

Lemma substring_split (s : jsstring) a b c :
  a <= b -> b <= c ->
  substring s a c = substring s a b ++ substring s b c.
Proof.
  intros Hab Hbc. unfold substring.
  replace (c - a) with ((b - a) + (c - b)) by lia.
  replace (skipn b s) with (skipn (b - a) (skipn a s))
    by (rewrite skipn_skipn; f_equal; lia).
  generalize (skipn a s) as l. generalize (c - b) as m.
  induction (b - a) as [|n IH]; intros m l; [reflexivity|].
  destruct l as [|x l]; [now rewrite !firstn_nil|].
  cbn. now rewrite IH.
Qed.

Lemma line_forward (document : TextDocument) a b :
  a <= b ->
  Position.line (Document.positionAt document a)
  <= Position.line (Document.positionAt document b).
Proof.
  intro Hab.
  assert (Hf := locate_forward (eol document) (moreLines document)
                  (firstLine document) 0 Hab).
  unfold Document.positionAt, Position.isBefore in *.
  apply orb_false_iff in Hf as [Hf _]. now apply Nat.ltb_ge in Hf.
Qed.

(** The lines of the block lie between the line of the keyword and the
    line the match ends on. *)
Lemma blockLines_within (document : TextDocument) (m : Match) :
  exec matrixRegex (Document.getText document) = Some m ->
  Position.line (Document.positionAt document (index m))
  <= fst (NexusParser.blockLines document m)
  /\ fst (NexusParser.blockLines document m)
     <= snd (NexusParser.blockLines document m)
  /\ snd (NexusParser.blockLines document m)
     <= Position.line (Document.positionAt document (lastIndex m)).
Proof.
  intro Hm. destruct (exec_forward _ _ Hm) as [Hin Hle].
  set (text := Document.getText document) in *.
  set (body := match group m 1 with Some b => b | None => [] end).
  assert (Hk : exists k,
             indexOf (whole m) body = Some k
             /\ index m + k + List.length body <= lastIndex m).
  { unfold body, group, whole. rewrite Hin.
    destruct (cap_lookup 1 (groups m)) as [[a b]|] eqn:Ec.
    - destruct (exec_groups_within _ _ _ Hm Ec) as (Ha & Hab & Hb).
      rewrite (@substring_split text (index m) a (lastIndex m)) by lia.
      rewrite (@substring_split text a b (lastIndex m)) by lia.
      destruct (indexOf_from_found (substring text a b)
                  (substring text (index m) a)
                  (substring text b (lastIndex m)) 0) as (k & Ek & _ & Hk).
      exists k. split; [exact Ek|].
      rewrite <- !(@substring_split text) in Hk by lia.
      unfold substring at 2 in Hk. rewrite length_firstn in Hk. lia.
    - exists 0. split; [|cbn; lia].
      unfold indexOf. now destruct (substring text (index m) (lastIndex m)). }
  destruct Hk as (k & Ek & Hk).
  unfold NexusParser.blockLines. fold body. cbv zeta.
  unfold NexusParser.indexOfZ. rewrite Ek. cbn [fst snd].
  replace (Z.to_nat (Z.of_nat (index m) + Z.of_nat k)) with (index m + k) by lia.
  replace (Z.to_nat (Z.of_nat (index m) + Z.of_nat k
                     + Z.of_nat (List.length body)))
    with (index m + k + List.length body) by lia.
  repeat split; apply line_forward; lia.
Qed.

(** The MATRIX pattern always binds its group. *)
Lemma matrix_content_bound text m :
  exec matrixRegex text = Some m -> exists content, group m 1 = Some content.
Proof.
  intro Hm.
  apply (@exec_from_suffix _ _ _ None 0 m []) in Hm; try reflexivity.
  destruct Hm as (j & before' & ahead' & pre' & s & others & _ & _ & Es & ->).
  assert (Hin : In s (matches matrixRegex (mkState j before' ahead' [])))
    by (rewrite Es; now left).
  unfold matrixRegex in Hin.
  apply matches_seq in Hin as (s1 & _ & Hin).
  apply matches_seq in Hin as (s2 & _ & Hin).
  apply matches_seq in Hin as (s3 & _ & Hin).
  apply matches_seq in Hin as (s4 & _ & Hin).
  apply matches_seq in Hin as (s5 & H5 & Hin).
  apply no_group_caps in Hin; [|reflexivity].
  cbn [matches] in H5. apply in_map_iff in H5 as (x & <- & _).
  unfold group. cbn [groups input]. rewrite Hin.
  cbn [set_cap caps cap_lookup Nat.eqb]. eauto.
Qed.

End MatrixStatement.

(** X22: the parser reads rows only from the lines of the MATRIX
    statement: every data row of the block sits on a line between the
    line of the MATRIX keyword and the line of the semicolon that ends
    the match, whose group, the content of the block, is always bound. *)
Theorem rows_within_matrix_statement (document : TextDocument)
                                     (i : nat) (taxon : Taxon.t) :
  In (i, taxon) (matrixRows document) ->
  exists m content,
    exec matrixRegex (Document.getText document) = Some m
    /\ group m 1 = Some content
    /\ Position.line (Document.positionAt document (index m)) <= i
    /\ i <= Position.line (Document.positionAt document (lastIndex m)).
Proof.
  unfold matrixRows.
  destruct (exec matrixRegex (Document.getText document)) as [m|] eqn:Em;
    [|intros []].
  destruct (blockLines_within document Em) as (H1 & H2 & H3).
  destruct (matrix_content_bound _ Em) as (content & Ec).
  destruct (NexusParser.blockLines document m) as [startLine endLine].
  cbn [fst snd] in *. intro Hin.
  apply blockRows_line in Hin as [Hi _].
  exists m, content. split; [reflexivity|]. split; [exact Ec|]. lia.
Qed.

Lemma rows_within_matrix_statement_witness :
  exists m content,
    exec matrixRegex (Document.getText cleanDocument) = Some m
    /\ group m 1 = Some content
    /\ Position.line (Document.positionAt cleanDocument (index m)) <= 5
    /\ 5 <= Position.line (Document.positionAt cleanDocument (lastIndex m)).
Proof.
  apply (@rows_within_matrix_statement cleanDocument 5 quotedTaxon).
  vm_compute. right. left. reflexivity.
Defined.

(* ================================================================== *)
(** ** Further properties: the comment pattern of the earlier validators *)
(* ================================================================== *)

Section CommentPattern.

Lemma replaceLoop_nil r replacement before i :
  replaceLoop r replacement before [] i 0
  = match matches r (mkState i before [] []) with
    | _ :: _ => replacement
    | [] => []
    end.
Proof. reflexivity. Qed.

Lemma replaceLoop_cons r replacement before c ahead i :
  replaceLoop r replacement before (c :: ahead) i 0
  = match matches r (mkState i before (c :: ahead) []) with
    | s :: _ =>
        replacement
        ++ (if pos s =? i
            then c :: replaceLoop r replacement (Some c) ahead (S i) 0
            else replaceLoop r replacement (Some c) ahead (S i) (pos s - i - 1))
    | [] => c :: replaceLoop r replacement (Some c) ahead (S i) 0
    end.
Proof. reflexivity. Qed.

Lemma replaceLoop_skip r replacement : forall w before ahead i,
  exists before',
    replaceLoop r replacement before (w ++ ahead) i (List.length w)
    = replaceLoop r replacement before' ahead (i + List.length w) 0.
Proof.
  induction w as [|c w IH]; intros before ahead i.
  - exists before. cbn [app List.length]. now rewrite Nat.add_0_r.
  - destruct (IH (Some c) ahead (S i)) as (before' & E).
    exists before'. cbn [app List.length replaceLoop]. rewrite E.
    f_equal. lia.
Qed.

Lemma lit_hit c i before t caps0 :
  matches (Lit false c) (mkState i before (c :: t) caps0)
  = [mkState (S i) (Some c) t caps0].
Proof. cbn [matches Lit rest pos caps]. now rewrite N.eqb_refl. Qed.

Lemma lit_miss c x i before t caps0 :
  x <> c -> matches (Lit false c) (mkState i before (x :: t) caps0) = [].
Proof.
  intro Hx. cbn [matches Lit rest].
  destruct (N.eqb_spec x c); [contradiction | reflexivity].
Qed.

Lemma dot_hit x i before t caps0 :
  is_line_terminator x = false ->
  matches Dot (mkState i before (x :: t) caps0)
  = [mkState (S i) (Some x) t caps0].
Proof. intro Hx. cbn [matches Dot rest pos caps]. now rewrite Hx. Qed.

Lemma iterate_lazy step fuel s :
  iterate step false (S fuel) s
  = s :: flat_map (fun s' => if pos s <? pos s'
                             then iterate step false fuel s' else [])
                  (step s).
Proof. reflexivity. Qed.

(** The lazy run of the pattern stops at the first closing bracket. *)
Lemma lazy_run tail caps0 : forall body i before fuel,
  Forall (fun c => c <> RBRACKET /\ is_line_terminator c = false) body ->
  List.length body < fuel ->
  exists before' others,
    flat_map (matches (Lit false RBRACKET))
      (iterate (matches Dot) false fuel
         (mkState i before (body ++ RBRACKET :: tail) caps0))
    = mkState (i + List.length body + 1) before' tail caps0 :: others.
Proof.
  induction body as [|c body IH]; intros i before fuel Hbody Hfuel;
    (destruct fuel as [|fuel]; [cbn in Hfuel; lia|]);
    rewrite iterate_lazy; cbn [flat_map app].
  - rewrite lit_hit. cbn [app List.length].
    eexists. eexists. f_equal. f_equal. lia.
  - inversion Hbody as [|? ? [Hc Hlt] Hbody']; subst.
    rewrite lit_miss by exact Hc. rewrite dot_hit by exact Hlt.
    cbn [flat_map app pos].
    replace (i <? S i) with true by (symmetry; apply Nat.ltb_lt; lia).
    rewrite app_nil_r.
    destruct (IH (S i) (Some c) fuel Hbody') as (before' & others & E);
      [cbn in Hfuel; lia|].
    rewrite E. eexists. eexists. f_equal. f_equal. cbn. lia.
Qed.

Lemma matches_seq_eq a b s :
  matches (Seq a b) s = flat_map (matches b) (matches a s).
Proof. reflexivity. Qed.

Lemma matches_star_eq greedy r s :
  matches (Star greedy r) s
  = iterate (matches r) greedy (S (List.length (rest s))) s.
Proof. reflexivity. Qed.

Lemma comment_match body tail i before :
  Forall (fun c => c <> RBRACKET /\ is_line_terminator c = false) body ->
  exists before' others,
    matches commentRegex
      (mkState i before (LBRACKET :: body ++ RBRACKET :: tail) [])
    = mkState (i + List.length body + 2) before' tail [] :: others.
Proof.
  intro Hbody. unfold commentRegex.
  rewrite matches_seq_eq, lit_hit. cbn [flat_map].
  rewrite app_nil_r, matches_seq_eq, matches_star_eq. cbn [rest].
  destruct (@lazy_run tail [] body (S i) (Some LBRACKET)
              (S (List.length (body ++ RBRACKET :: tail))) Hbody)
    as (before' & others & E).
  { rewrite length_app. cbn. lia. }
  rewrite E. eexists. eexists. f_equal. f_equal. lia.
Qed.

Lemma no_comment_match c ahead i before :
  c <> LBRACKET ->
  matches commentRegex (mkState i before (c :: ahead) []) = [].
Proof.
  intro Hc. unfold commentRegex.
  rewrite matches_seq_eq, lit_miss by exact Hc. reflexivity.
Qed.

Lemma pieces_replaced pieces :
  Forall valid_piece pieces ->
  forall before i,
    replaceLoop commentRegex [] before (flat_map renderPiece pieces) i 0
    = flat_map keptPiece pieces.
Proof.
  induction 1 as [|p pieces Hp _ IH]; intros before i.
  - reflexivity.
  - destruct p as [c|body]; cbn [flat_map renderPiece keptPiece app].
    + rewrite replaceLoop_cons, no_comment_match by exact Hp.
      now rewrite IH.
    + rewrite replaceLoop_cons, <- app_assoc. cbn [app].
      destruct (@comment_match body (flat_map renderPiece pieces) i before Hp)
        as (before' & others & ->).
      cbn [pos app].
      replace (i + List.length body + 2 =? i) with false
        by (symmetry; apply Nat.eqb_neq; lia).
      replace (i + List.length body + 2 - i - 1)
        with (List.length (body ++ [RBRACKET]))
        by (rewrite length_app; cbn; lia).
      replace (body ++ RBRACKET :: flat_map renderPiece pieces)
        with ((body ++ [RBRACKET]) ++ flat_map renderPiece pieces)
        by (now rewrite <- app_assoc).
      destruct (@replaceLoop_skip commentRegex [] (body ++ [RBRACKET])
                  (Some LBRACKET) (flat_map renderPiece pieces) (S i))
        as (before'' & ->).
      apply IH.
Qed.

Lemma plain_balanced w tail :
  Forall plainOnLine w -> Balanced tail -> Balanced (w ++ tail).
Proof.
  induction 1 as [|c w [Hc _] _ IH]; intro Ht; [exact Ht|].
  cbn. apply Balanced_char; [exact Hc | now apply IH].
Qed.

Lemma plain_body w :
  Forall plainOnLine w ->
  Forall (fun c => c <> RBRACKET /\ is_line_terminator c = false) w.
Proof.
  intro H. eapply Forall_impl; [|exact H]. intros c [Hp Hl]. split; [|exact Hl].
  intros ->. discriminate Hp.
Qed.

Lemma flat_tokens_pieces tokens :
  Forall flat_token tokens ->
  flat_map render tokens = flat_map renderPiece (map pieceOf tokens)
  /\ flat_map kept tokens = flat_map keptPiece (map pieceOf tokens)
  /\ Forall valid_piece (map pieceOf tokens)
  /\ well_formed tokens.
Proof.
  induction 1 as [|t tokens Ht _ (IH1 & IH2 & IH3 & IH4)].
  - repeat split. constructor.
  - destruct t as [c|body|items]; [| |destruct Ht];
      cbn [flat_map map render kept pieceOf renderPiece keptPiece well_formed];
      rewrite IH1, IH2; repeat split; try exact IH4.
    + constructor; [|exact IH3]. cbn. intros ->. discriminate Ht.
    + exact Ht.
    + constructor; [|exact IH3]. cbn. now apply plain_body.
    + cbn. rewrite <- (app_nil_r body). apply plain_balanced; [exact Ht|].
      constructor.
Qed.

End CommentPattern.

(** X23: the comment pattern of the earlier validators removes, from
    every opening bracket, the text up to the first closing bracket
    after it on the line, and keeps every other character, in order. *)
Theorem comments_removed_to_first_closing (pieces : list piece) :
  Forall valid_piece pieces ->
  replaceAll commentRegex [] (flat_map renderPiece pieces)
  = flat_map keptPiece pieces
  /\ Part001.cleanSequence (flat_map renderPiece pieces)
     = remove_whitespace (flat_map keptPiece pieces).
Proof.
  intro Hp. unfold Part001.cleanSequence, replaceAll.
  now rewrite (pieces_replaced Hp).
Qed.

Lemma comments_removed_to_first_closing_witness :
  replaceAll commentRegex [] (lit "AC[x[y]G]T") = lit "ACG]T"
  /\ Part001.cleanSequence (lit "AC[x[y]G]T") = lit "ACG]T".
Proof.
  apply (@comments_removed_to_first_closing
           [Kept 65%N; Kept 67%N; Removed (lit "x[y"); Kept 71%N;
            Kept 93%N; Kept 84%N]).
  repeat constructor; discriminate.
Defined.

(** X24: on rows of data characters and comments without nesting or
    quotes, the sequence cleaning of the earlier validator and the
    stack-based cleaning that replaced it give the same sequence. *)
Theorem cleaning_agrees_on_flat_rows (tokens : list token) :
  Forall flat_token tokens ->
  Part001.cleanSequence (flat_map render tokens)
  = Sequence._clean (flat_map render tokens).
Proof.
  intro Hflat.
  destruct (flat_tokens_pieces Hflat) as (Er & Ek & Hp & Hwf).
  unfold Part001.cleanSequence, replaceAll, Sequence._clean.
  rewrite (well_formed_kept _ Hwf). cbn [app].
  now rewrite Er, (pieces_replaced Hp), Ek.
Qed.

Lemma cleaning_agrees_on_flat_rows_witness :
  Part001.cleanSequence (lit "AC [x y] GT")
  = Sequence._clean (lit "AC [x y] GT").
Proof.
  apply (@cleaning_agrees_on_flat_rows
           [Plain 65%N; Plain 67%N; Plain 32%N; Comment (lit "x y");
            Plain 32%N; Plain 71%N; Plain 84%N]).
  repeat constructor.
Defined.

(** X25: on a comment nested in a comment the two cleanings differ: the
    earlier pattern stops at the first closing bracket and leaves the
    rest of the outer comment and its closing bracket in the sequence,
    where the stack-based cleaning leaves nothing. *)
Theorem nested_comment_left_over (w1 w2 w3 : jsstring) :
  Forall plainOnLine w1 -> Forall plainOnLine w2 -> Forall plainOnLine w3 ->
  Part001.cleanSequence (nested w1 w2 w3) = remove_whitespace w3 ++ [RBRACKET]
  /\ Sequence._clean (nested w1 w2 w3) = [].
Proof.
  intros H1 H2 H3. split.
  - assert (Ew : forall w, flat_map renderPiece (map Kept w) = w
                           /\ flat_map keptPiece (map Kept w) = w).
    { induction w as [|c w [IHr IHk]]; [now split|].
      cbn. now rewrite IHr, IHk. }
    assert (E : nested w1 w2 w3
                = flat_map renderPiece
                    (Removed (w1 ++ LBRACKET :: w2)
                       :: map Kept w3 ++ [Kept RBRACKET])).
    { unfold nested. cbn [flat_map renderPiece]. rewrite flat_map_app.
      rewrite (proj1 (Ew w3)). cbn [flat_map renderPiece app].
      now rewrite <- !app_assoc. }
    assert (Hp : Forall valid_piece
                   (Removed (w1 ++ LBRACKET :: w2)
                      :: map Kept w3 ++ [Kept RBRACKET])).
    { constructor.
      - cbn [valid_piece]. apply Forall_app. split; [now apply plain_body|].
        constructor; [split; [discriminate | reflexivity]|].
        now apply plain_body.
      - apply Forall_app. split.
        + apply Forall_map. eapply Forall_impl; [|exact H3].
          intros c [Hc _]. cbn. intros ->. discriminate Hc.
        + constructor; [cbn; discriminate | constructor]. }
    unfold Part001.cleanSequence, replaceAll.
    rewrite E, (pieces_replaced Hp). cbn [flat_map keptPiece app].
    rewrite flat_map_app, (proj2 (Ew w3)). cbn [flat_map keptPiece app].
    unfold remove_whitespace. now rewrite filter_app.
  - assert (Hb : Balanced (w1 ++ LBRACKET :: w2 ++ RBRACKET :: w3)).
    { apply plain_balanced; [exact H1|].
      apply Balanced_nest.
      - rewrite <- (app_nil_r w2). apply plain_balanced; [exact H2 | constructor].
      - rewrite <- (app_nil_r w3). apply plain_balanced; [exact H3 | constructor]. }
    assert (Hwf : well_formed [Comment (w1 ++ LBRACKET :: w2 ++ RBRACKET :: w3)])
      by (cbn; auto).
    unfold Sequence._clean.
    replace (nested w1 w2 w3)
      with (flat_map render [Comment (w1 ++ LBRACKET :: w2 ++ RBRACKET :: w3)]).
    + now rewrite (well_formed_kept _ Hwf).
    + unfold nested. cbn [flat_map render]. rewrite app_nil_r.
      rewrite <- app_assoc. cbn [app]. rewrite <- app_assoc. reflexivity.
Qed.

Lemma nested_comment_left_over_witness :
  Part001.cleanSequence (nested (lit "a") (lit "b") (lit "c d")) = lit "cd]"
  /\ Sequence._clean (nested (lit "a") (lit "b") (lit "c d")) = [].
Proof.
  apply (@nested_comment_left_over (lit "a") (lit "b") (lit "c d"));
    repeat constructor.
Defined.

(* ================================================================== *)
(** ** Further properties: the validator of src/extension.js *)
(* ================================================================== *)

Section LineCount.

Lemma trim_start_none s :
  (forall c, In c s -> is_whitespace c = true) -> trim_start s = [].
Proof.
  induction s as [|x s IH]; intro H; [reflexivity|].
  cbn. rewrite (H x (or_introl eq_refl)). apply IH.
  intros c Hc. apply H. now right.
Qed.

Lemma trim_start_some s c :
  In c s -> is_whitespace c = false -> In c (trim_start s).
Proof.
  induction s as [|x s IH]; intros Hin Hc; [destruct Hin|].
  cbn. destruct (is_whitespace x) eqn:Ex; [|exact Hin].
  destruct Hin as [->|Hin]; [congruence | now apply IH].
Qed.

Lemma trim_hasData s : (0 <? List.length (trim s)) = hasData s.
Proof.
  unfold hasData, trim.
  destruct (existsb (fun c => negb (is_whitespace c)) s) eqn:E.
  - apply existsb_exists in E as (c & Hin & Hc).
    apply negb_true_iff in Hc.
    assert (H : In c (rev (trim_start (rev (trim_start s))))).
    { rewrite <- in_rev. apply trim_start_some; [|exact Hc].
      rewrite <- in_rev. now apply trim_start_some. }
    destruct (rev (trim_start (rev (trim_start s)))); [destruct H | reflexivity].
  - rewrite (@trim_start_none s); [reflexivity|].
    intros c Hc. destruct (is_whitespace c) eqn:Ec; [reflexivity|].
    assert (Hex : existsb (fun c => negb (is_whitespace c)) s = true).
    { apply existsb_exists. exists c. now rewrite Ec. }
    congruence.
Qed.

Lemma countTaxa_filter lines :
  ExtensionJs.countTaxa lines
  = List.length
      (filter (fun line => hasData (replaceAll commentRegex [] line)) lines).
Proof.
  unfold ExtensionJs.countTaxa.
  assert (H : forall n,
             fold_left
               (fun actualTaxaCount line =>
                  if 0 <? List.length (trim (replaceAll commentRegex [] line))
                  then S actualTaxaCount else actualTaxaCount) lines n
             = n + List.length
                     (filter (fun line => hasData (replaceAll commentRegex [] line))
                             lines)).
  { induction lines as [|line lines IH]; intro n; cbn [fold_left filter];
      [cbn; lia|].
    rewrite IH, trim_hasData.
    destruct (hasData (replaceAll commentRegex [] line)); cbn; lia. }
  exact (H 0).
Qed.

Lemma split_length sep s :
  List.length (split sep s) = S (count_occ N.eq_dec s sep).
Proof.
  induction s as [|c s IH]; [reflexivity|].
  cbn [split count_occ].
  destruct (N.eqb_spec c sep) as [->|Hc].
  - destruct (N.eq_dec sep sep); [|contradiction]. cbn. now rewrite IH.
  - destruct (N.eq_dec c sep); [contradiction|].
    destruct (split sep s); [discriminate IH | exact IH].
Qed.

(** The MATRIX pattern of src/extension.js always binds its group. *)
Lemma extension_matrix_content text m :
  exec ExtensionJs.matrixRegex text = Some m ->
  exists content, group m 1 = Some content.
Proof.
  intro Hm.
  apply (@exec_from_suffix _ _ _ None 0 m []) in Hm; try reflexivity.
  destruct Hm as (j & before' & ahead' & pre' & s & others & _ & _ & Es & ->).
  assert (Hin : In s (matches ExtensionJs.matrixRegex
                        (mkState j before' ahead' [])))
    by (rewrite Es; now left).
  unfold ExtensionJs.matrixRegex in Hin.
  apply matches_seq in Hin as (s1 & _ & Hin).
  apply matches_seq in Hin as (s2 & _ & Hin).
  apply matches_seq in Hin as (s3 & _ & Hin).
  apply matches_seq in Hin as (s4 & H4 & Hin).
  apply char_advances in Hin as [_ Hcaps].
  cbn [matches] in H4. apply in_map_iff in H4 as (x & <- & _).
  unfold group. cbn [groups input]. rewrite Hcaps.
  cbn [set_cap caps cap_lookup Nat.eqb]. eauto.
Qed.

End LineCount.

(** X26: the pass of src/extension.js over a NEXUS document always
    returns.  Without an NTAX declaration or without a MATRIX block it
    leaves the cleared collection empty; otherwise it publishes for the
    document at most one diagnostic, an Error under the NTAX
    declaration, and none exactly when the declared count is the number
    of lines counted in the content of the block, which is at most one
    more than the line feeds of the content. *)
Theorem extension_pass_returns (document : TextDocument) (host : Host) :
  languageId document = "nexus"%string ->
  let text := Document.getText document in
  exists published,
    ExtensionJs.validateNexus document host
    = (mkHost published (visibleTextEditors host), Returned)
    /\ (exec ntaxRegex text = None \/ exec ExtensionJs.matrixRegex text = None ->
        published = [])
    /\ forall ntaxMatch matrixMatch,
         exec ntaxRegex text = Some ntaxMatch ->
         exec ExtensionJs.matrixRegex text = Some matrixMatch ->
         exists content diagnostics,
           group matrixMatch 1 = Some content
           /\ published = [(uri document, diagnostics)]
           /\ List.length diagnostics <= 1
           /\ Forall (fun d => severity d = Error
                               /\ range d = getRangeFromMatch document ntaxMatch)
                     diagnostics
           /\ (diagnostics = []
               <-> defined (Some ntaxMatch)
                   = Some (N.of_nat (ExtensionJs.countTaxa (split NEWLINE content))))
           /\ ExtensionJs.countTaxa (split NEWLINE content)
              <= S (count_occ N.eq_dec content NEWLINE).
Proof.
  intros Hl text. unfold ExtensionJs.validateNexus. rewrite Hl.
  cbn [String.eqb Ascii.eqb Bool.eqb negb andb Collection.clear
       collection visibleTextEditors].
  fold text.
  destruct (exec ntaxRegex text) as [ntaxMatch|] eqn:En.
  2:{ exists []. split; [reflexivity|]. split; [reflexivity|].
      intros ? ? [=]. }
  destruct (exec ExtensionJs.matrixRegex text) as [matrixMatch|] eqn:Em.
  2:{ exists []. split; [reflexivity|]. split; [reflexivity|].
      intros ? ? _ [=]. }
  destruct (extension_matrix_content _ Em) as (content & Ec). rewrite Ec.
  cbv zeta. eexists. split; [reflexivity|].
  split; [intros [H|H]; discriminate H|].
  intros ? ? [= <-] [= <-]. exists content. eexists.
  split; [exact Ec|]. split; [reflexivity|].
  assert (Hcount : ExtensionJs.countTaxa (split NEWLINE content)
                   <= S (count_occ N.eq_dec content NEWLINE)).
  { rewrite countTaxa_filter, <- split_length. apply filter_length_le. }
  unfold defined.
  destruct (N.eqb_spec
              (N.of_nat (ExtensionJs.countTaxa (split NEWLINE content)))
              (parseInt match group ntaxMatch 1 with
                        | Some g => g
                        | None => []
                        end)) as [E|E]; cbn [negb].
  - repeat split; try (cbn; lia); try constructor; try exact Hcount.
    intros _. now rewrite E.
  - unfold push. cbn [app]. repeat split; try (cbn; lia); try exact Hcount.
    + repeat constructor.
    + discriminate.
    + intros [= H]. now elim E.
Qed.

Lemma extension_pass_returns_witness :
  exists published,
    ExtensionJs.validateNexus cleanDocument (mkHost [] [])
    = (mkHost published [], Returned).
Proof.
  destruct (@extension_pass_returns cleanDocument (mkHost [] []) eq_refl)
    as (published & E & _).
  exists published. exact E.
Defined.

(** X27: the count of src/extension.js is the number of lines of which
    something other than whitespace is left outside the stretches its
    comment pattern removes. *)
Theorem extension_counts_lines_with_data (lines : list (list piece)) :
  Forall (Forall valid_piece) lines ->
  ExtensionJs.countTaxa (map (flat_map renderPiece) lines)
  = List.length (filter (fun pieces => hasData (flat_map keptPiece pieces)) lines).
Proof.
  intro Hlines. rewrite countTaxa_filter.
  induction Hlines as [|pieces lines Hp _ IH]; [reflexivity|].
  cbn [map filter]. unfold replaceAll at 1. rewrite (pieces_replaced Hp).
  destruct (hasData (flat_map keptPiece pieces)); cbn [List.length];
    now rewrite IH.
Qed.

Lemma extension_counts_lines_with_data_witness :
  ExtensionJs.countTaxa [lit "A [x] C"; lit " [only a comment] "; lit "B G"] = 2.
Proof.
  apply (@extension_counts_lines_with_data
           [[Kept 65%N; Kept 32%N; Removed (lit "x"); Kept 32%N; Kept 67%N];
            [Kept 32%N; Removed (lit "only a comment"); Kept 32%N];
            [Kept 66%N; Kept 32%N; Kept 71%N]]).
  repeat constructor; discriminate.
Defined.

(* ================================================================== *)
(** ** Further properties: the validator of src/unnamed/part_001 *)
(* ================================================================== *)

Section PreviousScan.
Variable document : TextDocument.

(** A row match always binds the group of the sequence. *)
Lemma row_sequence_bound text m :
  exec rowRegex text = Some m -> exists rawSequence, group m 4 = Some rawSequence.
Proof.
  intro Hm.
  apply (@exec_from_suffix _ _ _ None 0 m []) in Hm; try reflexivity.
  destruct Hm as (j & before' & ahead' & pre' & s & others & _ & _ & Es & ->).
  assert (Hin : In s (matches rowRegex (mkState j before' ahead' [])))
    by (rewrite Es; now left).
  unfold rowRegex in Hin.
  apply matches_seq in Hin as (s1 & _ & Hin).
  apply matches_seq in Hin as (s2 & _ & Hin).
  apply matches_seq in Hin as (s3 & _ & Hin).
  apply matches_seq in Hin as (s4 & _ & Hin).
  apply matches_seq in Hin as (s5 & H5 & Hin).
  assert (Hs : s = s5).
  { cbn [matches] in Hin. destruct (rest s5); [|destruct Hin].
    now destruct Hin as [<-|[]]. }
  subst s5. cbn [matches] in H5. apply in_map_iff in H5 as (x & <- & _).
  unfold group. cbn [groups input set_cap caps cap_lookup Nat.eqb]. eauto.
Qed.

(** The earlier loop and the later parser take the same lines as rows. *)
Lemma scanLine_row definedNchar (line : TextLine.t) (scan : Part001.Scan) :
  exists scan' extra,
    Part001.scanLine definedNchar line scan = Some scan'
    /\ Part001.diagnostics scan' = Part001.diagnostics scan ++ extra
    /\ Forall RowWarning extra
    /\ Forall (fun d => range d = TextLine.range line) extra
    /\ match NexusParser.rowOf line with
       | Some _ =>
           Part001.actualTaxaCount scan' = S (Part001.actualTaxaCount scan)
           /\ List.length extra <= 1
       | None => scan' = scan /\ extra = []
       end.
Proof.
  unfold Part001.scanLine, NexusParser.rowOf. cbv zeta.
  replace (List.length (trim (TextLine.text line)) =? 0)
    with (match trim (TextLine.text line) with [] => true | _ :: _ => false end)
    by (now destruct (trim (TextLine.text line))).
  destruct (_ || _).
  { exists scan, []. rewrite app_nil_r. repeat split; constructor. }
  destruct (exec rowRegex (TextLine.text line)) as [m|] eqn:Em.
  2:{ exists scan, []. rewrite app_nil_r. repeat split; constructor. }
  destruct (row_match_named _ Em) as (name & ->).
  destruct (row_sequence_bound _ Em) as (rawSequence & ->). cbn [bind].
  destruct definedNchar as [definedNchar|].
  - destruct (negb _).
    + eexists. eexists. split; [reflexivity|]. cbn [Part001.diagnostics
        Part001.actualTaxaCount]. unfold push. split; [reflexivity|].
      repeat split; try (cbn; lia); repeat constructor.
    + eexists. exists []. split; [reflexivity|].
      cbn [Part001.diagnostics Part001.actualTaxaCount]. rewrite app_nil_r.
      repeat split; try (cbn; lia); constructor.
  - eexists. exists []. split; [reflexivity|].
    cbn [Part001.diagnostics Part001.actualTaxaCount]. rewrite app_nil_r.
    repeat split; try (cbn; lia); constructor.
Qed.

Lemma scanLines_rows definedNchar count : forall i scan,
  i + count <= Document.lineCount document ->
  exists scan' extra,
    Part001.scanLines document definedNchar i count scan = Some scan'
    /\ Part001.actualTaxaCount scan'
       = Part001.actualTaxaCount scan
         + List.length (blockRows document i count)
    /\ Part001.diagnostics scan' = Part001.diagnostics scan ++ extra
    /\ Forall RowWarning extra
    /\ List.length extra <= List.length (blockRows document i count).
Proof.
  induction count as [|count IH]; intros i scan Hi.
  - exists scan, []. cbn. rewrite app_nil_r.
    repeat split; try lia; constructor.
  - cbn [Part001.scanLines blockRows].
    destruct (lineAt_some (document := document) (i := i)) as (text & _ & ->);
      [lia|].
    cbn [bind].
    destruct (scanLine_row definedNchar
                (TextLine.make text
                   (Range.make (Position.make i 0)
                      (Position.make i (List.length text)))) scan)
      as (scan1 & extra1 & -> & Ed1 & Fw1 & _ & Hrow).
    cbn [bind].
    destruct (IH (S i) scan1) as (scan' & extra & -> & Ec & Ed & Fw & Hlen);
      [lia|].
    exists scan', (extra1 ++ extra). split; [reflexivity|].
    rewrite Ed, Ed1, <- app_assoc, length_app.
    destruct (NexusParser.rowOf _) as [taxon|].
    + destruct Hrow as [Hc Hl]. cbn [List.length].
      repeat split; try lia. now apply Forall_app.
    + destruct Hrow as [-> ->]. cbn [List.length app].
      repeat split; try lia. exact Fw.
Qed.

Lemma previousScan_rows :
  match exec matrixRegex (Document.getText document) with
  | Some _ =>
      exists scan,
        previousScan document = Some scan
        /\ Part001.actualTaxaCount scan = List.length (matrixRows document)
        /\ Forall RowWarning (Part001.diagnostics scan)
        /\ List.length (Part001.diagnostics scan)
           <= List.length (matrixRows document)
  | None => previousScan document = None /\ matrixRows document = []
  end.
Proof.
  unfold previousScan, matrixRows. cbv zeta.
  destruct (exec matrixRegex (Document.getText document)) as [m|];
    [|now split].
  change (Part001.contentLines document m)
    with (NexusParser.blockLines document m).
  pose proof (positionAt_line document) as Hline.
  unfold NexusParser.blockLines. cbv zeta.
  match goal with
  | |- context [Part001.scanLines _ _
                  (Position.line (Document.positionAt _ ?o1))
                  (S (Position.line (Document.positionAt _ ?o2)) - _)] =>
      pose proof (Hline o1); pose proof (Hline o2)
  end.
  match goal with
  | |- context [Part001.scanLines _ ?d ?i ?c ?s] =>
      destruct (@scanLines_rows d c i s) as (scan & extra & E & Ec & Ed & Fw & Hl);
        [lia|]
  end.
  exists scan. split; [exact E|]. cbn in Ec, Ed.
  rewrite Ed. repeat split; assumption.
Qed.

End PreviousScan.

(** X28: the pass of src/unnamed/part_001 over a NEXUS document always
    returns.  Without a MATRIX block it leaves the cleared collection
    empty, whatever the header declares.  With one, it counts as taxa
    exactly the data rows the later parser finds, and publishes its row
    warnings first, at most one per row, and then at most two errors. *)
Theorem previous_pass_returns (document : TextDocument) (host : Host) :
  languageId document = "nexus"%string ->
  exists published,
    Part001.validateNexus document host
    = (mkHost published (visibleTextEditors host), Returned)
    /\ match previousScan document with
       | None =>
           published = []
           /\ exec matrixRegex (Document.getText document) = None
       | Some scan =>
           exists errors,
             published
             = [(uri document, Part001.diagnostics scan ++ errors)]
             /\ Part001.actualTaxaCount scan
                = List.length (matrixRows document)
             /\ Forall RowWarning (Part001.diagnostics scan)
             /\ List.length (Part001.diagnostics scan)
                <= List.length (matrixRows document)
             /\ Forall (fun d => severity d = Error) errors
             /\ List.length errors <= 2
       end.
Proof.
  intro Hl. unfold Part001.validateNexus. rewrite Hl.
  cbn [String.eqb Ascii.eqb Bool.eqb negb andb Collection.clear
       collection visibleTextEditors]. cbv zeta.
  pose proof (previousScan_rows document) as Hrows.
  unfold previousScan in *. cbv zeta in Hrows.
  destruct (exec matrixRegex (Document.getText document)) as [m|].
  2:{ exists []. now split. }
  destruct Hrows as (scan & E & Hc & Fw & Hlen).
  destruct (Part001.contentLines document m) as [startLine endLine].
  rewrite E.
  set (afterNtax :=
         match exec ntaxRegex (Document.getText document),
               defined (exec ntaxRegex (Document.getText document)) with
         | Some m0, Some definedNtax =>
             if negb (N.of_nat (Part001.actualTaxaCount scan) =? definedNtax)%N
             then _ else _
         | _, _ => _
         end).
  assert (Hn : exists ntax,
             afterNtax = Part001.diagnostics scan ++ ntax
             /\ Forall (fun d => severity d = Error) ntax
             /\ List.length ntax <= 1).
  { subst afterNtax.
    destruct (exec ntaxRegex (Document.getText document)) as [m0|];
      cbn [defined];
      [|exists []; rewrite app_nil_r; repeat split; [constructor | cbn; lia]].
    destruct (negb _).
    - eexists. unfold push. split; [reflexivity|].
      split; [repeat constructor | cbn; lia].
    - exists []. rewrite app_nil_r. repeat split; [constructor | cbn; lia]. }
  destruct Hn as (ntax & -> & Fn & Ln).
  eexists. split; [reflexivity|].
  destruct (exec ncharRegex (Document.getText document)) as [m1|];
    cbn [defined].
  - destruct (_ && _).
    + eexists. unfold push. rewrite <- app_assoc. split; [reflexivity|].
      repeat split; try assumption.
      * apply Forall_app. split; [exact Fn | repeat constructor].
      * rewrite length_app. cbn. lia.
    + exists ntax. repeat split; try assumption. lia.
  - exists ntax. repeat split; try assumption. lia.
Qed.

Lemma previous_pass_returns_witness :
  exists published,
    Part001.validateNexus interleavedDocument (mkHost [] [])
    = (mkHost published [], Returned).
Proof.
  destruct (@previous_pass_returns interleavedDocument (mkHost [] []) eq_refl)
    as (published & E & _).
  exists published. exact E.
Defined.

Section FirstSeen.

Lemma seen_in (k : jsstring) (seen : list jsstring) :
  existsb (jsstring_eqb k) seen = true <-> In k seen.
Proof.
  rewrite existsb_exists. split.
  - intros (x & Hx & E). now destruct (jsstring_eqb_spec k x) as [->|].
  - intro H. exists k. split; [exact H|].
    now destruct (jsstring_eqb_spec k k).
Qed.

Lemma firstSeen_length names : forall seen,
  List.length (firstSeen seen names) <= List.length names
  /\ (List.length (firstSeen seen names) = List.length names
      <-> NoDup names /\ forall k, In k names -> ~ In k seen).
Proof.
  induction names as [|k names IH]; intro seen.
  - cbn. split; [lia|]. split; [|reflexivity].
    intros _. split; [constructor | intros k []].
  - cbn [firstSeen List.length].
    destruct (existsb (jsstring_eqb k) seen) eqn:Ek.
    + apply seen_in in Ek. destruct (IH seen) as [Hle _].
      split; [lia|]. split; [lia|].
      intros [_ H]. elim (H k (or_introl eq_refl) Ek).
    + assert (Hk : ~ In k seen).
      { intro H. apply seen_in in H. congruence. }
      destruct (IH (k :: seen)) as [Hle Hiff]. cbn [List.length].
      split; [lia|]. split.
      * intro E. assert (E' : List.length (firstSeen (k :: seen) names)
                              = List.length names) by lia.
        apply Hiff in E' as [Hnd Hout]. split.
        -- constructor; [|exact Hnd].
           intro Hin. apply (Hout k Hin). now left.
        -- intros k' [<-|Hin]; [exact Hk|].
           intro Hs. apply (Hout k' Hin). now right.
      * intros [Hnd Hout]. inversion Hnd as [|? ? Hnotin Hnd']; subst.
        f_equal. apply Hiff. split; [exact Hnd'|].
        intros k' Hin [<-|Hs]; [contradiction|].
        apply (Hout k'); [now right | exact Hs].
Qed.

End FirstSeen.

(** X29: the earlier validator counts rows where the later one counts
    names: the count of taxa of the parsed model is at most the count
    of the earlier loop, and the two agree exactly when no name is on
    two rows of the block. *)
Theorem previous_count_bounds_taxa (document : TextDocument)
                                   (scan : Part001.Scan) :
  previousScan document = Some scan ->
  exists nexus,
    NexusParser.parse document = Some nexus
    /\ Nexus.ntax nexus <= Part001.actualTaxaCount scan
    /\ (Nexus.ntax nexus = Part001.actualTaxaCount scan
        <-> NoDup (rowNames document)).
Proof.
  intro Hscan.
  assert (Hc : Part001.actualTaxaCount scan = List.length (rowNames document)).
  { pose proof (previousScan_rows document) as Hrows.
    destruct (exec matrixRegex (Document.getText document)).
    - destruct Hrows as (scan' & E & Hc & _).
      rewrite Hscan in E. injection E as <-.
      unfold rowNames. now rewrite length_map.
    - destruct Hrows as [E _]. congruence. }
  eexists. split; [apply parse_fold|].
  pose proof (fold_keys (map snd (matrixRows document)) Nexus.empty) as Hk.
  cbn [Nexus.empty Nexus.taxa map app] in Hk.
  rewrite map_map in Hk. fold (rowNames document) in Hk.
  unfold Nexus.ntax, JSMap.size.
  rewrite <- (length_map fst), Hk, Hc.
  destruct (firstSeen_length (rowNames document) []) as [Hle Hiff].
  split; [exact Hle|]. rewrite Hiff. split; [tauto|].
  intro Hnd. split; [exact Hnd | intros k _ []].
Qed.

Lemma previous_count_bounds_taxa_witness :
  exists nexus,
    NexusParser.parse cleanDocument = Some nexus
    /\ Nexus.ntax nexus <= 2
    /\ (Nexus.ntax nexus = 2 <-> NoDup (rowNames cleanDocument)).
Proof.
  exact (@previous_count_bounds_taxa cleanDocument (Part001.mkScan 2 4 [])
           eq_refl).
Defined.

(* ================================================================== *)
(** ** Further properties: the decorations over a session *)
(* ================================================================== *)

Section Decorations.

Lemma pass_editors document host :
  visibleTextEditors (fst (validateNexus document host))
  = map (fun editor =>
           decorated (decorationOf (editorDocument editor)
                        (DidChangeTextDocument document)) editor)
        (visibleTextEditors host).
Proof.
  unfold decorationOf. cbn [documentOf].
  destruct (String.eqb_spec (languageId document) "nexus") as [Hl|Hl].
  - rewrite (validateNexus_nexus _ _ Hl). cbn [andb].
    destruct (commentDiagnostics document []) as [[ds ranges]|].
    + cbv zeta. destruct (parse_some document) as [nexus ->].
      cbn [fst visibleTextEditors]. unfold setDecorations.
      apply map_ext. intro editor.
      now destruct (String.eqb (editorDocument editor) (uri document)).
    + cbn [fst visibleTextEditors]. rewrite <- (map_id (visibleTextEditors host)) at 1.
      apply map_ext. intro editor.
      now destruct (String.eqb (editorDocument editor) (uri document)).
  - rewrite (validateNexus_other _ _ Hl). cbn [fst andb].
    rewrite <- (map_id (visibleTextEditors host)) at 1.
    now apply map_ext.
Qed.

Lemma fire_editors host event :
  visibleTextEditors (fire host event)
  = map (fun editor =>
           decorated (decorationOf (editorDocument editor) event) editor)
        (visibleTextEditors host).
Proof.
  unfold fire, onDidChangeActiveTextEditor, onDidChangeTextDocument.
  destruct event as [[document|]|document]; try apply pass_editors.
  cbn [fst]. rewrite <- (map_id (visibleTextEditors host)) at 1.
  now apply map_ext.
Qed.

Lemma lastDecoration_seen u events : forall ranges,
  lastDecoration u events (Some ranges)
  = match lastDecoration u events None with
    | Some later => Some later
    | None => Some ranges
    end.
Proof.
  induction events as [|event events IH]; intro ranges; [reflexivity|].
  cbn [lastDecoration].
  destruct (decorationOf u event) as [given|]; [|apply IH].
  rewrite IH. now destruct (lastDecoration u events None).
Qed.

Lemma decorated_document given editor :
  editorDocument (decorated given editor) = editorDocument editor.
Proof. now destruct given. Qed.

End Decorations.

(** X30: after any run of events, an editor carries the decoration of
    the last pass of the run over a NEXUS document of its identity
    whose comment pass completed, and its own when there was none; the
    editors of other documents are never touched, and no editor is
    added, dropped or moved. *)
Theorem editors_hold_last_decoration (events : list Event) (host : Host) :
  visibleTextEditors (deliver events host)
  = map (fun editor =>
           decorated (lastDecoration (editorDocument editor) events None) editor)
        (visibleTextEditors host).
Proof.
  revert host. induction events as [|event events IH]; intro host.
  - cbn. now rewrite map_id.
  - cbn [deliver fold_left]. fold (deliver events (fire host event)).
    rewrite IH, fire_editors, map_map. apply map_ext. intro editor.
    rewrite decorated_document. cbn [lastDecoration].
    destruct (decorationOf (editorDocument editor) event) as [given|];
      [|reflexivity].
    rewrite lastDecoration_seen. cbn [decorated].
    now destruct (lastDecoration (editorDocument editor) events None).
Qed.
